(** * Enhanced Windmill Simulation: a shallow embedding of
      [windmill_enhanced.cpp] and the properties of its scene, entities
      and input handling.

    The C++ [float] is IEEE-754 binary32; it is modelled with the
    Standard Library's executable specification of IEEE arithmetic
    ([SpecFloat], precision 24, exponent bound 128, round to nearest
    even), so that every arithmetic step of the program can be evaluated
    and bounded exactly as the machine performs it.  The C++ [int] is
    modelled by [Z]: the only integers of the program are the windmill
    counter, identities and selection indices, which stay far below
    [2^31] (signed overflow would be undefined behaviour anyway). *)

From Stdlib Require Import ZArith List Bool Lia Ascii String.
From Stdlib Require Import Floats.SpecFloat.
From stdpp Require Import gmap list.

Open Scope Z_scope.

(** ** Binary32 arithmetic *)

Module F32.

Definition prec : Z := 24.
Definition emax : Z := 128.

Definition add : spec_float -> spec_float -> spec_float := SFadd prec emax.
Definition sub : spec_float -> spec_float -> spec_float := SFsub prec emax.
Definition mul : spec_float -> spec_float -> spec_float := SFmul prec emax.
Definition div : spec_float -> spec_float -> spec_float := SFdiv prec emax.
Definition opp : spec_float -> spec_float := SFopp.

(** Conversion of an [int] to [float] ([float(i)], [static_cast<float>]
    and the implicit conversions of mixed arithmetic). *)
Definition of_Z (n : Z) : spec_float := binary_normalize prec emax n 0 false.

(** A decimal literal [n / 10^k], e.g. [0.3f] is [lit 3 1].  Both [n] and
    [10^k] are exact in binary32 for the literals of the program, and the
    division is correctly rounded, which is what the compiler does. *)
Definition lit (n : Z) (k : nat) : spec_float :=
  div (of_Z n) (of_Z (10 ^ Z.of_nat k)).

(** The comparisons of C++: every comparison with a NaN is false. *)
Definition ltb : spec_float -> spec_float -> bool := SFltb.
Definition leb : spec_float -> spec_float -> bool := SFleb.
Definition gtb (a b : spec_float) : bool := SFltb b a.
Definition geb (a b : spec_float) : bool := SFleb b a.

(** A value the machine can hold: a canonical binary32 datum. *)
Definition valid : spec_float -> bool := valid_binary prec emax.

End F32.

Arguments F32.add : simpl never.
Arguments F32.sub : simpl never.
Arguments F32.mul : simpl never.
Arguments F32.div : simpl never.
Arguments F32.opp : simpl never.
Arguments F32.of_Z : simpl never.
Arguments F32.lit : simpl never.
Arguments F32.ltb : simpl never.
Arguments F32.leb : simpl never.
Arguments F32.gtb : simpl never.
Arguments F32.geb : simpl never.

Declare Scope f32_scope.
Delimit Scope f32_scope with f32.
Infix "+" := F32.add : f32_scope.
Infix "-" := F32.sub : f32_scope.
Infix "*" := F32.mul : f32_scope.
Infix "/" := F32.div : f32_scope.
Infix "<?" := F32.ltb : f32_scope.
Infix "<=?" := F32.leb : f32_scope.
Infix ">?" := F32.gtb : f32_scope.
Infix ">=?" := F32.geb : f32_scope.
Notation "- x" := (F32.opp x) : f32_scope.


(** ** Bounds on binary32 rounding

    What the proofs below need of IEEE arithmetic: the order of canonical
    numbers is the order of their magnitudes, and rounding a sum or a
    difference to nearest never carries it past a representable bound. *)

Section Binary32_bounds.

Definition mag (m : positive) (e : Z) : Z := Zpos m * 2 ^ (e + 149).

Lemma pow2_pos a : 0 <= a -> 0 < 2 ^ a.
Proof. intros. apply Z.pow_pos_nonneg; lia. Qed.

Lemma pow2_gap a b : 0 <= a -> a < b -> 2 * 2 ^ a <= 2 ^ b.
Proof.
  intros Ha Hab. replace b with (Z.succ a + (b - a - 1)) by lia.
  rewrite Z.pow_add_r, Z.pow_succ_r by lia.
  pose proof (pow2_pos a Ha). pose proof (pow2_pos (b - a - 1)). nia.
Qed.

Lemma pow2_le a b : 0 <= a -> a <= b -> 2 ^ a <= 2 ^ b.
Proof. intros. apply Z.pow_le_mono_r; lia. Qed.

Lemma digits2_pos_bounds m :
  2 ^ (Zpos (digits2_pos m) - 1) <= Zpos m < 2 ^ Zpos (digits2_pos m).
Proof.
  induction m as [m IH|m IH|]; cbn [digits2_pos].
  - rewrite Pos2Z.inj_succ. change (Zpos m~1) with (2 * Zpos m + 1).
    replace (Z.succ (Zpos (digits2_pos m)) - 1) with (Z.succ (Zpos (digits2_pos m) - 1)) by lia.
    rewrite !Z.pow_succ_r by lia.
    destruct IH as [Hlo Hhi]. revert Hlo Hhi.
    generalize (2 ^ (Zpos (digits2_pos m) - 1)), (2 ^ Zpos (digits2_pos m)). lia.
  - rewrite Pos2Z.inj_succ. change (Zpos m~0) with (2 * Zpos m).
    replace (Z.succ (Zpos (digits2_pos m)) - 1) with (Z.succ (Zpos (digits2_pos m) - 1)) by lia.
    rewrite !Z.pow_succ_r by lia.
    destruct IH as [Hlo Hhi]. revert Hlo Hhi.
    generalize (2 ^ (Zpos (digits2_pos m) - 1)), (2 ^ Zpos (digits2_pos m)). lia.
  - cbn. lia.
Qed.

Lemma digits_unique (m : positive) (d : Z) :
  0 < d -> 2 ^ (d - 1) <= Zpos m < 2 ^ d -> Zpos (digits2_pos m) = d.
Proof.
  intros Hd [Hlo Hhi]. pose proof (digits2_pos_bounds m) as [Hlo' Hhi'].
  set (d' := Zpos (digits2_pos m)) in *. assert (0 < d') by (unfold d'; lia).
  destruct (Z.lt_trichotomy d' d) as [Hlt|[Heq|Hgt]]; [|done|].
  - pose proof (pow2_le d' (d - 1)). lia.
  - pose proof (pow2_le d (d' - 1)). lia.
Qed.

Lemma bounded_inv m e :
  bounded 24 128 m e = true ->
  -149 <= e <= 104 /\ Zpos m < 2 ^ 24 /\ (e = -149 \/ 2 ^ 23 <= Zpos m).
Proof.
  unfold bounded, canonical_mantissa, fexp, emin. intros H.
  apply andb_true_iff in H as [H1 H2]. apply Z.eqb_eq in H1. apply Z.leb_le in H2.
  pose proof (digits2_pos_bounds m) as [Hlo Hhi].
  set (d := Zpos (digits2_pos m)) in *. assert (0 < d) by (unfold d; lia).
  destruct (Z.max_spec (d + e - 24) (3 - 128 - 24)) as [[Hc Hm]|[Hc Hm]];
    rewrite Hm in H1.
  - pose proof (pow2_le d 24). split; [lia|]. split; [lia|]. left. lia.
  - assert (d = 24) as Hd by lia. rewrite Hd in *. split; [lia|].
    split; [done|]. right. done.
Qed.

Lemma bounded_intro m e :
  -149 <= e <= 104 ->
  Zpos (digits2_pos m) = 24 \/ (e = -149 /\ Zpos (digits2_pos m) <= 24) ->
  bounded 24 128 m e = true.
Proof.
  intros He Hd. unfold bounded, canonical_mantissa, fexp, emin.
  apply andb_true_iff. split; [apply Z.eqb_eq|apply Z.leb_le; lia]. lia.
Qed.

Lemma mag_pos m e : -149 <= e -> 0 < mag m e.
Proof. intros. unfold mag. pose proof (pow2_pos (e + 149)). nia. Qed.

Lemma compare_finite m1 e1 m2 e2 :
  bounded 24 128 m1 e1 = true -> bounded 24 128 m2 e2 = true ->
  SFcompare (S754_finite false m1 e1) (S754_finite false m2 e2)
  = Some (mag m1 e1 ?= mag m2 e2).
Proof.
  intros H1 H2. apply bounded_inv in H1 as (He1 & Hm1 & Hn1).
  apply bounded_inv in H2 as (He2 & Hm2 & Hn2).
  change (2 ^ 24) with 16777216 in *. change (2 ^ 23) with 8388608 in *.
  cbn [SFcompare]. f_equal. symmetry. unfold mag.
  pose proof (pow2_pos (e1 + 149)). pose proof (pow2_pos (e2 + 149)).
  destruct (Z.compare_spec e1 e2) as [->|Hlt|Hgt].
  - rewrite Pos.compare_cont_spec. cbn [Pos.switch_Eq].
    change (m1 ?= m2)%positive with (Zpos m1 ?= Zpos m2).
    destruct (Z.compare_spec (Zpos m1) (Zpos m2)) as [Heq|Hl|Hg].
    + apply Z.compare_eq_iff. congruence.
    + apply Z.compare_lt_iff. nia.
    + apply Z.compare_gt_iff. nia.
  - apply Z.compare_lt_iff. pose proof (pow2_gap (e1 + 149) (e2 + 149)). nia.
  - apply Z.compare_gt_iff. pose proof (pow2_gap (e2 + 149) (e1 + 149)). nia.
Qed.

(** Shifting right.  A record stands for a quotient [N / c] when it holds
    its integer part and its two sticky bits are clear exactly when the
    division is exact; each shift doubles [c]. *)
Definition shr_inv (N c : Z) (mrs : shr_record) : Prop :=
  shr_m mrs = N / c /\
  (orb (shr_r mrs) (shr_s mrs) = false <-> N mod c = 0).

Lemma shr_inv_start N : shr_inv N 1 (Build_shr_record N false false).
Proof.
  split; cbn [shr_m shr_r shr_s orb].
  - by rewrite Z.div_1_r.
  - by rewrite Z.mod_1_r.
Qed.

Lemma shr_1_inv N c mrs :
  0 <= N -> 0 < c -> shr_inv N c mrs -> shr_inv N (c * 2) (shr_1 mrs).
Proof.
  intros HN Hc [Hm Hrs].
  assert (Hdiv : N / (c * 2) = N / c / 2) by (rewrite Z.div_div; lia).
  assert (Hmod : N mod (c * 2) = N mod c + c * ((N / c) mod 2))
    by (apply Z.rem_mul_r; lia).
  pose proof (Z.mod_pos_bound N c Hc) as Hb.
  assert (Hq : 0 <= N / c) by (apply Z.div_pos; lia).
  destruct mrs as [m r s]. cbn [shr_m shr_r shr_s] in *. subst m.
  unfold shr_inv. rewrite Hdiv, Hmod.
  destruct (N / c) as [|[q|q|]|q] eqn:Eq; cbn [shr_1 shr_m shr_r shr_s orb].
  - split; [done|]. rewrite Hrs. change (0 mod 2) with 0. lia.
  - change (Zpos q~1) with (2 * Zpos q + 1).
    assert (Hd2 : (2 * Zpos q + 1) / 2 = Zpos q) by (Z.div_mod_to_equations; lia).
    assert (Hm2 : (2 * Zpos q + 1) mod 2 = 1) by (Z.div_mod_to_equations; lia).
    rewrite Hd2, Hm2. split; [done|]. split; [done|]. lia.
  - change (Zpos q~0) with (2 * Zpos q).
    assert (Hd2 : (2 * Zpos q) / 2 = Zpos q) by (Z.div_mod_to_equations; lia).
    assert (Hm2 : (2 * Zpos q) mod 2 = 0) by (Z.div_mod_to_equations; lia).
    rewrite Hd2, Hm2. split; [done|]. rewrite Hrs. lia.
  - split; [done|]. split; [done|]. change (1 mod 2) with 1. lia.
  - lia.
Qed.

Lemma iter_shr_inv N p : forall c mrs,
  0 <= N -> 0 < c -> shr_inv N c mrs ->
  shr_inv N (c * 2 ^ Zpos p) (SpecFloat.iter_pos shr_1 p mrs).
Proof.
  induction p as [p IH|p IH|]; intros c mrs HN Hc H; cbn [SpecFloat.iter_pos].
  - replace (c * 2 ^ Zpos p~1) with (c * 2 * 2 ^ Zpos p * 2 ^ Zpos p).
    + pose proof (pow2_pos (Zpos p) ltac:(lia)).
      apply IH; [done|nia|]. apply IH; [done|lia|]. by apply shr_1_inv.
    + replace (Zpos p~1) with (1 + Zpos p + Zpos p) by lia.
      rewrite !Z.pow_add_r by lia. change (2 ^ 1) with 2. ring.
  - replace (c * 2 ^ Zpos p~0) with (c * 2 ^ Zpos p * 2 ^ Zpos p).
    + pose proof (pow2_pos (Zpos p) ltac:(lia)).
      apply IH; [done|nia|]. by apply IH.
    + replace (Zpos p~0) with (Zpos p + Zpos p) by lia.
      rewrite !Z.pow_add_r by lia. ring.
  - change (2 ^ 1) with 2. by apply shr_1_inv.
Qed.

Lemma shr_spec N c mrs e n :
  0 <= N -> 0 < c -> 0 <= n -> shr_inv N c mrs ->
  exists mrs', shr mrs e n = (mrs', e + n) /\ shr_inv N (c * 2 ^ n) mrs'.
Proof.
  intros HN Hc Hn H. destruct n as [|p|p]; [| |lia]; cbn [shr].
  - exists mrs. rewrite Z.add_0_r, Z.pow_0_r, Z.mul_1_r. done.
  - eexists. split; [done|]. by apply iter_shr_inv.
Qed.

Lemma round_nearest_even_bounds mrs :
  let m := round_nearest_even (shr_m mrs) (loc_of_shr_record mrs) in
  shr_m mrs <= m <= shr_m mrs + 1 /\
  (orb (shr_r mrs) (shr_s mrs) = false -> m = shr_m mrs).
Proof.
  destruct mrs as [m [|] [|]]; cbn; destruct (Z.even m); split; (lia || done).
Qed.

(** No shift is needed: the result is the input. *)
Lemma round_aux_exact mz ez :
  fexp 24 128 (Zpos (digits2_pos mz) + ez) = ez ->
  binary_round_aux 24 128 false (Zpos mz) ez loc_Exact
  = if ez <=? 104 then S754_finite false mz ez else S754_infinity false.
Proof.
  intros H. unfold binary_round_aux, shr_fexp. cbn [Zdigits2 shr_record_of_loc].
  rewrite H, Z.sub_diag. cbn [shr shr_m loc_of_shr_record round_nearest_even].
  cbn [Zdigits2]. rewrite H, Z.sub_diag. done.
Qed.

Lemma fexp_normal k : -149 <= k - 24 -> fexp 24 128 k = k - 24.
Proof. unfold fexp, emin. lia. Qed.

(** Rounding a value [N / c * 2^e] whose integer part has at least 24
    digits: the result has 24 digits, and it lies on the same side as the
    value of every multiple [K] of the unit in the last place. *)
Lemma round_aux_general q0 e lz N c :
  -149 <= e -> 24 <= Zpos (digits2_pos q0) -> 0 <= N -> 0 < c ->
  shr_inv N c (shr_record_of_loc (Zpos q0) lz) ->
  let n := Zpos (digits2_pos q0) - 24 in
  exists q e',
    binary_round_aux 24 128 false (Zpos q0) e lz
    = (if e' <=? 104 then S754_finite false q e' else S754_infinity false) /\
    Zpos (digits2_pos q) = 24 /\
    e + n <= e' /\
    (forall K, N <= K * (c * 2 ^ n) -> Zpos q * 2 ^ (e' - (e + n)) <= K) /\
    (forall K, K * (c * 2 ^ n) <= N -> K <= Zpos q * 2 ^ (e' - (e + n))).
Proof.
  intros He Hd HN Hc Hinv n.
  pose proof (digits2_pos_bounds q0) as [Hlo Hhi].
  set (d := Zpos (digits2_pos q0)) in *.
  assert (Hn : 0 <= n) by (unfold n; lia).
  assert (Hf : fexp 24 128 (d + e) - e = n) by (unfold fexp, emin, n; lia).
  unfold binary_round_aux, shr_fexp. cbn [Zdigits2]. fold d. rewrite Hf.
  destruct (shr_spec N c _ e n HN Hc Hn Hinv) as (mrs & -> & Hm & Hrs).
  pose proof (round_nearest_even_bounds mrs) as [Hb Hex].
  set (m2 := round_nearest_even (shr_m mrs) (loc_of_shr_record mrs)) in *.
  pose proof (pow2_pos n Hn) as Hpp.
  assert (Hq0 : Zpos q0 = N / c) by (destruct Hinv as [<- _]; by destruct lz as [|[]]).
  assert (Hm' : shr_m mrs = Zpos q0 / 2 ^ n) by (rewrite Hm, Hq0, Z.div_div; lia).
  assert (H23 : 2 ^ (d - 1) = 8388608 * 2 ^ n).
  { replace (d - 1) with (23 + n) by (unfold n; lia). by rewrite Z.pow_add_r by lia. }
  assert (H24 : 2 ^ d = 16777216 * 2 ^ n).
  { replace d with (24 + n) by (unfold n; lia). by rewrite Z.pow_add_r by lia. }
  assert (Hm1 : 8388608 <= shr_m mrs < 16777216).
  { rewrite Hm'. split.
    - apply Z.div_le_lower_bound; lia.
    - apply Z.div_lt_upper_bound; lia. }
  assert (Hcn : 0 < c * 2 ^ n) by nia.
  assert (HKup : forall K, N <= K * (c * 2 ^ n) -> m2 <= K).
  { intros K HK.
    assert (shr_m mrs <= K) by (rewrite Hm; apply Z.div_le_upper_bound; lia).
    destruct (Z.eq_dec (shr_m mrs) K) as [Heq|Hne]; [|lia].
    rewrite Hex; [lia|]. apply Hrs.
    pose proof (Z.div_mod N (c * 2 ^ n) ltac:(lia)) as Hdm.
    pose proof (Z.mod_pos_bound N (c * 2 ^ n) Hcn).
    rewrite <- Hm, Heq in Hdm. lia. }
  assert (HKlo : forall K, K * (c * 2 ^ n) <= N -> K <= m2).
  { intros K HK.
    assert (K <= shr_m mrs) by (rewrite Hm; apply Z.div_le_lower_bound; lia).
    lia. }
  destruct m2 as [|q|q] eqn:Em2; [lia| |lia].
  destruct (Z.eq_dec (Zpos q) 16777216) as [Heq|Hne].
  - injection Heq as ->. exists 8388608%positive, (e + n + 1).
    cbn [Zdigits2]. change (Zpos (digits2_pos 16777216)) with 25.
    rewrite fexp_normal by lia.
    replace (25 + (e + n) - 24 - (e + n)) with 1 by lia.
    cbn [shr shr_record_of_loc SpecFloat.iter_pos shr_1 shr_m].
    replace (e + n + 1 - (e + n)) with 1 by lia.
    split; [done|]. split; [done|]. split; [lia|]. split.
    + intros K HKm. specialize (HKup K HKm). lia.
    + intros K HKm. specialize (HKlo K HKm). lia.
  - exists q, (e + n).
    assert (Hdq : Zpos (digits2_pos q) = 24) by (apply digits_unique; lia).
    cbn [Zdigits2]. rewrite Hdq, fexp_normal by lia.
    replace (24 + (e + n) - 24 - (e + n)) with 0 by lia.
    cbn [shr shr_record_of_loc shr_m].
    split; [done|]. split; [done|]. split; [lia|]. rewrite Z.sub_diag. split.
    + intros K HKm. specialize (HKup K HKm). lia.
    + intros K HKm. specialize (HKlo K HKm). lia.
Qed.

Lemma iter_xO m p : Zpos (Pos.iter xO m p) = Zpos m * 2 ^ Zpos p.
Proof.
  induction p as [|p IH] using Pos.peano_ind.
  - cbn. lia.
  - rewrite Pos.iter_succ, Pos2Z.inj_succ, Z.pow_succ_r by lia.
    change (Zpos (Pos.iter xO m p)~0) with (2 * Zpos (Pos.iter xO m p)). lia.
Qed.

Lemma shl_align_mag m e e' :
  -149 <= e' -> e' <= e -> mag (fst (shl_align m e e')) e' = mag m e.
Proof.
  intros H1 H2. unfold shl_align, mag.
  destruct (e' - e) as [|p|p] eqn:Hd; cbn [fst].
  - by replace e' with e by lia.
  - lia.
  - rewrite iter_xO. replace (e + 149) with (Zpos p + (e' + 149)) by lia.
    rewrite (Z.pow_add_r 2 (Zpos p) (e' + 149)) by lia. ring.
Qed.

Lemma shl_align_digits m e e' :
  e' <= e ->
  Zpos (digits2_pos (fst (shl_align m e e'))) + e' = Zpos (digits2_pos m) + e.
Proof.
  intros H. unfold shl_align.
  destruct (e' - e) as [|p|p] eqn:Hd; cbn [fst]; [lia|lia|].
  pose proof (digits2_pos_bounds m) as [Hlo Hhi].
  rewrite (digits_unique _ (Zpos (digits2_pos m) + Zpos p)); [lia|lia|].
  rewrite iter_xO.
  replace (Zpos (digits2_pos m) + Zpos p - 1)
    with (Zpos (digits2_pos m) - 1 + Zpos p) by lia.
  rewrite !Z.pow_add_r by lia. pose proof (pow2_pos (Zpos p)). nia.
Qed.

Lemma shl_align_snd m e e' : e' <= e -> snd (shl_align m e e') = e'.
Proof.
  intros H. unfold shl_align. destruct (e' - e) as [|p|p] eqn:Hd; cbn [snd]; lia.
Qed.

Lemma exp_le_of_mag_le q e' M E :
  8388608 <= Zpos q -> -149 <= e' -> -149 <= E -> Zpos M < 16777216 ->
  mag q e' <= mag M E -> e' <= E.
Proof.
  unfold mag. intros Hq He' HE HM Hle.
  destruct (Z_le_gt_dec e' E) as [|Hgt]; [done|exfalso].
  pose proof (pow2_gap (E + 149) (e' + 149) ltac:(lia) ltac:(lia)).
  pose proof (pow2_pos (E + 149) ltac:(lia)). nia.
Qed.

(** Rounding a positive value [mx * 2^ex] that does not exceed the
    binary32 number [M * 2^E]: the result is a canonical finite number
    that does not exceed it either, and it is not below any binary32
    number that the value is not below. *)
Lemma binary_round_spec mx ex M E :
  -149 <= ex ->
  bounded 24 128 M E = true ->
  mag mx ex <= mag M E ->
  exists q e',
    binary_round 24 128 false mx ex = S754_finite false q e' /\
    bounded 24 128 q e' = true /\
    mag q e' <= mag M E /\
    forall M' E', bounded 24 128 M' E' = true ->
                  mag M' E' <= mag mx ex -> mag M' E' <= mag q e'.
Proof.
  intros Hex HME Hle. apply bounded_inv in HME as (HE & HM & HMn).
  change (2 ^ 24) with 16777216 in *. change (2 ^ 23) with 8388608 in *.
  pose proof (digits2_pos_bounds mx) as [Hlo Hhi].
  unfold binary_round.
  set (d := Zpos (digits2_pos mx)) in *. assert (0 < d) by (unfold d; lia).
  set (fe := fexp 24 128 (d + ex)).
  assert (Hfe : -149 <= fe) by (unfold fe, fexp, emin; lia).
  destruct (Z_le_gt_dec fe ex) as [Hsh|Hsh].
  - (* nothing is shifted out *)
    pose proof (shl_align_mag mx ex fe Hfe Hsh) as Hmag.
    pose proof (shl_align_digits mx ex fe Hsh) as Hdig.
    pose proof (shl_align_snd mx ex fe Hsh) as Hsnd.
    destruct (shl_align mx ex fe) as [mz ez]. cbn [fst snd] in *. subst ez.
    fold d in Hdig. pose proof (digits2_pos_bounds mz) as [Hloz Hhiz].
    assert (Hcan : fexp 24 128 (Zpos (digits2_pos mz) + fe) = fe) by (by rewrite Hdig).
    rewrite (round_aux_exact mz fe Hcan).
    assert (Hdz : Zpos (digits2_pos mz) = 24
                  \/ (fe = -149 /\ Zpos (digits2_pos mz) <= 24)).
    { unfold fexp, emin in Hcan. lia. }
    assert (Hfe' : fe <= 104).
    { destruct Hdz as [Hdz|[-> _]]; [|lia]. rewrite Hdz in Hloz.
      change (2 ^ (24 - 1)) with 8388608 in Hloz.
      pose proof (exp_le_of_mag_le mz fe M E). lia. }
    exists mz, fe. rewrite (proj2 (Z.leb_le fe 104) Hfe').
    split; [done|]. split; [by apply bounded_intro|]. split; [lia|].
    intros M' E' _ HM'. lia.
  - (* low bits are shifted out and the quotient is rounded *)
    assert (Hsa : shl_align mx ex fe = (mx, ex)).
    { unfold shl_align. destruct (fe - ex) eqn:Hd; try done. lia. }
    rewrite Hsa.
    assert (Hfeq : fe = d + ex - 24) by (unfold fe, fexp, emin in *; lia).
    destruct (round_aux_general mx ex loc_Exact (Zpos mx) 1 Hex ltac:(fold d; lia)
                ltac:(lia) ltac:(lia) (shr_inv_start (Zpos mx)))
      as (q & e' & -> & Hdq & He' & HKup & HKlo).
    fold d in He', HKup, HKlo. replace (ex + (d - 24)) with fe in * by lia.
    set (n := d - 24) in *. assert (Hn : 0 < n) by (unfold n; lia).
    pose proof (digits2_pos_bounds q) as [Hloq Hhiq]. rewrite Hdq in Hloq, Hhiq.
    change (2 ^ (24 - 1)) with 8388608 in Hloq. change (2 ^ 24) with 16777216 in Hhiq.
    pose proof (pow2_pos (fe + 149) ltac:(lia)) as Hpfe.
    pose proof (pow2_pos (ex + 149) ltac:(lia)) as Hpex.
    assert (Hsplit : 2 ^ (fe + 149) = 2 ^ n * 2 ^ (ex + 149)).
    { rewrite <- Z.pow_add_r by lia. f_equal. lia. }
    assert (HEfe : fe <= E).
    { destruct (Z_le_gt_dec fe E) as [|Hgt]; [done|exfalso].
      unfold mag in Hle.
      assert (2 ^ (d - 1) * 2 ^ (ex + 149) = 2 ^ (fe + 149 + 23)) as Hpw.
      { rewrite <- Z.pow_add_r by lia. f_equal. lia. }
      pose proof (pow2_le (E + 149 + 24) (fe + 149 + 23) ltac:(lia) ltac:(lia)) as Hg.
      rewrite (Z.pow_add_r 2 (E + 149) 24) in Hg by lia.
      change (2 ^ 24) with 16777216 in Hg.
      pose proof (pow2_pos (E + 149) ltac:(lia)). nia. }
    assert (Hqe : mag q e' = Zpos q * 2 ^ (e' - fe) * 2 ^ (fe + 149)).
    { unfold mag. replace (e' + 149) with (e' - fe + (fe + 149)) by lia.
      rewrite (Z.pow_add_r 2 (e' - fe) (fe + 149)) by lia. ring. }
    assert (Hmx : Zpos mx <= Zpos M * 2 ^ (E - fe) * (1 * 2 ^ n)).
    { unfold mag in Hle.
      replace (E + 149) with (E - fe + (fe + 149)) in Hle by lia.
      rewrite (Z.pow_add_r 2 (E - fe) (fe + 149)), Hsplit in Hle by lia.
      apply (Z.mul_le_mono_pos_r _ _ (2 ^ (ex + 149))); [done|]. lia. }
    pose proof (HKup _ Hmx) as HK.
    assert (Hmag : mag q e' <= mag M E).
    { rewrite Hqe. unfold mag.
      replace (E + 149) with (E - fe + (fe + 149)) by lia.
      rewrite (Z.pow_add_r 2 (E - fe) (fe + 149)) by lia. nia. }
    pose proof (exp_le_of_mag_le q e' M E).
    exists q, e'. rewrite (proj2 (Z.leb_le e' 104)) by lia.
    split; [done|]. split; [apply bounded_intro; [lia|by left]|]. split; [done|].
    intros M' E' HME' Hle'. apply bounded_inv in HME' as (HE' & HM' & _).
    change (2 ^ 24) with 16777216 in HM'.
    pose proof (pow2_pos (e' - fe) ltac:(lia)) as Hpe.
    destruct (Z_le_gt_dec fe E') as [Hge|Hlt].
    + assert (HK' : Zpos M' * 2 ^ (E' - fe) * (1 * 2 ^ n) <= Zpos mx).
      { unfold mag in Hle'.
        replace (E' + 149) with (E' - fe + (fe + 149)) in Hle' by lia.
        rewrite (Z.pow_add_r 2 (E' - fe) (fe + 149)), Hsplit in Hle' by lia.
        apply (Z.mul_le_mono_pos_r _ _ (2 ^ (ex + 149))); [done|]. lia. }
      specialize (HKlo _ HK'). rewrite Hqe. unfold mag.
      replace (E' + 149) with (E' - fe + (fe + 149)) by lia.
      rewrite (Z.pow_add_r 2 (E' - fe) (fe + 149)) by lia. nia.
    + rewrite Hqe. unfold mag.
      pose proof (pow2_gap (E' + 149) (fe + 149) ltac:(lia) ltac:(lia)).
      pose proof (pow2_pos (E' + 149) ltac:(lia)). nia.
Qed.

Lemma binary_round_bounded mx ex M E :
  -149 <= ex ->
  bounded 24 128 M E = true ->
  mag mx ex <= mag M E ->
  exists q e',
    binary_round 24 128 false mx ex = S754_finite false q e' /\
    bounded 24 128 q e' = true /\
    mag q e' <= mag M E.
Proof.
  intros H1 H2 H3.
  destruct (binary_round_spec mx ex M E H1 H2 H3) as (q & e' & ? & ? & ? & _).
  by exists q, e'.
Qed.

(** Numbers that are zero or positive and finite, and their magnitude in
    units of [2^-149]. *)
Definition nonneg (f : spec_float) : bool :=
  match f with
  | S754_zero _ | S754_finite false _ _ => true
  | _ => false
  end.

Definition magf (f : spec_float) : Z :=
  match f with
  | S754_finite _ m e => mag m e
  | _ => 0
  end.

Lemma compare_nonneg a b :
  valid_binary 24 128 a = true -> valid_binary 24 128 b = true ->
  nonneg a = true -> nonneg b = true ->
  SFcompare a b = Some (magf a ?= magf b).
Proof.
  intros Ha Hb Hna Hnb.
  destruct a as [sa|sa| |[|] ma ea], b as [sb|sb| |[|] mb eb]; try done;
    cbn [valid_binary magf] in *.
  - apply bounded_inv in Hb as (He & _). pose proof (mag_pos mb eb ltac:(lia)).
    cbn [SFcompare]. f_equal. symmetry. apply Z.compare_lt_iff. lia.
  - apply bounded_inv in Ha as (He & _). pose proof (mag_pos ma ea ltac:(lia)).
    cbn [SFcompare]. f_equal. symmetry. apply Z.compare_gt_iff. lia.
  - by apply compare_finite.
Qed.

Lemma leb_nonneg a b :
  valid_binary 24 128 a = true -> valid_binary 24 128 b = true ->
  nonneg a = true -> nonneg b = true ->
  SFleb a b = (magf a <=? magf b).
Proof.
  intros. unfold SFleb, Z.leb. rewrite compare_nonneg by done.
  by destruct (magf a ?= magf b).
Qed.

Lemma ltb_nonneg a b :
  valid_binary 24 128 a = true -> valid_binary 24 128 b = true ->
  nonneg a = true -> nonneg b = true ->
  SFltb a b = (magf a <? magf b).
Proof.
  intros. unfold SFltb, Z.ltb. rewrite compare_nonneg by done.
  by destruct (magf a ?= magf b).
Qed.

(** The sum of two such numbers, when it does not exceed the binary32
    number [M * 2^E], is such a number and does not exceed it; and it is
    not below any binary32 number that the exact sum is not below. *)
Lemma add_spec a b M E :
  valid_binary 24 128 a = true -> valid_binary 24 128 b = true ->
  nonneg a = true -> nonneg b = true ->
  bounded 24 128 M E = true ->
  magf a + magf b <= mag M E ->
  valid_binary 24 128 (SFadd 24 128 a b) = true /\
  nonneg (SFadd 24 128 a b) = true /\
  magf (SFadd 24 128 a b) <= mag M E /\
  forall M' E', bounded 24 128 M' E' = true ->
                mag M' E' <= magf a + magf b ->
                mag M' E' <= magf (SFadd 24 128 a b).
Proof.
  intros Ha Hb Hna Hnb HME Hle.
  pose proof (bounded_inv M E HME) as (HE & _).
  pose proof (mag_pos M E ltac:(lia)) as HMpos.
  assert (Hpos : forall M' E', bounded 24 128 M' E' = true -> 0 < mag M' E').
  { intros M' E' H'. apply bounded_inv in H' as (? & _). apply mag_pos. lia. }
  destruct a as [sa|sa| |[|] ma ea], b as [sb|sb| |[|] mb eb]; try done;
    cbn [valid_binary magf] in *.
  1: destruct sa, sb.
  all: try (cbn [SFadd]; split; [done|]; split; [done|]; cbn [magf];
            split; [lia|]; intros M' E' H' ?; specialize (Hpos M' E' H'); lia).
  pose proof (bounded_inv ma ea Ha) as (Hea & _).
  pose proof (bounded_inv mb eb Hb) as (Heb & _).
  cbn [SFadd cond_Zopp]. set (ez := Z.min ea eb).
  pose proof (shl_align_mag ma ea ez ltac:(lia) ltac:(lia)) as Hma.
  pose proof (shl_align_mag mb eb ez ltac:(lia) ltac:(lia)) as Hmb.
  set (xa := fst (shl_align ma ea ez)) in *.
  set (xb := fst (shl_align mb eb ez)) in *.
  change (Zpos xa + Zpos xb) with (Zpos (xa + xb)). cbn [binary_normalize].
  assert (Hsum : mag (xa + xb) ez = mag ma ea + mag mb eb).
  { unfold mag in *. rewrite Pos2Z.inj_add. lia. }
  destruct (binary_round_spec (xa + xb) ez M E ltac:(lia) HME ltac:(lia))
    as (q & e' & -> & Hq & Hmag & Hlow).
  split; [done|]. split; [done|]. split; [done|].
  intros M' E' H' Hle'. cbn [magf]. apply Hlow; [done|lia].
Qed.

Lemma add_bounded a b M E :
  valid_binary 24 128 a = true -> valid_binary 24 128 b = true ->
  nonneg a = true -> nonneg b = true ->
  bounded 24 128 M E = true ->
  magf a + magf b <= mag M E ->
  valid_binary 24 128 (SFadd 24 128 a b) = true /\
  nonneg (SFadd 24 128 a b) = true /\
  magf (SFadd 24 128 a b) <= mag M E.
Proof.
  intros H1 H2 H3 H4 H5 H6.
  destruct (add_spec a b M E H1 H2 H3 H4 H5 H6) as (? & ? & ? & _). done.
Qed.

(** The same for the difference of two such numbers, the larger first. *)
Lemma sub_bounded a b M E :
  valid_binary 24 128 a = true -> valid_binary 24 128 b = true ->
  nonneg a = true -> nonneg b = true ->
  bounded 24 128 M E = true ->
  magf b <= magf a ->
  magf a - magf b <= mag M E ->
  valid_binary 24 128 (SFsub 24 128 a b) = true /\
  nonneg (SFsub 24 128 a b) = true /\
  magf (SFsub 24 128 a b) <= mag M E.
Proof.
  intros Ha Hb Hna Hnb HME Hba Hle.
  pose proof (bounded_inv M E HME) as (HE & _).
  pose proof (mag_pos M E ltac:(lia)) as HMpos.
  destruct a as [sa|sa| |[|] ma ea], b as [sb|sb| |[|] mb eb]; try done;
    cbn [valid_binary magf] in *.
  1: destruct sa, sb.
  all: try (cbn [SFsub]; split; [done|]; split; [done|]; cbn [magf]; lia).
  - pose proof (bounded_inv mb eb Hb) as (Heb & _).
    pose proof (mag_pos mb eb ltac:(lia)). lia.
  - pose proof (bounded_inv ma ea Ha) as (Hea & _).
    pose proof (bounded_inv mb eb Hb) as (Heb & _).
    cbn [SFsub cond_Zopp]. set (ez := Z.min ea eb).
    pose proof (shl_align_mag ma ea ez ltac:(lia) ltac:(lia)) as Hma.
    pose proof (shl_align_mag mb eb ez ltac:(lia) ltac:(lia)) as Hmb.
    set (xa := fst (shl_align ma ea ez)) in *.
    set (xb := fst (shl_align mb eb ez)) in *.
    pose proof (pow2_pos (ez + 149) ltac:(lia)) as Hpz.
    unfold mag in Hma, Hmb, Hba, Hle.
    destruct (Zpos xa - Zpos xb) as [|dd|dd] eqn:Hd; cbn [binary_normalize].
    + cbn. lia.
    + destruct (binary_round_bounded dd ez M E ltac:(lia) HME)
        as (q & e' & -> & Hq & Hmag); [|done].
      unfold mag. rewrite <- Hd. nia.
    + exfalso. assert (Zpos xa < Zpos xb) by lia. nia.
Qed.

(** The location of a remainder is exact exactly when it is zero. *)
Lemma new_location_inv N c :
  0 <= N -> 0 < c ->
  shr_inv N c (shr_record_of_loc (N / c) (new_location c (N mod c))).
Proof.
  intros HN Hc. unfold new_location.
  destruct (Z.even c); unfold new_location_even, new_location_odd;
    (destruct (Z.eq_dec (N mod c) 0) as [H0|H0];
     [rewrite H0; split; cbn; done
     |rewrite (proj2 (Z.eqb_neq _ _) H0)]).
  - destruct (2 * (N mod c) ?= c); split; cbn; try done; split; done.
  - destruct (2 * (N mod c) + 1 ?= c); split; cbn; try done; split; done.
Qed.

(** The quotient of two normal positive numbers, when it does not exceed
    the binary32 number [M * 2^E], is a canonical finite number that does
    not exceed it either. *)
Lemma div_bounded mx ex my ey M E :
  bounded 24 128 mx ex = true -> bounded 24 128 my ey = true ->
  8388608 <= Zpos mx -> 8388608 <= Zpos my ->
  -149 <= ex - ey - 24 ->
  bounded 24 128 M E = true ->
  mag mx ex * 2 ^ 149 <= mag M E * mag my ey ->
  exists q e',
    SFdiv 24 128 (S754_finite false mx ex) (S754_finite false my ey)
    = S754_finite false q e' /\
    bounded 24 128 q e' = true /\
    mag q e' <= mag M E.
Proof.
  intros Hx Hy Hnx Hny Hee HME Hle.
  apply bounded_inv in Hx as (Hex & Hmx & _). apply bounded_inv in Hy as (Hey & Hmy & _).
  apply bounded_inv in HME as (HE & HM & _).
  change (2 ^ 24) with 16777216 in *.
  assert (Hdx : Zpos (digits2_pos mx) = 24) by (apply digits_unique; lia).
  assert (Hdy : Zpos (digits2_pos my) = 24) by (apply digits_unique; lia).
  cbn [SFdiv xorb]. unfold SFdiv_core_binary. cbn [Zdigits2].
  rewrite Hdx, Hdy.
  replace (24 + ex - (24 + ey)) with (ex - ey) by lia.
  rewrite fexp_normal by lia.
  replace (Z.min (ex - ey - 24) (ex - ey)) with (ex - ey - 24) by lia.
  replace (ex - ey - (ex - ey - 24)) with 24 by lia.
  set (e' := ex - ey - 24).
  rewrite Z.shiftl_mul_pow2 by lia. change (2 ^ 24) with 16777216.
  set (N := Zpos mx * 16777216).
  destruct (Z.div_eucl N (Zpos my)) as [z z0] eqn:Hde.
  assert (Hz : z = N / Zpos my) by (unfold Z.div; by rewrite Hde).
  assert (Hz0 : z0 = N mod Zpos my) by (unfold Z.modulo; by rewrite Hde).
  subst z z0. clear Hde.
  assert (HN : 0 <= N) by (unfold N; lia).
  assert (Hq23 : 8388608 <= N / Zpos my).
  { apply Z.div_le_lower_bound; unfold N; lia. }
  pose proof (new_location_inv N (Zpos my) HN ltac:(lia)) as Hinv.
  destruct (N / Zpos my) as [|q0|q0] eqn:Hq0; [lia| |lia].
  pose proof (digits2_pos_bounds q0) as [Hlo0 Hhi0].
  assert (Hd0 : 24 <= Zpos (digits2_pos q0)).
  { destruct (Z_le_gt_dec 24 (Zpos (digits2_pos q0))) as [|Hlt]; [done|exfalso].
    pose proof (pow2_le (Zpos (digits2_pos q0)) 23 ltac:(lia) ltac:(lia)).
    change (2 ^ 23) with 8388608 in *. lia. }
  destruct (round_aux_general q0 e' _ N (Zpos my) Hee Hd0 HN ltac:(lia) Hinv)
    as (q & e'' & -> & Hdq & He'' & HKup & _).
  set (n := Zpos (digits2_pos q0) - 24) in *. assert (Hn : 0 <= n) by (unfold n; lia).
  pose proof (pow2_pos n Hn) as Hpn.
  pose proof (digits2_pos_bounds q) as [Hloq Hhiq]. rewrite Hdq in Hloq, Hhiq.
  change (2 ^ (24 - 1)) with 8388608 in Hloq. change (2 ^ 24) with 16777216 in Hhiq.
  (* the integer part of the quotient, shifted, has 24 digits *)
  assert (HNlo : 8388608 * 2 ^ n * Zpos my <= N).
  { replace (Zpos (digits2_pos q0) - 1) with (23 + n) in Hlo0 by (unfold n; lia).
    rewrite Z.pow_add_r in Hlo0 by lia. change (2 ^ 23) with 8388608 in Hlo0.
    pose proof (Z.mul_div_le N (Zpos my) ltac:(lia)) as Hmd. rewrite Hq0 in Hmd. nia. }
  (* both sides of the hypothesis in the unit 2^(ex + 274) *)
  set (X := ex + 274). pose proof (pow2_pos X ltac:(unfold X; lia)) as HpX.
  assert (HL : mag mx ex * 2 ^ 149 = N * 2 ^ X).
  { unfold mag, N. change 16777216 with (2 ^ 24).
    rewrite <- !Z.mul_assoc, <- !Z.pow_add_r by (unfold X; lia).
    do 2 f_equal. unfold X. lia. }
  assert (HR : mag M E * mag my ey = Zpos M * Zpos my * 2 ^ (E + ey + 298)).
  { unfold mag. replace (E + ey + 298) with (E + 149 + (ey + 149)) by lia.
    rewrite (Z.pow_add_r 2 (E + 149) (ey + 149)) by lia. ring. }
  rewrite HL, HR in Hle.
  assert (HEe : e' + n <= E).
  { destruct (Z_le_gt_dec (e' + n) E) as [|Hgt]; [done|exfalso].
    pose proof (pow2_le (E + ey + 298 + 24) (23 + (n + X)) ltac:(lia)
                  ltac:(unfold X, e' in *; lia)) as Hg.
    rewrite (Z.pow_add_r 2 (E + ey + 298) 24), (Z.pow_add_r 2 23 (n + X)),
      (Z.pow_add_r 2 n X) in Hg by (unfold X; lia).
    change (2 ^ 24) with 16777216 in Hg. change (2 ^ 23) with 8388608 in Hg.
    pose proof (pow2_pos (E + ey + 298) ltac:(lia)) as HpA.
    set (A := 2 ^ (E + ey + 298)) in *. set (a := 2 ^ n) in *. set (b := 2 ^ X) in *.
    assert (H1 : 8388608 * a * Zpos my * b <= N * b)
      by (apply Z.mul_le_mono_nonneg_r; lia).
    assert (H2 : Zpos M * (Zpos my * A) < 16777216 * (Zpos my * A))
      by (apply Z.mul_lt_mono_pos_r; [apply Z.mul_pos_pos; lia|lia]).
    assert (H3 : A * 16777216 * Zpos my <= 8388608 * (a * b) * Zpos my)
      by (apply Z.mul_le_mono_nonneg_r; lia).
    lia. }
  assert (HK : N <= Zpos M * 2 ^ (E - (e' + n)) * (Zpos my * 2 ^ n)).
  { apply (Z.mul_le_mono_pos_r _ _ (2 ^ X)); [done|].
    replace (E + ey + 298) with (E - (e' + n) + n + X) in Hle by (unfold X, e'; lia).
    rewrite (Z.pow_add_r 2 (E - (e' + n) + n) X),
      (Z.pow_add_r 2 (E - (e' + n)) n) in Hle by (unfold X; lia).
    lia. }
  specialize (HKup _ HK).
  assert (Hmag : mag q e'' <= mag M E).
  { unfold mag.
    replace (e'' + 149) with (e'' - (e' + n) + (e' + n + 149)) by lia.
    replace (E + 149) with (E - (e' + n) + (e' + n + 149)) by lia.
    rewrite (Z.pow_add_r 2 (e'' - (e' + n)) (e' + n + 149)) by lia.
    rewrite (Z.pow_add_r 2 (E - (e' + n)) (e' + n + 149)) by lia.
    pose proof (pow2_pos (e' + n + 149) ltac:(lia)).
    rewrite !Z.mul_assoc. apply Z.mul_le_mono_nonneg_r; [lia|exact HKup]. }
  pose proof (exp_le_of_mag_le q e'' M E).
  exists q, e''. rewrite (proj2 (Z.leb_le e'' 104)) by lia.
  split; [done|]. split; [|done]. apply bounded_intro; [lia|by left].
Qed.

(** An integer from 1 up to a bound that binary32 holds exactly converts
    to a normal number of at least 1 and at most the bound. *)
Lemma of_Z_bounded (p : positive) M E :
  bounded 24 128 M E = true ->
  Zpos p * 2 ^ 149 <= mag M E ->
  exists q e,
    binary_normalize 24 128 (Zpos p) 0 false = S754_finite false q e /\
    bounded 24 128 q e = true /\
    mag q e <= mag M E /\
    8388608 <= Zpos q /\ -23 <= e.
Proof.
  intros HME Hle. cbn [binary_normalize].
  destruct (binary_round_spec p 0 M E ltac:(lia) HME Hle)
    as (q & e & -> & Hq & Hmag & Hlow).
  specialize (Hlow 8388608%positive (-23) eq_refl).
  unfold mag at 1 2 in Hlow. change (-23 + 149) with 126 in Hlow.
  change (0 + 149) with 149 in Hlow.
  change (2 ^ 149) with (8388608 * 2 ^ 126) in Hlow.
  pose proof (pow2_pos 126 ltac:(lia)) as Hp.
  assert (H1 : Z.pos 8388608 * 2 ^ 126 <= mag q e) by (apply Hlow; nia).
  pose proof (bounded_inv q e Hq) as (He & Hq24 & Hn).
  change (2 ^ 24) with 16777216 in *. change (2 ^ 23) with 8388608 in *.
  assert (He23 : -23 <= e).
  { destruct (Z_le_gt_dec (-23) e) as [|Hlt]; [done|exfalso].
    unfold mag in H1.
    pose proof (pow2_gap (e + 149) 126 ltac:(lia) ltac:(lia)).
    pose proof (pow2_pos (e + 149) ltac:(lia)). nia. }
  exists q, e. split; [done|]. split; [done|]. split; [done|].
  split; [|done]. destruct Hn as [->|]; [lia|done].
Qed.
End Binary32_bounds.

(** ** The data model *)

(** [struct Color]. *)
Record Color := mkColor { r : spec_float; g : spec_float; b : spec_float }.

(** The data members of the abstract base class [Drawable]. *)
Record Drawable := mkDrawable { x : spec_float; y : spec_float; visible : bool }.

(** [class Cloud : public Drawable]. *)
Record Cloud := mkCloud {
  cloud_base : Drawable;
  speed : spec_float;
  size : spec_float }.

(** [class CelestialBody : public Drawable]. *)
Record CelestialBody := mkCelestialBody {
  celestial_base : Drawable;
  radius : spec_float;
  angle : spec_float;
  color : Color }.

(** [class Windmill : public Drawable]. *)
Record Windmill := mkWindmill {
  windmill_base : Drawable;
  bladeAngle : spec_float;
  rotationSpeed : spec_float;
  isRotating : bool;
  towerWidth : spec_float;
  towerHeight : spec_float;
  bladeLength : spec_float;
  numBlades : Z;
  id : Z }.

(** What a [Drawable*] can point to: the dynamic type of the object. *)
Inductive Entity :=
| ECloud (c : Cloud)
| ECelestialBody (cb : CelestialBody)
| EWindmill (w : Windmill).

(** *** The draw surface and the console *)

Inductive GLmode := GL_POLYGON | GL_LINES | GL_LINE_LOOP.

Inductive GLfont :=
  GLUT_BITMAP_HELVETICA_18 | GLUT_BITMAP_HELVETICA_12 | GLUT_BITMAP_8_BY_13.

(** The calls issued to OpenGL and GLUT, recorded in order. *)
Inductive GLcmd :=
| GlBegin (mode : GLmode)
| GlEnd
| GlVertex2f (vx vy : spec_float)
| GlColor3f (cr cg cb : spec_float)
| GlLineWidth (width : spec_float)
| GlPushMatrix
| GlPopMatrix
| GlTranslatef (tx ty tz : spec_float)
| GlRotatef (a ax ay az : spec_float)
| GlClearColor (cr cg cb ca : spec_float)
| GlClearColorBuffer
| GlRasterPos2f (px py : spec_float)
| GlutBitmapCharacter (font : GLfont) (c : ascii)
| GlutSwapBuffers
| GlutPostRedisplay
| GlutTimerFunc (msecs value : Z).

(** What is sent to [cout] with [<<]. *)
Inductive OutItem :=
| OStr (s : string)
| OInt (n : Z)
| OFloat (v : spec_float)
| OEndl.

(** *** Process-wide state

    The mode flags, the static members of [Windmill], the position in the
    sequence of [rand()] results, and the two output channels. *)
Record Env := mkEnv {
  isDay : bool;
  isPaused : bool;
  animateCelestial : bool;
  windmillCount : Z;
  selectedWindmill : Z;
  rand_calls : nat;
  gl : list GLcmd;
  cout : list OutItem }.

Definition set_isDay (v : bool) (e : Env) : Env :=
  mkEnv v (isPaused e) (animateCelestial e) (windmillCount e)
        (selectedWindmill e) (rand_calls e) (gl e) (cout e).
Definition set_isPaused (v : bool) (e : Env) : Env :=
  mkEnv (isDay e) v (animateCelestial e) (windmillCount e)
        (selectedWindmill e) (rand_calls e) (gl e) (cout e).
Definition set_animateCelestial (v : bool) (e : Env) : Env :=
  mkEnv (isDay e) (isPaused e) v (windmillCount e)
        (selectedWindmill e) (rand_calls e) (gl e) (cout e).
Definition set_windmillCount (v : Z) (e : Env) : Env :=
  mkEnv (isDay e) (isPaused e) (animateCelestial e) v
        (selectedWindmill e) (rand_calls e) (gl e) (cout e).
Definition set_selectedWindmill (v : Z) (e : Env) : Env :=
  mkEnv (isDay e) (isPaused e) (animateCelestial e) (windmillCount e)
        v (rand_calls e) (gl e) (cout e).
Definition set_rand_calls (v : nat) (e : Env) : Env :=
  mkEnv (isDay e) (isPaused e) (animateCelestial e) (windmillCount e)
        (selectedWindmill e) v (gl e) (cout e).
Definition set_gl (v : list GLcmd) (e : Env) : Env :=
  mkEnv (isDay e) (isPaused e) (animateCelestial e) (windmillCount e)
        (selectedWindmill e) (rand_calls e) v (cout e).
Definition set_cout (v : list OutItem) (e : Env) : Env :=
  mkEnv (isDay e) (isPaused e) (animateCelestial e) (windmillCount e)
        (selectedWindmill e) (rand_calls e) (gl e) v.

(** The initial values of the globals and static members. *)
Definition initial_env : Env :=
  mkEnv true false true 0 1 0%nat [] [].

(** Field updates of the entities. *)
Definition set_x (v : spec_float) (d : Drawable) : Drawable :=
  mkDrawable v (y d) (visible d).
Definition set_y (v : spec_float) (d : Drawable) : Drawable :=
  mkDrawable (x d) v (visible d).
Definition set_cloud_base (d : Drawable) (c : Cloud) : Cloud :=
  mkCloud d (speed c) (size c).
Definition set_angle (v : spec_float) (cb : CelestialBody) : CelestialBody :=
  mkCelestialBody (celestial_base cb) (radius cb) v (color cb).
Definition set_bladeAngle (v : spec_float) (w : Windmill) : Windmill :=
  mkWindmill (windmill_base w) v (rotationSpeed w) (isRotating w)
             (towerWidth w) (towerHeight w) (bladeLength w) (numBlades w) (id w).
Definition set_rotationSpeed (v : spec_float) (w : Windmill) : Windmill :=
  mkWindmill (windmill_base w) (bladeAngle w) v (isRotating w)
             (towerWidth w) (towerHeight w) (bladeLength w) (numBlades w) (id w).
Definition set_isRotating (v : bool) (w : Windmill) : Windmill :=
  mkWindmill (windmill_base w) (bladeAngle w) (rotationSpeed w) v
             (towerWidth w) (towerHeight w) (bladeLength w) (numBlades w) (id w).
Definition set_id (v : Z) (w : Windmill) : Windmill :=
  mkWindmill (windmill_base w) (bladeAngle w) (rotationSpeed w) (isRotating w)
             (towerWidth w) (towerHeight w) (bladeLength w) (numBlades w) v.

(** ** A state monad with faults and exit

    [Fault] stands for undefined behaviour (a dangling or null pointer, an
    index past the end of a vector), [Exited] for [exit(0)], with the
    state the process ends in. *)

Inductive outcome (S X : Type) :=
| Ok (v : X)
| Exited (s : S)
| Fault.
Arguments Ok {S X} v.
Arguments Exited {S X} s.
Arguments Fault {S X}.

Definition St (S A : Type) : Type := S -> outcome S (A * S).

Definition ret {S A : Type} (a : A) : St S A := fun s => Ok (a, s).

Definition bind {S A B : Type} (m : St S A) (k : A -> St S B) : St S B :=
  fun s => match m s with
           | Ok (a, s') => k a s'
           | Exited s' => Exited s'
           | Fault => Fault
           end.

Definition get {S : Type} : St S S := fun s => Ok (s, s).
Definition put {S : Type} (s : S) : St S unit := fun _ => Ok (tt, s).
Definition fault {S A : Type} : St S A := fun _ => Fault.
Definition exit {S A : Type} : St S A := fun s => Exited s.

Declare Scope st_scope.
Delimit Scope st_scope with st.
Notation "'let*' v := m 'in' k" := (bind m (fun v => k))
  (at level 10, v name, m at level 100, k at level 200) : st_scope.
Notation "m1 ;;; m2" := (bind m1 (fun _ => m2))
  (at level 100, right associativity) : st_scope.
Open Scope st_scope.

(** [for (auto a : l) body(a);] *)
Fixpoint for_each {S A : Type} (l : list A) (body : A -> St S unit) : St S unit :=
  match l with
  | [] => ret tt
  | a :: l' => body a ;;; for_each l' body
  end.

(** [for (int i = 0; i < n; i++) body(i);] *)
Definition for_upto {S : Type} (n : Z) (body : Z -> St S unit) : St S unit :=
  for_each (map Z.of_nat (seq 0 (Z.to_nat n))) body.

(** *** Methods: a computation over the receiver and the process state *)

Definition Meth (T A : Type) : Type := St (T * Env) A.

Definition self {T : Type} : Meth T T := fun s => Ok (fst s, s).
Definition set_self {T : Type} (t : T) : Meth T unit := fun s => Ok (tt, (t, snd s)).
Definition global {T A : Type} (f : Env -> A) : Meth T A := fun s => Ok (f (snd s), s).
Definition set_global {T : Type} (f : Env -> Env) : Meth T unit :=
  fun s => Ok (tt, (fst s, f (snd s))).

(** One call on the draw surface. *)
Definition emit {T : Type} (c : GLcmd) : Meth T unit :=
  set_global (fun e => set_gl (gl e ++ [c]) e).

(** [cout << ...]. *)
Definition print {T : Type} (items : list OutItem) : Meth T unit :=
  set_global (fun e => set_cout (cout e ++ items) e).

(** ** The program *)

Section Simulation.

(** The environment of the program: the math library's [cosf]/[cos] and
    [sinf]/[sin] on [float], the results of the successive calls of
    [rand()] (fixed by [srand(time(NULL))]), the constant [RAND_MAX] of
    [<cstdlib>], and [sprintf] with the format of the HUD line. *)
Variable cosf sinf : spec_float -> spec_float.
Variable rand_seq : nat -> Z.
Variable RAND_MAX : Z.
Variable sprintf_info : Z -> spec_float -> string -> string.

Local Open Scope f32_scope.

(** [3.14159f], the constant spelled out in the drawing code. *)
Definition pi_lit : spec_float := F32.lit 314159 5.

(** [rand()]: the next element of the sequence. *)
Definition rand {T : Type} : Meth T Z :=
  let* n := global rand_calls in
  set_global (set_rand_calls (S n)) ;;;
  ret (rand_seq n).

(** [float randomFloat(float min, float max)]. *)
Definition randomFloat {T : Type} (min max : spec_float) : Meth T spec_float :=
  let* rnd := rand in
  ret (min + F32.of_Z rnd / (F32.of_Z RAND_MAX / (max - min))).

(** [void drawCircle(float cx, float cy, float radius, int segments = 100)]. *)
Definition drawCircle {T : Type} (cx cy rad : spec_float) (segments : Z)
  : Meth T unit :=
  emit (GlBegin GL_POLYGON) ;;;
  for_upto segments (fun i =>
    let theta := F32.of_Z 2 * pi_lit * F32.of_Z i / F32.of_Z segments in
    let px := rad * cosf theta in
    let py := rad * sinf theta in
    emit (GlVertex2f (px + cx) (py + cy))) ;;;
  emit GlEnd.

(** *** Cloud *)

Definition Cloud_new (posX posY spd sz : spec_float) : Cloud :=
  mkCloud (mkDrawable posX posY true) spd sz.

Definition Cloud_draw : Meth Cloud unit :=
  let* this := self in
  let d := cloud_base this in
  if negb (visible d) then ret tt else
  emit (GlColor3f (F32.of_Z 1) (F32.of_Z 1) (F32.of_Z 1)) ;;;
  drawCircle (x d) (y d) (size this) 100 ;;;
  drawCircle (x d + size this * F32.lit 8 1) (y d + size this * F32.lit 3 1)
             (size this * F32.lit 9 1) 100 ;;;
  drawCircle (x d - size this * F32.lit 8 1) (y d + size this * F32.lit 3 1)
             (size this * F32.lit 7 1) 100 ;;;
  drawCircle (x d + size this * F32.lit 4 1) (y d - size this * F32.lit 2 1)
             (size this * F32.lit 6 1) 100 ;;;
  drawCircle (x d - size this * F32.lit 4 1) (y d - size this * F32.lit 2 1)
             (size this * F32.lit 6 1) 100.

Definition Cloud_update : Meth Cloud unit :=
  let* paused := global isPaused in
  if paused then ret tt else
  let* this := self in
  set_self (set_cloud_base (set_x (x (cloud_base this) + speed this) (cloud_base this)) this) ;;;
  let* this := self in
  if x (cloud_base this) >? F32.of_Z 450 then
    set_self (set_cloud_base (set_x (- F32.of_Z 450) (cloud_base this)) this) ;;;
    let* ry := randomFloat (F32.of_Z 150) (F32.of_Z 280) in
    let* this := self in
    set_self (set_cloud_base (set_y ry (cloud_base this)) this)
  else ret tt.

(** *** CelestialBody *)

Definition CelestialBody_new (posX posY rad : spec_float) (col : Color)
  : CelestialBody :=
  mkCelestialBody (mkDrawable posX posY true) rad (F32.of_Z 0) col.

Definition CelestialBody_draw : Meth CelestialBody unit :=
  let* this := self in
  let d := celestial_base this in
  if negb (visible d) then ret tt else
  emit (GlColor3f (r (color this)) (g (color this)) (b (color this))) ;;;
  let* day := global isDay in
  (if day then
     for_upto 12 (fun i =>
       let rayAngle :=
         (F32.of_Z 360 / F32.of_Z 12) * F32.of_Z i * pi_lit / F32.of_Z 180 in
       let x1 := x d + (radius this + F32.of_Z 5) * cosf rayAngle in
       let y1 := y d + (radius this + F32.of_Z 5) * sinf rayAngle in
       let x2 := x d + (radius this + F32.of_Z 15) * cosf rayAngle in
       let y2 := y d + (radius this + F32.of_Z 15) * sinf rayAngle in
       emit (GlBegin GL_LINES) ;;;
       emit (GlVertex2f x1 y1) ;;;
       emit (GlVertex2f x2 y2) ;;;
       emit GlEnd)
   else ret tt) ;;;
  drawCircle (x d) (y d) (radius this) 100.

Definition CelestialBody_update : Meth CelestialBody unit :=
  let* paused := global isPaused in
  let* animate := global animateCelestial in
  if paused || negb animate then ret tt else
  let* this := self in
  set_self (set_angle (angle this + F32.lit 3 1) this) ;;;
  let* this := self in
  if angle this >=? F32.of_Z 360 then set_self (set_angle (F32.of_Z 0) this)
  else ret tt.

(** *** Windmill *)

(** The constructor: the static counter is incremented and its new value
    becomes the identity. *)
Definition Windmill_new {T : Type}
    (posX posY tWidth tHeight bLength : spec_float) (blades : Z)
  : Meth T Windmill :=
  let this :=
    mkWindmill (mkDrawable posX posY true) (F32.of_Z 0) (F32.of_Z 2) true
               tWidth tHeight bLength blades 0 in
  let* n := global windmillCount in
  set_global (set_windmillCount (n + 1)%Z) ;;;
  let* n := global windmillCount in
  ret (set_id n this).

(** The destructor. *)
Definition Windmill_delete : Meth Windmill unit :=
  let* n := global windmillCount in
  set_global (set_windmillCount (n - 1)%Z).

Definition Windmill_drawTower : Meth Windmill unit :=
  let* this := self in
  let d := windmill_base this in
  emit (GlColor3f (F32.lit 55 2) (F32.lit 27 2) (F32.lit 7 2)) ;;;
  emit (GlBegin GL_POLYGON) ;;;
  emit (GlVertex2f (x d - towerWidth this / F32.of_Z 2) (y d)) ;;;
  emit (GlVertex2f (x d + towerWidth this / F32.of_Z 2) (y d)) ;;;
  emit (GlVertex2f (x d + towerWidth this / F32.of_Z 3) (y d + towerHeight this)) ;;;
  emit (GlVertex2f (x d - towerWidth this / F32.of_Z 3) (y d + towerHeight this)) ;;;
  emit GlEnd ;;;
  emit (GlColor3f (F32.lit 3 1) (F32.lit 15 2) (F32.lit 5 2)) ;;;
  emit (GlBegin GL_POLYGON) ;;;
  emit (GlVertex2f (x d - F32.of_Z 8) (y d)) ;;;
  emit (GlVertex2f (x d + F32.of_Z 8) (y d)) ;;;
  emit (GlVertex2f (x d + F32.of_Z 8) (y d + F32.of_Z 30)) ;;;
  emit (GlVertex2f (x d - F32.of_Z 8) (y d + F32.of_Z 30)) ;;;
  emit GlEnd.

(** The five vertices of one blade. *)
Definition blade_outline {T : Type} (len : spec_float) : Meth T unit :=
  emit (GlVertex2f (F32.of_Z 0) (F32.of_Z 0)) ;;;
  emit (GlVertex2f (- F32.of_Z 5) (len * F32.lit 3 1)) ;;;
  emit (GlVertex2f (- F32.of_Z 3) len) ;;;
  emit (GlVertex2f (F32.of_Z 3) len) ;;;
  emit (GlVertex2f (F32.of_Z 5) (len * F32.lit 3 1)).

Definition Windmill_drawBlades : Meth Windmill unit :=
  let* this := self in
  let d := windmill_base this in
  let centerX := x d in
  let centerY := y d + towerHeight this in
  emit GlPushMatrix ;;;
  emit (GlTranslatef centerX centerY (F32.of_Z 0)) ;;;
  emit (GlRotatef (bladeAngle this) (F32.of_Z 0) (F32.of_Z 0) (F32.of_Z 1)) ;;;
  let angleStep := F32.of_Z 360 / F32.of_Z (numBlades this) in
  for_upto (numBlades this) (fun i =>
    emit GlPushMatrix ;;;
    emit (GlRotatef (F32.of_Z i * angleStep) (F32.of_Z 0) (F32.of_Z 0) (F32.of_Z 1)) ;;;
    emit (GlColor3f (F32.lit 95 2) (F32.lit 95 2) (F32.lit 90 2)) ;;;
    emit (GlBegin GL_POLYGON) ;;;
    blade_outline (bladeLength this) ;;;
    emit GlEnd ;;;
    emit (GlColor3f (F32.lit 7 1) (F32.lit 7 1) (F32.lit 65 2)) ;;;
    emit (GlBegin GL_LINE_LOOP) ;;;
    blade_outline (bladeLength this) ;;;
    emit GlEnd ;;;
    emit GlPopMatrix) ;;;
  emit GlPopMatrix.

Definition Windmill_drawHub : Meth Windmill unit :=
  let* this := self in
  let d := windmill_base this in
  let centerX := x d in
  let centerY := y d + towerHeight this in
  emit (GlColor3f (F32.lit 3 1) (F32.lit 3 1) (F32.lit 3 1)) ;;;
  drawCircle centerX centerY (F32.of_Z 15) 100 ;;;
  emit (GlColor3f (F32.lit 2 1) (F32.lit 2 1) (F32.lit 2 1)) ;;;
  drawCircle centerX centerY (F32.of_Z 8) 100.

Definition Windmill_drawSelectionIndicator : Meth Windmill unit :=
  let* this := self in
  let d := windmill_base this in
  let* sel := global selectedWindmill in
  if (sel =? id this)%Z then
    emit (GlColor3f (F32.of_Z 1) (F32.of_Z 1) (F32.of_Z 0)) ;;;
    emit (GlLineWidth (F32.of_Z 3)) ;;;
    let centerX := x d in
    let centerY := y d + towerHeight this in
    emit (GlBegin GL_LINE_LOOP) ;;;
    for_upto 50 (fun i =>
      let a := F32.of_Z 2 * pi_lit * F32.of_Z i / F32.of_Z 50 in
      let px := centerX + F32.of_Z 100 * cosf a in
      let py := centerY + F32.of_Z 100 * sinf a in
      emit (GlVertex2f px py)) ;;;
    emit GlEnd ;;;
    emit (GlLineWidth (F32.of_Z 1))
  else ret tt.

Definition Windmill_draw : Meth Windmill unit :=
  let* this := self in
  if negb (visible (windmill_base this)) then ret tt else
  Windmill_drawTower ;;;
  Windmill_drawBlades ;;;
  Windmill_drawHub ;;;
  Windmill_drawSelectionIndicator.

Definition Windmill_update : Meth Windmill unit :=
  let* paused := global isPaused in
  let* this := self in
  if paused || negb (isRotating this) then ret tt else
  set_self (set_bladeAngle (bladeAngle this + rotationSpeed this) this) ;;;
  let* this := self in
  if bladeAngle this >=? F32.of_Z 360
  then set_self (set_bladeAngle (bladeAngle this - F32.of_Z 360) this)
  else ret tt.

Definition Windmill_toggleRotation : Meth Windmill unit :=
  let* this := self in
  set_self (set_isRotating (negb (isRotating this)) this).

Definition Windmill_increaseSpeed : Meth Windmill unit :=
  let* this := self in
  set_self (set_rotationSpeed (rotationSpeed this + F32.lit 5 1) this) ;;;
  let* this := self in
  if rotationSpeed this >? F32.of_Z 15
  then set_self (set_rotationSpeed (F32.of_Z 15) this)
  else ret tt.

Definition Windmill_decreaseSpeed : Meth Windmill unit :=
  let* this := self in
  set_self (set_rotationSpeed (rotationSpeed this - F32.lit 5 1) this) ;;;
  let* this := self in
  if rotationSpeed this <? F32.lit 5 1
  then set_self (set_rotationSpeed (F32.lit 5 1) this)
  else ret tt.

Definition Windmill_getIsRotating : Meth Windmill bool :=
  let* this := self in ret (isRotating this).
Definition Windmill_getSpeed : Meth Windmill spec_float :=
  let* this := self in ret (rotationSpeed this).
Definition Windmill_getId : Meth Windmill Z :=
  let* this := self in ret (id this).
Definition Windmill_getCount {T : Type} : Meth T Z := global windmillCount.

(** *** The virtual interface of [Drawable] *)

Class DrawableOps (T : Type) := {
  draw : Meth T unit;
  update : Meth T unit;
  destroy : Meth T unit }.

#[export] Instance Cloud_ops : DrawableOps Cloud :=
  {| draw := Cloud_draw; update := Cloud_update; destroy := ret tt |}.
#[export] Instance CelestialBody_ops : DrawableOps CelestialBody :=
  {| draw := CelestialBody_draw; update := CelestialBody_update; destroy := ret tt |}.
#[export] Instance Windmill_ops : DrawableOps Windmill :=
  {| draw := Windmill_draw; update := Windmill_update; destroy := Windmill_delete |}.

(** *** The free store, the scene and the whole program state *)

(** [class Scene]: three vectors of pointers and the celestial body. *)
Record Scene := mkScene {
  objects : list nat;
  windmills : list nat;
  clouds : list nat;
  celestialBody : option nat }.

(** [Scene::Scene()]. *)
Definition Scene_new : Scene := mkScene [] [] [] None.

(** The process: its globals, the objects allocated with [new], and the
    global pointer [scene] ([None] is [nullptr]). *)
Record World := mkWorld {
  env : Env;
  heap : gmap nat Entity;
  scene : option Scene }.

Definition Prog (A : Type) : Type := St World A.

(** Code without a receiver, run on the process state. *)
Definition run_static {A : Type} (m : Meth unit A) : Prog A :=
  fun w => match m (tt, env w) with
           | Ok (a, (_, e')) => Ok (a, mkWorld e' (heap w) (scene w))
           | Exited (_, e') => Exited (mkWorld e' (heap w) (scene w))
           | Fault => Fault
           end.

(** A method called through a pointer: the receiver is read from the
    free store and written back.  A pointer to no object is a fault. *)
Definition as_cloud (o : Entity) : option Cloud :=
  match o with ECloud c => Some c | _ => None end.
Definition as_celestial (o : Entity) : option CelestialBody :=
  match o with ECelestialBody cb => Some cb | _ => None end.
Definition as_windmill (o : Entity) : option Windmill :=
  match o with EWindmill wm => Some wm | _ => None end.

Definition run_on {T A : Type} (inj : T -> Entity) (p : nat) (this : T)
    (m : Meth T A) : Prog A :=
  fun w => match m (this, env w) with
           | Ok (a, (this', e')) =>
               Ok (a, mkWorld e' (<[p := inj this']> (heap w)) (scene w))
           | Exited (this', e') =>
               Exited (mkWorld e' (<[p := inj this']> (heap w)) (scene w))
           | Fault => Fault
           end.

Definition invoke {T A : Type} (proj : Entity -> option T) (inj : T -> Entity)
    (p : nat) (m : Meth T A) : Prog A :=
  fun w => match heap w !! p with
           | Some o => match proj o with
                       | Some this => run_on inj p this m w
                       | None => Fault
                       end
           | None => Fault
           end.

(** A virtual call [p->f()] on a [Drawable*]. *)
Definition virtual (f : forall T : Type, DrawableOps T -> Meth T unit) (p : nat)
  : Prog unit :=
  fun w => match heap w !! p with
           | Some (ECloud c) => run_on ECloud p c (f Cloud _) w
           | Some (ECelestialBody cb) => run_on ECelestialBody p cb (f CelestialBody _) w
           | Some (EWindmill wm) => run_on EWindmill p wm (f Windmill _) w
           | None => Fault
           end.

(** [new T(...)]: the object is placed at an address not in use. *)
Definition new (o : Entity) : Prog nat :=
  fun w => let p := fresh (dom (heap w)) in
           Ok (p, mkWorld (env w) (<[p := o]> (heap w)) (scene w)).

(** [new Windmill(...)], [new Cloud(...)], [new CelestialBody(...)]: the
    object is constructed and placed on the free store. *)
Definition new_Windmill (posX posY tWidth tHeight bLength : spec_float)
    (blades : Z) : Prog nat :=
  let* wm := run_static (Windmill_new posX posY tWidth tHeight bLength blades) in
  new (EWindmill wm).

Definition new_Cloud (posX posY spd sz : spec_float) : Prog nat :=
  new (ECloud (Cloud_new posX posY spd sz)).

Definition new_CelestialBody (posX posY rad : spec_float) (col : Color)
  : Prog nat :=
  new (ECelestialBody (CelestialBody_new posX posY rad col)).

(** [delete p] on a [Drawable*]: the virtual destructor runs, then the
    storage is released. *)
Definition delete_object (p : nat) : Prog unit :=
  virtual (@destroy) p ;;;
  (fun w => Ok (tt, mkWorld (env w) (delete p (heap w)) (scene w))).

(** [*scene]; dereferencing [nullptr] is a fault. *)
Definition the_scene : Prog Scene :=
  fun w => match scene w with
           | Some sc => Ok (sc, w)
           | None => Fault
           end.
Definition set_scene (sc : option Scene) : Prog unit :=
  fun w => Ok (tt, mkWorld (env w) (heap w) sc).

Definition Scene_addWindmill (p : nat) : Prog unit :=
  let* sc := the_scene in
  set_scene (Some (mkScene (objects sc) (windmills sc ++ [p]) (clouds sc)
                           (celestialBody sc))) ;;;
  let* sc := the_scene in
  set_scene (Some (mkScene (objects sc ++ [p]) (windmills sc) (clouds sc)
                           (celestialBody sc))).

Definition Scene_addCloud (p : nat) : Prog unit :=
  let* sc := the_scene in
  set_scene (Some (mkScene (objects sc) (windmills sc) (clouds sc ++ [p])
                           (celestialBody sc))) ;;;
  let* sc := the_scene in
  set_scene (Some (mkScene (objects sc ++ [p]) (windmills sc) (clouds sc)
                           (celestialBody sc))).

Definition Scene_setCelestialBody (p : nat) : Prog unit :=
  let* sc := the_scene in
  set_scene (Some (mkScene (objects sc) (windmills sc) (clouds sc) (Some p))) ;;;
  let* sc := the_scene in
  set_scene (Some (mkScene (objects sc ++ [p]) (windmills sc) (clouds sc)
                           (celestialBody sc))).

Definition Scene_drawAll : Prog unit :=
  let* sc := the_scene in
  for_each (objects sc) (virtual (@draw)).

Definition Scene_updateAll : Prog unit :=
  let* sc := the_scene in
  for_each (objects sc) (virtual (@update)).

Definition Scene_clear : Prog unit :=
  let* sc := the_scene in
  for_each (objects sc) delete_object ;;;
  let* sc := the_scene in
  set_scene (Some (mkScene [] (windmills sc) (clouds sc) (celestialBody sc))) ;;;
  let* sc := the_scene in
  set_scene (Some (mkScene (objects sc) [] (clouds sc) (celestialBody sc))) ;;;
  let* sc := the_scene in
  set_scene (Some (mkScene (objects sc) (windmills sc) [] (celestialBody sc))) ;;;
  let* sc := the_scene in
  set_scene (Some (mkScene (objects sc) (windmills sc) (clouds sc) None)).

(** [delete scene]: nothing when the pointer is null; otherwise the
    destructor of [Scene] releases the objects and empties the vectors;
    the pointer itself is left as it is. *)
Definition Scene_delete : Prog unit :=
  fun w => match scene w with
           | Some sc => for_each (objects sc) delete_object w
           | None => Ok (tt, w)
           end.

(** [scene->getWindmills()[i]] ([operator[]] past the end is a fault). *)
Definition windmill_at (i : Z) : Prog nat :=
  let* sc := the_scene in
  match (if (0 <=? i)%Z then windmills sc !! Z.to_nat i else None) with
  | Some p => ret p
  | None => fault
  end.

(** *** Rendering *)

(** [for (char c : text) glutBitmapCharacter(font, c);] *)
Definition bitmap_text {T : Type} (font : GLfont) (text : string) : Meth T unit :=
  for_each (list_ascii_of_string text) (fun c => emit (GlutBitmapCharacter font c)).

Definition drawBackground {T : Type} : Meth T unit :=
  let* day := global isDay in
  (if day
   then emit (GlClearColor (F32.lit 53 2) (F32.lit 81 2) (F32.lit 92 2) (F32.of_Z 1))
   else emit (GlClearColor (F32.lit 4 2) (F32.lit 4 2) (F32.lit 12 2) (F32.of_Z 1))) ;;;
  emit GlClearColorBuffer ;;;
  (if day
   then emit (GlColor3f (F32.lit 13 2) (F32.lit 55 2) (F32.lit 13 2))
   else emit (GlColor3f (F32.lit 8 2) (F32.lit 23 2) (F32.lit 8 2))) ;;;
  emit (GlBegin GL_POLYGON) ;;;
  emit (GlVertex2f (F32.of_Z (-500)) (F32.of_Z (-350))) ;;;
  emit (GlVertex2f (F32.of_Z 500) (F32.of_Z (-350))) ;;;
  emit (GlVertex2f (F32.of_Z 500) (F32.of_Z (-150))) ;;;
  emit (GlVertex2f (F32.of_Z (-500)) (F32.of_Z (-150))) ;;;
  emit GlEnd.

(** The test guarding every use of the selection:
    [!windmills.empty() && selectedWindmill > 0 && selectedWindmill <= windmills.size()]. *)
Definition selection_in_range (sc : Scene) (e : Env) : bool :=
  negb (Nat.eqb (length (windmills sc)) 0)
  && (0 <? selectedWindmill e)%Z
  && (selectedWindmill e <=? Z.of_nat (length (windmills sc)))%Z.

Definition drawHUD : Prog unit :=
  run_static (
    emit (GlColor3f (F32.of_Z 1) (F32.of_Z 1) (F32.of_Z 1)) ;;;
    emit (GlRasterPos2f (F32.of_Z (-480)) (F32.of_Z 320)) ;;;
    bitmap_text GLUT_BITMAP_HELVETICA_18 "Enhanced Windmill Simulation - OOP Project" ;;;
    emit (GlRasterPos2f (F32.of_Z (-480)) (F32.of_Z 295)) ;;;
    let* day := global isDay in
    let* paused := global isPaused in
    let mode := ("Mode: " ++ (if day then "DAY" else "NIGHT")
                          ++ (if paused then " (PAUSED)" else ""))%string in
    bitmap_text GLUT_BITMAP_HELVETICA_12 mode) ;;;
  let* sc := the_scene in
  let* e := run_static (global (fun e => e)) in
  (if selection_in_range sc e then
     let* selected := windmill_at (selectedWindmill e - 1) in
     run_static (emit (GlRasterPos2f (F32.of_Z (-480)) (F32.of_Z 275))) ;;;
     let* spd := invoke as_windmill EWindmill selected Windmill_getSpeed in
     let* rot := invoke as_windmill EWindmill selected Windmill_getIsRotating in
     let info := sprintf_info (selectedWindmill e) spd
                              (if rot then "ROTATING" else "STOPPED")%string in
     run_static (bitmap_text GLUT_BITMAP_HELVETICA_12 info)
   else ret tt) ;;;
  run_static (
    emit (GlRasterPos2f (F32.of_Z (-480)) (F32.of_Z (-320))) ;;;
    bitmap_text GLUT_BITMAP_8_BY_13
      "Controls: 1/2/3-Select | +/-Speed | D-Day | N-Night | C-Cloud | W-Windmill | S-Sun | P-Pause | R-Reset | Q-Quit").

(** [if (scene) body;] *)
Definition if_scene (body : Prog unit) : Prog unit :=
  fun w => match scene w with
           | Some _ => body w
           | None => Ok (tt, w)
           end.

Definition display : Prog unit :=
  run_static drawBackground ;;;
  if_scene Scene_drawAll ;;;
  drawHUD ;;;
  run_static (emit GlutSwapBuffers).

(** The timer callback; [glutTimerFunc(16, timer, 0)] re-arms it for the
    next tick (the callback registered is always [timer] itself). *)
Definition timer : Prog unit :=
  if_scene Scene_updateAll ;;;
  run_static (emit GlutPostRedisplay) ;;;
  run_static (emit (GlutTimerFunc 16 0)).

(** *** Input *)

Definition adjust_speed (m : Meth Windmill unit) (msg : string) : Prog unit :=
  let* sc := the_scene in
  let* e := run_static (global (fun e => e)) in
  if selection_in_range sc e then
    let* p := windmill_at (selectedWindmill e - 1) in
    invoke as_windmill EWindmill p m ;;;
    let* p' := windmill_at (selectedWindmill e - 1) in
    let* spd := invoke as_windmill EWindmill p' Windmill_getSpeed in
    run_static (print [OStr msg; OFloat spd; OEndl])
  else ret tt.

(** The cases of the [switch] of [keyboard], one definition per case. *)

(** [case '1': ... case '5':] *)
Definition on_select (key : ascii) : Prog unit :=
  let selection := (Z.of_nat (nat_of_ascii key) - Z.of_nat (nat_of_ascii "0"))%Z in
  let* sc := the_scene in
  if (0 <? selection)%Z && (selection <=? Z.of_nat (length (windmills sc)))%Z
  then run_static (set_global (set_selectedWindmill selection) ;;;
                   print [OStr "Selected Windmill #"; OInt selection; OEndl])
  else ret tt.

(** [case '+': case '=':] *)
Definition on_faster : Prog unit :=
  adjust_speed Windmill_increaseSpeed "Speed increased to: ".

(** [case '-': case '_':] *)
Definition on_slower : Prog unit :=
  adjust_speed Windmill_decreaseSpeed "Speed decreased to: ".

(** [case 'd': case 'D':] and [case 'n': case 'N':] *)
Definition on_day : Prog unit :=
  run_static (set_global (set_isDay true) ;;;
              print [OStr "Switched to DAY mode"; OEndl]).
Definition on_night : Prog unit :=
  run_static (set_global (set_isDay false) ;;;
              print [OStr "Switched to NIGHT mode"; OEndl]).

(** [case 'c': case 'C':] *)
Definition on_cloud : Prog unit :=
  let* cloudX := run_static (randomFloat (- F32.of_Z 450) (F32.of_Z 450)) in
  let* cloudY := run_static (randomFloat (F32.of_Z 150) (F32.of_Z 280)) in
  let* cloudSpeed := run_static (randomFloat (F32.lit 2 1) (F32.lit 5 1)) in
  let* p := new_Cloud cloudX cloudY cloudSpeed (F32.of_Z 25) in
  Scene_addCloud p ;;;
  run_static (print [OStr "Added new cloud"; OEndl]).

(** [case 'w': case 'W':] *)
Definition on_windmill : Prog unit :=
  let* windmillX := run_static (randomFloat (- F32.of_Z 400) (F32.of_Z 400)) in
  let* windmillY := run_static (randomFloat (- F32.of_Z 300) (- F32.of_Z 180)) in
  let* p := new_Windmill windmillX windmillY (F32.of_Z 30) (F32.of_Z 120)
                         (F32.of_Z 80) 4 in
  Scene_addWindmill p ;;;
  let* n := run_static Windmill_getCount in
  run_static (print [OStr "Added Windmill #"; OInt n; OEndl]).

(** [case 's': case 'S':] *)
Definition on_sun : Prog unit :=
  let* a := run_static (global animateCelestial) in
  run_static (set_global (set_animateCelestial (negb a))) ;;;
  let* a := run_static (global animateCelestial) in
  run_static (print [OStr "Sun/Moon animation: ";
                     OStr (if a then "ON" else "OFF"); OEndl]).

(** [case 'p': case 'P':] *)
Definition on_pause : Prog unit :=
  let* q := run_static (global isPaused) in
  run_static (set_global (set_isPaused (negb q))) ;;;
  let* q := run_static (global isPaused) in
  run_static (print [OStr "Simulation: ";
                     OStr (if q then "PAUSED" else "RESUMED"); OEndl]).

(** [case 'r': case 'R':] *)
Definition on_reset : Prog unit :=
  run_static (print [OStr "Resetting simulation..."; OEndl]) ;;;
  Scene_clear ;;;
  run_static (set_global (set_selectedWindmill 1)).

(** [case 'q': case 'Q': case 27:] *)
Definition on_quit : Prog unit :=
  run_static (print [OStr "Exiting..."; OEndl]) ;;;
  Scene_delete ;;;
  exit.

(** [void keyboard(unsigned char key, int x, int y)]: the [switch], then
    the redisplay request. *)
Definition keyboard (key : ascii) : Prog unit :=
  match key with
  | "1" | "2" | "3" | "4" | "5" => on_select key
  | "+" | "=" => on_faster
  | "-" | "_" => on_slower
  | "d" | "D" => on_day
  | "n" | "N" => on_night
  | "c" | "C" => on_cloud
  | "w" | "W" => on_windmill
  | "s" | "S" => on_sun
  | "p" | "P" => on_pause
  | "r" | "R" => on_reset
  | "q" | "Q" | "027" => on_quit
  | _ => ret tt
  end%char ;;;
  run_static (emit GlutPostRedisplay).

(** *** Start-up *)

Definition initScene : Prog unit :=
  set_scene (Some Scene_new) ;;;
  let* p := new_Windmill (- F32.of_Z 250) (- F32.of_Z 200) (F32.of_Z 30)
                         (F32.of_Z 120) (F32.of_Z 80) 4 in
  Scene_addWindmill p ;;;
  let* p := new_Windmill (F32.of_Z 100) (- F32.of_Z 220) (F32.of_Z 35)
                         (F32.of_Z 130) (F32.of_Z 90) 4 in
  Scene_addWindmill p ;;;
  let* p := new_Windmill (F32.of_Z 350) (- F32.of_Z 210) (F32.of_Z 28)
                         (F32.of_Z 110) (F32.of_Z 75) 4 in
  Scene_addWindmill p ;;;
  let* p := new_Cloud (- F32.of_Z 300) (F32.of_Z 220) (F32.lit 3 1) (F32.of_Z 25) in
  Scene_addCloud p ;;;
  let* p := new_Cloud (F32.of_Z 0) (F32.of_Z 250) (F32.lit 25 2) (F32.of_Z 30) in
  Scene_addCloud p ;;;
  let* p := new_Cloud (F32.of_Z 250) (F32.of_Z 200) (F32.lit 35 2) (F32.of_Z 28) in
  Scene_addCloud p ;;;
  let* p := new_CelestialBody (F32.of_Z 350) (F32.of_Z 250) (F32.of_Z 30)
              (mkColor (F32.of_Z 1) (F32.lit 95 2) (F32.of_Z 0)) in
  Scene_setCelestialBody p.

(** The process before [main] runs: static initialisation only. *)
Definition boot : World := mkWorld initial_env ∅ None.

(** The callbacks the run loop dispatches, one at a time. *)
Inductive event :=
| Key (key : ascii)
| Tick
| Redraw.

Definition handle (ev : event) : Prog unit :=
  match ev with
  | Key key => keyboard key
  | Tick => timer
  | Redraw => display
  end.

(** [main]: initialise the scene, then serve the events in order. *)
Definition run (evs : list event) : outcome World (unit * World) :=
  (initScene ;;; for_each evs handle) boot.

Local Close Scope f32_scope.

(** ** Properties *)

(** *** Reasoning about the monad *)

Lemma world_eta (w : World) : mkWorld (env w) (heap w) (scene w) = w.
Proof. by destruct w. Qed.

Lemma bind_Ok {S A B : Type} (m : St S A) (k : A -> St S B) s a s' :
  m s = Ok (a, s') -> bind m k s = k a s'.
Proof. intros H. unfold bind. by rewrite H. Qed.

Lemma for_each_app {S A : Type} (l1 l2 : list A) (body : A -> St S unit) s :
  for_each (l1 ++ l2) body s = (for_each l1 body ;;; for_each l2 body) s.
Proof.
  revert s. induction l1 as [|a l1 IH]; intros s; [done|].
  simpl. unfold bind in *.
  destruct (body a s) as [[[] s1]|?|]; [|done|done].
  apply IH.
Qed.

(** A method that leaves receiver and process state as they are writes
    the receiver back unchanged. *)
Lemma run_on_unchanged {T : Type} (inj : T -> Entity) p this (m : Meth T unit) w :
  heap w !! p = Some (inj this) ->
  m (this, env w) = Ok (tt, (this, env w)) ->
  run_on inj p this m w = Ok (tt, w).
Proof.
  intros Hp Hm. unfold run_on. rewrite Hm, insert_id by done.
  by rewrite world_eta.
Qed.

(** *** Updates under pause *)

Lemma Cloud_update_paused c e :
  isPaused e = true -> Cloud_update (c, e) = Ok (tt, (c, e)).
Proof. intros H. unfold Cloud_update, bind, global. simpl. by rewrite H. Qed.

Lemma CelestialBody_update_paused cb e :
  isPaused e = true -> CelestialBody_update (cb, e) = Ok (tt, (cb, e)).
Proof. intros H. unfold CelestialBody_update, bind, global. simpl. by rewrite H. Qed.

Lemma Windmill_update_paused wm e :
  isPaused e = true -> Windmill_update (wm, e) = Ok (tt, (wm, e)).
Proof. intros H. unfold Windmill_update, bind, global. simpl. by rewrite H. Qed.

Lemma virtual_update_paused w p o :
  isPaused (env w) = true -> heap w !! p = Some o ->
  virtual (@update) p w = Ok (tt, w).
Proof.
  intros H Hp. unfold virtual. rewrite Hp.
  destruct o; apply run_on_unchanged; try done; simpl.
  - by apply Cloud_update_paused.
  - by apply CelestialBody_update_paused.
  - by apply Windmill_update_paused.
Qed.

Lemma updateAll_paused_objects (l : list nat) w :
  isPaused (env w) = true ->
  (forall p, p ∈ l -> is_Some (heap w !! p)) ->
  for_each l (virtual (@update)) w = Ok (tt, w).
Proof.
  intros H. induction l as [|p l IH]; intros Hl; simpl; [done|].
  destruct (Hl p) as [o Ho]; [set_solver|].
  rewrite (bind_Ok _ _ _ _ _ (virtual_update_paused w p o H Ho)).
  apply IH. intros q Hq. apply Hl. set_solver.
Qed.

(** C4. While the global pause flag is set, [update()] leaves the entity it
    is called on, and everything else, exactly as it was: for a cloud, for
    the celestial body and for a windmill, through the virtual call on any
    [Drawable*], and so for [Scene::updateAll] over a whole scene. *)
Theorem C4_update_paused_is_noop (e : Env) :
  isPaused e = true ->
  (forall c, Cloud_update (c, e) = Ok (tt, (c, e))) /\
  (forall cb, CelestialBody_update (cb, e) = Ok (tt, (cb, e))) /\
  (forall wm, Windmill_update (wm, e) = Ok (tt, (wm, e))) /\
  (forall w p o, env w = e -> heap w !! p = Some o ->
     virtual (@update) p w = Ok (tt, w)) /\
  (forall w sc, env w = e -> scene w = Some sc ->
     (forall p, p ∈ objects sc -> is_Some (heap w !! p)) ->
     Scene_updateAll w = Ok (tt, w)).
Proof.
  intros H. repeat split.
  - intros c. by apply Cloud_update_paused.
  - intros cb. by apply CelestialBody_update_paused.
  - intros wm. by apply Windmill_update_paused.
  - intros w p o <- Hp. by eapply virtual_update_paused.
  - intros w sc <- Hsc Hl. unfold Scene_updateAll, bind, the_scene.
    rewrite Hsc. by apply updateAll_paused_objects.
Qed.

(** *** Drawing only paints

    A computation [paints] when, whatever the receiver and the process
    state, it returns normally, leaves the receiver untouched and changes
    the process state only by appending calls to the draw surface. *)

Definition paints {T A : Type} (m : Meth T A) : Prop :=
  forall t e, exists a cmds, m (t, e) = Ok (a, (t, set_gl (gl e ++ cmds) e)).

Lemma set_gl_same e : set_gl (gl e ++ []) e = e.
Proof. destruct e. unfold set_gl. simpl. by rewrite app_nil_r. Qed.

Lemma set_gl_twice e c1 c2 :
  set_gl (gl (set_gl (gl e ++ c1) e) ++ c2) (set_gl (gl e ++ c1) e)
  = set_gl (gl e ++ (c1 ++ c2)) e.
Proof. unfold set_gl. simpl. by rewrite app_assoc. Qed.

Lemma paints_ret {T A : Type} (a : A) : paints (@ret (T * Env) A a).
Proof. intros t e. exists a, []. unfold ret. by rewrite set_gl_same. Qed.

Lemma paints_self {T : Type} : paints (@self T).
Proof. intros t e. exists t, []. unfold self. simpl. by rewrite set_gl_same. Qed.

Lemma paints_global {T A : Type} (f : Env -> A) : paints (@global T A f).
Proof. intros t e. exists (f e), []. unfold global. simpl. by rewrite set_gl_same. Qed.

Lemma paints_emit {T : Type} (c : GLcmd) : paints (@emit T c).
Proof. intros t e. by exists tt, [c]. Qed.

Lemma paints_bind {T A B : Type} (m : Meth T A) (k : A -> Meth T B) :
  paints m -> (forall a, paints (k a)) -> paints (bind m k).
Proof.
  intros Hm Hk t e. destruct (Hm t e) as (a & c1 & E1).
  destruct (Hk a t (set_gl (gl e ++ c1) e)) as (v & c2 & E2).
  exists v, (c1 ++ c2). unfold bind. rewrite E1, E2. by rewrite set_gl_twice.
Qed.

Lemma paints_if {T A : Type} (c : bool) (m1 m2 : Meth T A) :
  paints m1 -> paints m2 -> paints (if c then m1 else m2).
Proof. by destruct c. Qed.

Lemma paints_for_each {T A : Type} (l : list A) (body : A -> Meth T unit) :
  (forall a, paints (body a)) -> paints (for_each l body).
Proof.
  intros Hb. induction l as [|a l IH]; simpl.
  - apply paints_ret.
  - apply paints_bind; [apply Hb | intros _; apply IH].
Qed.

Lemma paints_for_upto {T : Type} (n : Z) (body : Z -> Meth T unit) :
  (forall i, paints (body i)) -> paints (for_upto n body).
Proof. intros Hb. by apply paints_for_each. Qed.

Create HintDb paint discriminated.
#[local] Hint Resolve paints_ret paints_self paints_global paints_emit : paint.

Ltac paint :=
  repeat match goal with
    | |- forall _, _ => intros
    | |- paints (let _ := _ in _) => cbv zeta
    | |- paints (bind _ _) => apply paints_bind
    | |- paints (if _ then _ else _) => apply paints_if
    | |- paints (for_upto _ _) => apply paints_for_upto
    | |- paints (for_each _ _) => apply paints_for_each
    | |- paints _ => solve [auto with paint]
    end.

Lemma paints_drawCircle {T : Type} cx cy rad segments :
  paints (@drawCircle T cx cy rad segments).
Proof. unfold drawCircle. paint. Qed.
#[local] Hint Resolve paints_drawCircle : paint.

Lemma paints_bitmap_text {T : Type} font text : paints (@bitmap_text T font text).
Proof. unfold bitmap_text. paint. Qed.
#[local] Hint Resolve paints_bitmap_text : paint.

Lemma paints_drawBackground {T : Type} : paints (@drawBackground T).
Proof. unfold drawBackground. paint. Qed.

Lemma paints_Cloud_draw : paints Cloud_draw.
Proof. unfold Cloud_draw. paint. Qed.

Lemma paints_CelestialBody_draw : paints CelestialBody_draw.
Proof. unfold CelestialBody_draw. paint. Qed.

Lemma paints_blade_outline {T : Type} len : paints (@blade_outline T len).
Proof. unfold blade_outline. paint. Qed.
#[local] Hint Resolve paints_blade_outline : paint.

Lemma paints_Windmill_draw : paints Windmill_draw.
Proof.
  unfold Windmill_draw, Windmill_drawTower, Windmill_drawBlades,
    Windmill_drawHub, Windmill_drawSelectionIndicator.
  paint.
Qed.

(** The same at the level of the whole process: [painted cmds w] is [w]
    with [cmds] appended to the calls received by the draw surface. *)
Definition painted (cmds : list GLcmd) (w : World) : World :=
  mkWorld (set_gl (gl (env w) ++ cmds) (env w)) (heap w) (scene w).

Definition is_live (h : gmap nat Entity) (p : nat) : bool :=
  match h !! p with Some _ => true | None => false end.

Definition is_windmill_at (h : gmap nat Entity) (p : nat) : bool :=
  match h !! p with Some (EWindmill _) => true | _ => false end.

(** The pointers of the scene point to objects, and those of the windmill
    view to windmills. *)
Definition scene_ok (w : World) : bool :=
  match scene w with
  | Some sc => forallb (is_live (heap w)) (objects sc)
               && forallb (is_windmill_at (heap w)) (windmills sc)
  | None => false
  end.

Definition renders {A : Type} (m : Prog A) : Prop :=
  forall w, scene_ok w = true -> exists a cmds, m w = Ok (a, painted cmds w).

Lemma painted_nil w : painted [] w = w.
Proof. unfold painted. by rewrite set_gl_same, world_eta. Qed.

Lemma painted_app c1 c2 w : painted c2 (painted c1 w) = painted (c1 ++ c2) w.
Proof. unfold painted, set_gl. simpl. by rewrite app_assoc. Qed.

Lemma scene_ok_painted c w : scene_ok (painted c w) = scene_ok w.
Proof. done. Qed.

Lemma renders_ret {A : Type} (a : A) : renders (ret a).
Proof. intros w _. exists a, []. by rewrite painted_nil. Qed.

Lemma renders_bind {A B : Type} (m : Prog A) (k : A -> Prog B) :
  renders m -> (forall a, renders (k a)) -> renders (bind m k).
Proof.
  intros Hm Hk w Hw. destruct (Hm w Hw) as (a & c1 & E1).
  destruct (Hk a (painted c1 w)) as (v & c2 & E2); [done|].
  exists v, (c1 ++ c2). unfold bind. by rewrite E1, E2, painted_app.
Qed.

Lemma renders_run_static {A : Type} (m : Meth unit A) :
  paints m -> renders (run_static m).
Proof.
  intros Hm w _. destruct (Hm tt (env w)) as (a & c & E).
  exists a, c. unfold run_static. by rewrite E.
Qed.

Lemma renders_run_on {T A : Type} (inj : T -> Entity) p this (m : Meth T A) :
  paints m ->
  forall w, heap w !! p = Some (inj this) ->
            exists a cmds, run_on inj p this m w = Ok (a, painted cmds w).
Proof.
  intros Hm w Hp. destruct (Hm this (env w)) as (a & c & E).
  exists a, c. unfold run_on. rewrite E. unfold painted.
  by rewrite insert_id.
Qed.

Lemma renders_virtual_draw w p :
  is_live (heap w) p = true ->
  exists cmds, virtual (@draw) p w = Ok (tt, painted cmds w).
Proof.
  unfold is_live, virtual. intros Hp.
  destruct (heap w !! p) as [[c|cb|wm]|] eqn:E; [| | |done].
  - destruct (renders_run_on ECloud p c (@draw Cloud Cloud_ops) paints_Cloud_draw w E) as ([] & k & ->); eauto.
  - destruct (renders_run_on ECelestialBody p cb (@draw CelestialBody CelestialBody_ops) paints_CelestialBody_draw w E)
      as ([] & k & ->); eauto.
  - destruct (renders_run_on EWindmill p wm (@draw Windmill Windmill_ops) paints_Windmill_draw w E)
      as ([] & k & ->); eauto.
Qed.

Lemma renders_draw_objects (l : list nat) w :
  forallb (is_live (heap w)) l = true ->
  exists cmds, for_each l (virtual (@draw)) w = Ok (tt, painted cmds w).
Proof.
  revert w. induction l as [|p l IH]; intros w Hl; simpl in *.
  - exists []. by rewrite painted_nil.
  - apply andb_true_iff in Hl as [Hp Hl].
    destruct (renders_virtual_draw w p Hp) as (c1 & E1).
    destruct (IH (painted c1 w) Hl) as (c2 & E2).
    exists (c1 ++ c2). unfold bind. by rewrite E1, E2, painted_app.
Qed.

Lemma renders_drawAll : renders Scene_drawAll.
Proof.
  intros w Hw. unfold scene_ok in Hw. unfold Scene_drawAll, bind, the_scene.
  destruct (scene w) as [sc|]; [|done].
  apply andb_true_iff in Hw as [Hl _].
  destruct (renders_draw_objects _ w Hl) as (c & E). by exists tt, c.
Qed.

Lemma renders_if_scene (m : Prog unit) : renders m -> renders (if_scene m).
Proof.
  intros Hm w Hw. unfold if_scene. destruct (scene w) eqn:E; [by apply Hm|].
  unfold scene_ok in Hw. by rewrite E in Hw.
Qed.

Lemma renders_invoke_windmill {A : Type} (m : Meth Windmill A) p :
  paints m ->
  forall w, is_windmill_at (heap w) p = true ->
            exists a cmds, invoke as_windmill EWindmill p m w = Ok (a, painted cmds w).
Proof.
  intros Hm w Hp. unfold is_windmill_at in Hp. unfold invoke.
  destruct (heap w !! p) as [[c|cb|wm]|] eqn:E; try done. simpl.
  by apply renders_run_on.
Qed.

Lemma selection_in_range_lookup sc e :
  selection_in_range sc e = true ->
  exists p, windmills sc !! Z.to_nat (selectedWindmill e - 1) = Some p
            /\ (0 <=? selectedWindmill e - 1)%Z = true.
Proof.
  unfold selection_in_range. intros H.
  apply andb_true_iff in H as [H H2]. apply andb_true_iff in H as [_ H1].
  apply Z.ltb_lt in H1. apply Z.leb_le in H2.
  destruct (lookup_lt_is_Some_2 (windmills sc) (Z.to_nat (selectedWindmill e - 1)))
    as [p Hp]; [lia|].
  exists p. split; [done|]. apply Z.leb_le. lia.
Qed.

Lemma renders_drawHUD : renders drawHUD.
Proof.
  unfold drawHUD. apply renders_bind.
  { apply renders_run_static. paint. }
  intros _ w Hw. unfold bind at 1. unfold the_scene at 1.
  pose proof Hw as Hok. unfold scene_ok in Hok.
  destruct (scene w) as [sc|] eqn:Esc; [|done].
  apply andb_true_iff in Hok as [_ Hwm].
  unfold bind at 1. unfold run_static at 1, global at 1.
  cbn beta iota delta [fst snd]. rewrite world_eta.
  assert (Hrest : renders (run_static
            (emit (GlRasterPos2f (F32.of_Z (-480)) (F32.of_Z (-320))) ;;;
             bitmap_text GLUT_BITMAP_8_BY_13
               "Controls: 1/2/3-Select | +/-Speed | D-Day | N-Night | C-Cloud | W-Windmill | S-Sun | P-Pause | R-Reset | Q-Quit"))).
  { apply renders_run_static. paint. }
  destruct (selection_in_range sc (env w)) eqn:Esel.
  - destruct (selection_in_range_lookup _ _ Esel) as (p & Hp & Hnn).
    assert (Hpw : is_windmill_at (heap w) p = true).
    { rewrite forallb_forall in Hwm. apply Hwm.
      apply list_elem_of_In. by eapply list_elem_of_lookup_2. }
    unfold bind at 1. unfold bind at 1.
    unfold windmill_at at 1, bind at 1, the_scene at 1. rewrite Esc, Hnn, Hp.
    unfold ret at 1. unfold bind at 1.
    destruct (renders_run_static (emit (GlRasterPos2f (F32.of_Z (-480)) (F32.of_Z 275)))
                (paints_emit _) w Hw) as ([] & c1 & ->).
    unfold bind at 1.
    destruct (renders_invoke_windmill Windmill_getSpeed p
                ltac:(unfold Windmill_getSpeed; paint) (painted c1 w) Hpw)
      as (spd & c2 & ->).
    rewrite painted_app. unfold bind at 1.
    destruct (renders_invoke_windmill Windmill_getIsRotating p
                ltac:(unfold Windmill_getIsRotating; paint) (painted (c1 ++ c2) w) Hpw)
      as (rot & c3 & ->).
    rewrite painted_app.
    destruct (renders_run_static
                (bitmap_text GLUT_BITMAP_HELVETICA_12
                   (sprintf_info (selectedWindmill (env w)) spd
                      (if rot then "ROTATING" else "STOPPED")%string))
                (paints_bitmap_text _ _) (painted ((c1 ++ c2) ++ c3) w) Hw)
      as ([] & c4 & ->).
    rewrite painted_app.
    destruct (Hrest (painted (((c1 ++ c2) ++ c3) ++ c4) w) Hw) as ([] & c5 & ->).
    rewrite painted_app. eauto.
  - unfold bind at 1, ret at 1.
    destruct (Hrest w Hw) as ([] & c5 & ->). eauto.
Qed.

Lemma renders_display : renders display.
Proof.
  unfold display.
  apply renders_bind; [apply renders_run_static, paints_drawBackground|intros _].
  apply renders_bind; [apply renders_if_scene, renders_drawAll|intros _].
  apply renders_bind; [apply renders_drawHUD|intros _].
  apply renders_run_static, paints_emit.
Qed.

(** [n] calls in a row. *)
Fixpoint repeat_call (n : nat) (m : Prog unit) : Prog unit :=
  match n with
  | O => ret tt
  | S n' => m ;;; repeat_call n' m
  end.

Lemma renders_repeat_call n m : renders m -> renders (repeat_call n m).
Proof.
  intros Hm. induction n as [|n IH]; simpl.
  - apply renders_ret.
  - apply renders_bind; [done|by intros _].
Qed.

(** C9. Drawing is state-pure.  [draw()] of a cloud, of the celestial body
    and of a windmill returns normally for every receiver and every global
    state, leaves the receiver as it was and changes the process state only
    by the calls it appends on the draw surface: no entity field and no
    mode flag changes.  Hence, in a scene whose pointers are valid,
    [Scene::drawAll()] and the render entry point [display()], called any
    number of times in a row, leave every entity, the scene and every
    global as they were. *)
Theorem C9_draw_is_state_pure :
  paints Cloud_draw /\ paints CelestialBody_draw /\ paints Windmill_draw /\
  forall (w : World) (n : nat),
    scene_ok w = true ->
    (exists cmds, repeat_call n Scene_drawAll w = Ok (tt, painted cmds w)) /\
    (exists cmds, repeat_call n display w = Ok (tt, painted cmds w)).
Proof.
  split; [apply paints_Cloud_draw|].
  split; [apply paints_CelestialBody_draw|].
  split; [apply paints_Windmill_draw|].
  intros w n Hw. split.
  - destruct (renders_repeat_call n _ renders_drawAll w Hw) as ([] & c & E); eauto.
  - destruct (renders_repeat_call n _ renders_display w Hw) as ([] & c & E); eauto.
Qed.

(** *** Selecting a windmill that does not exist *)

(** The 1-based index a digit key stands for ([key - '0']). *)
Definition digit_index (key : ascii) : Z :=
  Z.of_nat (nat_of_ascii key) - Z.of_nat (nat_of_ascii "0").

(** C7. In every state with a scene, a digit key whose 1-based index is
    greater than the number of windmills changes nothing: the handler
    returns normally, the selected index, the scene, every entity and
    every flag are as before, nothing is written to the console; only the
    redisplay request that ends every key event is issued. *)
Theorem C7_select_beyond_count_is_noop (w : World) (sc : Scene) (key : ascii) :
  scene w = Some sc ->
  1 <= digit_index key <= 9 ->
  Z.of_nat (length (windmills sc)) < digit_index key ->
  keyboard key w = Ok (tt, painted [GlutPostRedisplay] w).
Proof.
  intros Hsc Hd Hn.
  assert (Hguard : ((0 <? digit_index key)
                    && (digit_index key <=? Z.of_nat (length (windmills sc))))%Z = false).
  { apply andb_false_iff. right. apply Z.leb_gt. lia. }
  assert (Hstatic : run_static (emit GlutPostRedisplay) w
                    = Ok (tt, painted [GlutPostRedisplay] w)) by reflexivity.
  destruct key as [b0 b1 b2 b3 b4 b5 b6 b7].
  destruct b0, b1, b2, b3, b4, b5, b6, b7;
    try (exfalso; clear -Hd; set (d := digit_index _) in Hd;
         vm_compute in d; subst d; lia);
    unfold keyboard; cbv beta iota; try exact Hstatic;
    unfold digit_index in Hguard.
  all: unfold bind at 1, on_select; cbv zeta;
    unfold bind at 1, the_scene at 1; rewrite Hsc;
    rewrite Hguard; unfold ret; exact Hstatic.
Qed.

(** *** The speed of a windmill *)

(** The two mutators as functions of the speed alone. *)
Definition faster (s : spec_float) : spec_float :=
  let s1 := (s + F32.lit 5 1)%f32 in
  if (s1 >? F32.of_Z 15)%f32 then F32.of_Z 15 else s1.

Definition slower (s : spec_float) : spec_float :=
  let s1 := (s - F32.lit 5 1)%f32 in
  if (s1 <? F32.lit 5 1)%f32 then F32.lit 5 1 else s1.

Lemma Windmill_increaseSpeed_eq wm e :
  Windmill_increaseSpeed (wm, e)
  = Ok (tt, (set_rotationSpeed (faster (rotationSpeed wm)) wm, e)).
Proof.
  unfold Windmill_increaseSpeed, faster, bind, self, set_self.
  cbn beta iota delta [fst snd rotationSpeed set_rotationSpeed].
  by destruct (_ >? _)%f32.
Qed.

Lemma Windmill_decreaseSpeed_eq wm e :
  Windmill_decreaseSpeed (wm, e)
  = Ok (tt, (set_rotationSpeed (slower (rotationSpeed wm)) wm, e)).
Proof.
  unfold Windmill_decreaseSpeed, slower, bind, self, set_self.
  cbn beta iota delta [fst snd rotationSpeed set_rotationSpeed].
  by destruct (_ <? _)%f32.
Qed.

(** The speed key pressed for the selected windmill. *)
Inductive speed_change := Increase | Decrease.

Definition change_speed (c : speed_change) : Meth Windmill unit :=
  match c with
  | Increase => Windmill_increaseSpeed
  | Decrease => Windmill_decreaseSpeed
  end.

(** What the specification says of one call, counted in steps of 0.5:
    one step up or down, kept within 1 (0.5) and 30 (15.0). *)
Definition clamped_step (c : speed_change) (n : Z) : Z :=
  match c with
  | Increase => Z.min (n + 1) 30
  | Decrease => Z.max (n - 1) 1
  end.

Definition clamped_walk (cs : list speed_change) (n : Z) : Z :=
  fold_left (fun n c => clamped_step c n) cs n.

(** The binary32 value [n * 0.5]. *)
Definition halves (n : Z) : spec_float := (F32.of_Z n / F32.of_Z 2)%f32.

Lemma halves_cases (P : Z -> Prop) :
  (forall k : nat, (k < 30)%nat -> P (Z.of_nat k + 1)) ->
  forall n, 1 <= n <= 30 -> P n.
Proof.
  intros H n Hn. replace n with (Z.of_nat (Z.to_nat (n - 1)) + 1) by lia.
  apply H. lia.
Qed.

Lemma faster_halves n :
  1 <= n <= 30 -> faster (halves n) = halves (clamped_step Increase n).
Proof.
  revert n. apply halves_cases. intros k Hk.
  do 30 (destruct k as [|k]; [vm_compute; reflexivity|]). lia.
Qed.

Lemma slower_halves n :
  1 <= n <= 30 -> slower (halves n) = halves (clamped_step Decrease n).
Proof.
  revert n. apply halves_cases. intros k Hk.
  do 30 (destruct k as [|k]; [vm_compute; reflexivity|]). lia.
Qed.

Lemma halves_in_range n :
  1 <= n <= 30 ->
  (F32.lit 5 1 <=? halves n)%f32 = true /\ (halves n <=? F32.of_Z 15)%f32 = true.
Proof.
  revert n. apply halves_cases. intros k Hk.
  do 30 (destruct k as [|k]; [vm_compute; split; reflexivity|]). lia.
Qed.

Lemma clamped_step_range c n : 1 <= n <= 30 -> 1 <= clamped_step c n <= 30.
Proof. destruct c; simpl; lia. Qed.

Lemma clamped_walk_range cs n : 1 <= n <= 30 -> 1 <= clamped_walk cs n <= 30.
Proof.
  revert n. induction cs as [|c cs IH]; intros n Hn; simpl; [done|].
  apply IH. by apply clamped_step_range.
Qed.

Lemma change_speed_walk cs wm e n :
  1 <= n <= 30 ->
  rotationSpeed wm = halves n ->
  for_each cs change_speed (wm, e)
  = Ok (tt, (set_rotationSpeed (halves (clamped_walk cs n)) wm, e)).
Proof.
  revert wm n. induction cs as [|c cs IH]; intros wm n Hn Hs.
  - simpl. unfold ret. rewrite <- Hs. by destruct wm.
  - cbn [for_each clamped_walk fold_left]. unfold bind.
    assert (Hc : change_speed c (wm, e)
                 = Ok (tt, (set_rotationSpeed (halves (clamped_step c n)) wm, e))).
    { destruct c; cbn [change_speed].
      - by rewrite Windmill_increaseSpeed_eq, Hs, faster_halves.
      - by rewrite Windmill_decreaseSpeed_eq, Hs, slower_halves. }
    rewrite Hc.
    rewrite (IH _ (clamped_step c n)); [done| by apply clamped_step_range | done].
Qed.

(** C3. A windmill is constructed with speed 2.0.  After any sequence of
    [increaseSpeed()] and [decreaseSpeed()] calls on it, the calls have
    all returned normally, nothing but the speed has changed (no message,
    no flag), and the speed is the binary32 value of [n * 0.5], where [n]
    is obtained from 4 by one clamped step of one half per call, up for an
    increase and down for a decrease, kept within [1, 30]; so the speed is
    at least 0.5 and at most 15.0. *)
Theorem C3_speed_stays_clamped
    (posX posY tWidth tHeight bLength : spec_float) (blades : Z)
    (e : Env) (cs : list speed_change) :
  exists wm e',
    Windmill_new (T := unit) posX posY tWidth tHeight bLength blades (tt, e)
      = Ok (wm, (tt, e')) /\
    rotationSpeed wm = F32.of_Z 2 /\
    let n := clamped_walk cs 4 in
    for_each cs change_speed (wm, e')
      = Ok (tt, (set_rotationSpeed (halves n) wm, e')) /\
    1 <= n <= 30 /\
    (F32.lit 5 1 <=? halves n)%f32 = true /\
    (halves n <=? F32.of_Z 15)%f32 = true.
Proof.
  eexists _, _. split; [reflexivity|]. split; [reflexivity|].
  cbv zeta. assert (Hn : 1 <= clamped_walk cs 4 <= 30) by (apply clamped_walk_range; lia).
  split; [|split; [done|by apply halves_in_range]].
  apply change_speed_walk; [lia|]. vm_compute. reflexivity.
Qed.

(** *** One tick of the rotating entities *)

(** The new blade angle and the new animation phase, as functions of the
    fields the two [update()] methods read. *)
Definition blade_step (a s : spec_float) : spec_float :=
  let a1 := (a + s)%f32 in
  if (a1 >=? F32.of_Z 360)%f32 then (a1 - F32.of_Z 360)%f32 else a1.

Definition phase_step (a : spec_float) : spec_float :=
  let a1 := (a + F32.lit 3 1)%f32 in
  if (a1 >=? F32.of_Z 360)%f32 then F32.of_Z 0 else a1.

Lemma Windmill_update_eq wm e :
  Windmill_update (wm, e)
  = Ok (tt, (if isPaused e || negb (isRotating wm) then wm
             else set_bladeAngle (blade_step (bladeAngle wm) (rotationSpeed wm)) wm,
             e)).
Proof.
  unfold Windmill_update, blade_step, bind, self, set_self, global, ret.
  cbn beta iota delta [fst snd bladeAngle set_bladeAngle].
  destruct (isPaused e || negb (isRotating wm)); [done|].
  by destruct (_ >=? _)%f32.
Qed.

Lemma CelestialBody_update_eq cb e :
  CelestialBody_update (cb, e)
  = Ok (tt, (if isPaused e || negb (animateCelestial e) then cb
             else set_angle (phase_step (angle cb)) cb,
             e)).
Proof.
  unfold CelestialBody_update, phase_step, bind, self, set_self, global, ret.
  cbn beta iota delta [fst snd angle set_angle].
  destruct (isPaused e || negb (animateCelestial e)); [done|].
  by destruct (_ >=? _)%f32.
Qed.

(** C10. When a tick of the celestial body (not paused, animation on)
    raises the phase to 360 or more, the phase becomes exactly 0 and the
    excess over 360 is dropped; a tick of a windmill (not paused,
    rotating) that raises the blade angle to 360 or more subtracts 360
    and so keeps the excess. *)
Theorem C10_celestial_wrap_resets_to_zero (e : Env) :
  isPaused e = false ->
  (forall cb,
     animateCelestial e = true ->
     (angle cb + F32.lit 3 1 >=? F32.of_Z 360)%f32 = true ->
     CelestialBody_update (cb, e) = Ok (tt, (set_angle (F32.of_Z 0) cb, e))) /\
  (forall wm,
     isRotating wm = true ->
     (bladeAngle wm + rotationSpeed wm >=? F32.of_Z 360)%f32 = true ->
     Windmill_update (wm, e)
     = Ok (tt, (set_bladeAngle
                  (bladeAngle wm + rotationSpeed wm - F32.of_Z 360)%f32 wm, e))).
Proof.
  intros Hp. split.
  - intros cb Ha Hge. rewrite CelestialBody_update_eq, Hp, Ha. cbn [orb negb].
    unfold phase_step. cbv zeta. by rewrite Hge.
  - intros wm Hr Hge. rewrite Windmill_update_eq, Hp, Hr. cbn [orb negb].
    unfold blade_step. cbv zeta. by rewrite Hge.
Qed.

(** *** Ownership: the invariant of the running program *)

(** The dynamic type of an object and, for a windmill, its identity:
    what no method ever changes. *)
Definition same_kind (o o' : Entity) : Prop :=
  match o, o' with
  | ECloud _, ECloud _ => True
  | ECelestialBody _, ECelestialBody _ => True
  | EWindmill wm, EWindmill wm' => id wm = id wm'
  | _, _ => False
  end.

(** The scene [sc] of world [w] owns exactly the objects of the free
    store, once each; its windmill view lists the windmills among them in
    insertion order; the static counter is their number; the windmill at
    position [i] carries identity [i + 1]; and the selection is at least
    1 and in range unless it is the default 1. *)
Record consistent (w : World) (sc : Scene) : Prop := {
  inv_scene : scene w = Some sc;
  inv_nodup : NoDup (objects sc);
  inv_owned : forall p, p ∈ objects sc <-> is_Some (heap w !! p);
  inv_view : windmills sc = List.filter (is_windmill_at (heap w)) (objects sc);
  inv_count : windmillCount (env w) = Z.of_nat (length (windmills sc));
  inv_ids : forall i p, windmills sc !! i = Some p ->
              exists wm, heap w !! p = Some (EWindmill wm) /\ id wm = Z.of_nat i + 1;
  inv_sel : 1 <= selectedWindmill (env w) /\
            (selectedWindmill (env w) <= Z.of_nat (length (windmills sc))
             \/ selectedWindmill (env w) = 1) }.

Lemma filter_ext_in_heap (h h' : gmap nat Entity) (l : list nat) :
  (forall p, p ∈ l -> is_windmill_at h' p = is_windmill_at h p) ->
  List.filter (is_windmill_at h') l = List.filter (is_windmill_at h) l.
Proof.
  induction l as [|q l IH]; intros H; simpl; [done|].
  rewrite (H q) by set_solver. rewrite IH; [done|].
  intros p Hp. apply H. set_solver.
Qed.

Lemma is_windmill_at_insert h p o q :
  is_windmill_at (<[p := o]> h) q
  = if decide (p = q) then match o with EWindmill _ => true | _ => false end
    else is_windmill_at h q.
Proof.
  unfold is_windmill_at. destruct (decide (p = q)) as [->|Hne].
  - by rewrite lookup_insert_eq.
  - by rewrite lookup_insert_ne.
Qed.

Lemma consistent_scene_ok w sc : consistent w sc -> scene_ok w = true.
Proof.
  intros [Hsc _ Hown Hview _ _ _]. unfold scene_ok. rewrite Hsc.
  apply andb_true_iff. split; apply forallb_forall; intros p Hp.
  - apply list_elem_of_In, Hown in Hp as [o Ho]. unfold is_live. by rewrite Ho.
  - rewrite Hview in Hp. by apply filter_In in Hp as [_ Hp].
Qed.

(** Changes of the process state that leave the two static members alone. *)
Lemma consistent_env w sc e' :
  consistent w sc ->
  windmillCount e' = windmillCount (env w) ->
  selectedWindmill e' = selectedWindmill (env w) ->
  consistent (mkWorld e' (heap w) (scene w)) sc.
Proof.
  intros [Hsc Hnd Hown Hview Hcnt Hids Hsel] Hc Hs.
  split; simpl; try done; congruence.
Qed.

Lemma consistent_painted w sc c : consistent w sc -> consistent (painted c w) sc.
Proof. intros H. by apply consistent_env. Qed.

(** A method call that keeps the kind and identity of its receiver. *)
Lemma consistent_update w sc p o o' e' :
  consistent w sc ->
  heap w !! p = Some o ->
  same_kind o o' ->
  windmillCount e' = windmillCount (env w) ->
  selectedWindmill e' = selectedWindmill (env w) ->
  consistent (mkWorld e' (<[p := o']> (heap w)) (scene w)) sc.
Proof.
  intros [Hsc Hnd Hown Hview Hcnt Hids Hsel] Hp Hk Hc Hs.
  assert (Hw : forall q, is_windmill_at (<[p := o']> (heap w)) q
                         = is_windmill_at (heap w) q).
  { intros q. rewrite is_windmill_at_insert. destruct (decide (p = q)) as [<-|]; [|done].
    unfold is_windmill_at. rewrite Hp. by destruct o, o'. }
  split; simpl; try done; try congruence.
  - intros q. rewrite Hown. destruct (decide (p = q)) as [<-|Hne].
    + rewrite lookup_insert_eq, Hp. split; eauto.
    + by rewrite lookup_insert_ne.
  - rewrite Hview. symmetry. apply filter_ext_in_heap. intros q _. apply Hw.
  - intros i q Hq. destruct (Hids i q Hq) as (wm & Hwm & Hid).
    destruct (decide (p = q)) as [<-|Hne].
    + rewrite lookup_insert_eq. rewrite Hp in Hwm. injection Hwm as ->.
      destruct o' as [| |wm']; try done. exists wm'. split; [done|].
      simpl in Hk. congruence.
    + rewrite lookup_insert_ne by done. eauto.
Qed.

(** The selection moves to a windmill that exists. *)
Lemma consistent_select w sc e' :
  consistent w sc ->
  windmillCount e' = windmillCount (env w) ->
  1 <= selectedWindmill e' ->
  selectedWindmill e' <= Z.of_nat (length (windmills sc)) \/ selectedWindmill e' = 1 ->
  consistent (mkWorld e' (heap w) (scene w)) sc.
Proof.
  intros [Hsc Hnd Hown Hview Hcnt Hids Hsel] Hc H1 H2.
  split; simpl; try done; congruence.
Qed.

(** A new object at a fresh address. *)
Lemma fresh_not_owned (h : gmap nat Entity) : h !! fresh (dom h) = None.
Proof. apply not_elem_of_dom, is_fresh. Qed.

Lemma consistent_add_cloud w sc c p :
  consistent w sc ->
  heap w !! p = None ->
  consistent
    (mkWorld (env w) (<[p := ECloud c]> (heap w))
       (Some (mkScene (objects sc ++ [p]) (windmills sc) (clouds sc ++ [p])
                      (celestialBody sc))))
    (mkScene (objects sc ++ [p]) (windmills sc) (clouds sc ++ [p]) (celestialBody sc)).
Proof.
  intros [Hsc Hnd Hown Hview Hcnt Hids Hsel] Hp.
  assert (Hnp : p ∉ objects sc).
  { intros Hin. apply Hown in Hin as [o Ho]. congruence. }
  split; simpl; try done.
  - apply NoDup_app. split; [done|]. split; [|apply NoDup_singleton].
    intros q Hq ->%list_elem_of_singleton. done.
  - intros q. rewrite elem_of_app, list_elem_of_singleton, Hown.
    destruct (decide (p = q)) as [<-|Hne].
    + rewrite lookup_insert_eq. split; eauto.
    + rewrite lookup_insert_ne by done. split; [intros [?|?]; [done|congruence]|eauto].
  - rewrite List.filter_app. simpl. rewrite is_windmill_at_insert, decide_True by done.
    rewrite app_nil_r, Hview. symmetry. apply filter_ext_in_heap.
    intros q Hq. rewrite is_windmill_at_insert, decide_False; [done|].
    intros <-. done.
  - intros i q Hq. destruct (Hids i q Hq) as (wm & Hwm & Hid).
    exists wm. split; [|done]. rewrite lookup_insert_ne; [done|]. congruence.
Qed.

Lemma consistent_add_celestial w sc cb p :
  consistent w sc ->
  heap w !! p = None ->
  consistent
    (mkWorld (env w) (<[p := ECelestialBody cb]> (heap w))
       (Some (mkScene (objects sc ++ [p]) (windmills sc) (clouds sc) (Some p))))
    (mkScene (objects sc ++ [p]) (windmills sc) (clouds sc) (Some p)).
Proof.
  intros [Hsc Hnd Hown Hview Hcnt Hids Hsel] Hp.
  assert (Hnp : p ∉ objects sc).
  { intros Hin. apply Hown in Hin as [o Ho]. congruence. }
  split; simpl; try done.
  - apply NoDup_app. split; [done|]. split; [|apply NoDup_singleton].
    intros q Hq ->%list_elem_of_singleton. done.
  - intros q. rewrite elem_of_app, list_elem_of_singleton, Hown.
    destruct (decide (p = q)) as [<-|Hne].
    + rewrite lookup_insert_eq. split; eauto.
    + rewrite lookup_insert_ne by done. split; [intros [?|?]; [done|congruence]|eauto].
  - rewrite List.filter_app. simpl. rewrite is_windmill_at_insert, decide_True by done.
    rewrite app_nil_r, Hview. symmetry. apply filter_ext_in_heap.
    intros q Hq. rewrite is_windmill_at_insert, decide_False; [done|].
    intros <-. done.
  - intros i q Hq. destruct (Hids i q Hq) as (wm & Hwm & Hid).
    exists wm. split; [|done]. rewrite lookup_insert_ne; [done|]. congruence.
Qed.

(** A new windmill, constructed when the counter stood at the number of
    windmills of the scene. *)
Lemma consistent_add_windmill w sc wm p e' :
  consistent w sc ->
  heap w !! p = None ->
  id wm = windmillCount (env w) + 1 ->
  windmillCount e' = windmillCount (env w) + 1 ->
  selectedWindmill e' = selectedWindmill (env w) ->
  consistent
    (mkWorld e' (<[p := EWindmill wm]> (heap w))
       (Some (mkScene (objects sc ++ [p]) (windmills sc ++ [p]) (clouds sc)
                      (celestialBody sc))))
    (mkScene (objects sc ++ [p]) (windmills sc ++ [p]) (clouds sc) (celestialBody sc)).
Proof.
  intros [Hsc Hnd Hown Hview Hcnt Hids Hsel] Hp Hid Hc Hs.
  assert (Hnp : p ∉ objects sc).
  { intros Hin. apply Hown in Hin as [o Ho]. congruence. }
  split; simpl; try done.
  - apply NoDup_app. split; [done|]. split; [|apply NoDup_singleton].
    intros q Hq ->%list_elem_of_singleton. done.
  - intros q. rewrite elem_of_app, list_elem_of_singleton, Hown.
    destruct (decide (p = q)) as [<-|Hne].
    + rewrite lookup_insert_eq. split; eauto.
    + rewrite lookup_insert_ne by done. split; [intros [?|?]; [done|congruence]|eauto].
  - rewrite List.filter_app. simpl. rewrite is_windmill_at_insert, decide_True by done.
    rewrite Hview at 1. f_equal. symmetry. apply filter_ext_in_heap.
    intros q Hq. rewrite is_windmill_at_insert, decide_False; [done|].
    intros <-. done.
  - rewrite length_app. simpl. lia.
  - intros i q Hq. apply lookup_app_Some in Hq as [Hq|[Hlen Hq]].
    + destruct (Hids i q Hq) as (wm' & Hwm & Hid').
      exists wm'. split; [|done]. rewrite lookup_insert_ne; [done|]. congruence.
    + apply list_lookup_singleton_Some in Hq as [Hi <-].
      exists wm. rewrite lookup_insert_eq. split; [done|]. lia.
  - rewrite Hs, length_app. simpl. lia.
Qed.

(** *** Clearing the scene *)

(** The free store once the objects at [l] have been released. *)
Definition released (l : list nat) (h : gmap nat Entity) : gmap nat Entity :=
  fold_left (fun h p => delete p h) l h.

(** The number of windmills among the objects at [l]. *)
Definition windmills_among (l : list nat) (h : gmap nat Entity) : Z :=
  Z.of_nat (length (List.filter (is_windmill_at h) l)).

Lemma set_windmillCount_same e : set_windmillCount (windmillCount e - 0) e = e.
Proof. destruct e. unfold set_windmillCount. simpl. by rewrite Z.sub_0_r. Qed.

Lemma released_lookup l h q :
  released l h !! q = if decide (q ∈ l) then None else h !! q.
Proof.
  revert h. induction l as [|p l IH]; intros h; unfold released; cbn [fold_left].
  - case_decide as Hin; [by apply elem_of_nil in Hin|done].
  - fold (released l (delete p h)). rewrite IH.
    destruct (decide (p = q)) as [<-|Hne].
    + rewrite lookup_delete_eq.
      destruct (decide (p ∈ l)) as [Hin|Hin], (decide (p ∈ p :: l)) as [Hin'|Hin'];
        try done; exfalso; apply Hin'; by left.
    + rewrite lookup_delete_ne by done.
      destruct (decide (q ∈ l)) as [Hin|Hin], (decide (q ∈ p :: l)) as [Hin'|Hin'];
        try done; exfalso.
      * apply Hin'. by right.
      * by apply elem_of_cons in Hin' as [?|?].
Qed.

Lemma delete_object_eq w p o :
  heap w !! p = Some o ->
  delete_object p w
  = Ok (tt, mkWorld (set_windmillCount
                       (windmillCount (env w) - windmills_among [p] (heap w)) (env w))
                    (delete p (heap w)) (scene w)).
Proof.
  intros Hp. unfold delete_object, bind, virtual, windmills_among. rewrite Hp.
  cbn [List.filter]. unfold is_windmill_at at 1. rewrite Hp.
  destruct o as [c|cb|wm]; unfold run_on; cbn;
    rewrite ?insert_id, ?delete_insert_eq by done; try by rewrite set_windmillCount_same.
  done.
Qed.

Lemma delete_objects_eq l : forall w,
  NoDup l ->
  (forall p, p ∈ l -> is_Some (heap w !! p)) ->
  for_each l delete_object w
  = Ok (tt, mkWorld (set_windmillCount
                       (windmillCount (env w) - windmills_among l (heap w)) (env w))
                    (released l (heap w)) (scene w)).
Proof.
  induction l as [|p l IH]; intros w Hnd Hl.
  - cbn. unfold ret, windmills_among. cbn. by rewrite set_windmillCount_same, world_eta.
  - apply NoDup_cons in Hnd as [Hp Hnd].
    destruct (Hl p) as [o Ho]; [set_solver|].
    cbn [for_each]. unfold bind. rewrite (delete_object_eq w p o Ho).
    rewrite IH; [|done|].
    + cbn [env heap scene released fold_left]. do 3 f_equal.
      assert (Hf : List.filter (is_windmill_at (delete p (heap w))) l
                   = List.filter (is_windmill_at (heap w)) l).
      { apply filter_ext_in_heap. intros q Hq. unfold is_windmill_at.
        rewrite lookup_delete_ne; [done|]. intros <-. done. }
      unfold windmills_among, set_windmillCount. cbn. rewrite Hf.
      f_equal. destruct (is_windmill_at (heap w) p); cbn [length]; lia.
    + intros q Hq. cbn [heap]. rewrite lookup_delete_ne; [apply Hl; set_solver|].
      intros <-. done.
Qed.

Lemma Scene_clear_eq w sc :
  scene w = Some sc ->
  NoDup (objects sc) ->
  (forall p, p ∈ objects sc -> is_Some (heap w !! p)) ->
  Scene_clear w
  = Ok (tt, mkWorld (set_windmillCount
                       (windmillCount (env w) - windmills_among (objects sc) (heap w))
                       (env w))
                    (released (objects sc) (heap w)) (Some Scene_new)).
Proof.
  intros Hsc Hnd Hl. unfold Scene_clear.
  unfold bind at 1, the_scene at 1. rewrite Hsc.
  unfold bind at 1. rewrite (delete_objects_eq _ w Hnd Hl).
  unfold bind, the_scene, set_scene. cbn [scene]. by rewrite Hsc.
Qed.

(** C8. [Scene::clear()], in a scene that owns its objects (each pointer of
    the master sequence points to an object, none twice), returns normally;
    every object it owned has been released (running its destructor, so
    the live counter has gone down by the number of windmills) and no other
    object is touched; the master sequence, the windmill view and the cloud
    view are empty and the celestial body is absent, which is exactly the
    state [Scene::Scene()] produces.  [drawAll()] and [updateAll()] called
    next return normally and change nothing at all: they visit no entity. *)
Theorem C8_clear_leaves_fresh_empty_scene (w : World) (sc : Scene) :
  scene w = Some sc ->
  NoDup (objects sc) ->
  (forall p, p ∈ objects sc -> is_Some (heap w !! p)) ->
  exists w',
    Scene_clear w = Ok (tt, w') /\
    scene w' = Some Scene_new /\
    (forall p, heap w' !! p = if decide (p ∈ objects sc) then None else heap w !! p) /\
    env w' = set_windmillCount
               (windmillCount (env w) - windmills_among (objects sc) (heap w)) (env w) /\
    Scene_drawAll w' = Ok (tt, w') /\
    Scene_updateAll w' = Ok (tt, w').
Proof.
  intros Hsc Hnd Hl. eexists. split; [by apply Scene_clear_eq|].
  split; [done|]. split; [intros p; apply released_lookup|].
  split; [done|]. split; reflexivity.
Qed.

(** *** Every handler keeps the invariant and never faults *)

Definition Inv (w : World) : Prop := exists sc, consistent w sc.

Definition keeps_invariant (m : Prog unit) : Prop :=
  forall w, Inv w ->
    match m w with
    | Ok (_, w') => Inv w'
    | Exited _ => True
    | Fault => False
    end.

Lemma keeps_ret : keeps_invariant (ret tt).
Proof. by intros w Hw. Qed.

Lemma keeps_bind (m1 m2 : Prog unit) :
  keeps_invariant m1 -> keeps_invariant m2 -> keeps_invariant (m1 ;;; m2).
Proof.
  intros H1 H2 w Hw. unfold bind. specialize (H1 w Hw).
  destruct (m1 w) as [[[] w1]|?|]; [by apply H2|done|done].
Qed.

Lemma keeps_renders (m : Prog unit) : renders m -> keeps_invariant m.
Proof.
  intros Hm w [sc Hw]. destruct (Hm w (consistent_scene_ok w sc Hw)) as ([] & c & ->).
  exists sc. by apply consistent_painted.
Qed.

(** Code without a receiver that leaves the two static members alone. *)
Definition quiet {A : Type} (m : Meth unit A) : Prop :=
  forall e, exists a e',
    m (tt, e) = Ok (a, (tt, e')) /\
    windmillCount e' = windmillCount e /\
    selectedWindmill e' = selectedWindmill e.

Lemma keeps_run_static (m : Meth unit unit) : quiet m -> keeps_invariant (run_static m).
Proof.
  intros Hm w [sc Hw]. unfold run_static.
  destruct (Hm (env w)) as ([] & e' & -> & Hc & Hs).
  exists sc. by apply consistent_env.
Qed.

Lemma quiet_print items : quiet (print items).
Proof. intros e. by eexists _, _. Qed.

Lemma keeps_on_select key : keeps_invariant (on_select key).
Proof.
  intros w [sc Hw]. unfold on_select. cbv zeta.
  unfold bind at 1, the_scene. rewrite (inv_scene w sc Hw).
  set (selection := (Z.of_nat (nat_of_ascii key) - Z.of_nat (nat_of_ascii "0"))%Z).
  destruct ((0 <? selection) && (selection <=? Z.of_nat (length (windmills sc))))
    eqn:Hg; [|by exists sc].
  apply andb_true_iff in Hg as [H0 H1]. apply Z.ltb_lt in H0. apply Z.leb_le in H1.
  cbn. exists sc. apply consistent_select; cbn; [done|done|lia|lia].
Qed.

Lemma keeps_on_day : keeps_invariant on_day.
Proof. apply keeps_run_static. intros e. by eexists _, _. Qed.

Lemma keeps_on_night : keeps_invariant on_night.
Proof. apply keeps_run_static. intros e. by eexists _, _. Qed.

Lemma keeps_on_sun : keeps_invariant on_sun.
Proof.
  intros w [sc Hw]. exists sc. cbn. by apply consistent_env.
Qed.

Lemma keeps_on_pause : keeps_invariant on_pause.
Proof.
  intros w [sc Hw]. exists sc. cbn. by apply consistent_env.
Qed.


(** Adding a new entity to the scene, followed by [k]. *)
Lemma new_Windmill_eq posX posY tWidth tHeight bLength blades w :
  new_Windmill posX posY tWidth tHeight bLength blades w
  = Ok (fresh (dom (heap w)),
        mkWorld (set_windmillCount (windmillCount (env w) + 1) (env w))
          (<[fresh (dom (heap w)) :=
               EWindmill (mkWindmill (mkDrawable posX posY true) (F32.of_Z 0)
                            (F32.of_Z 2) true tWidth tHeight bLength blades
                            (windmillCount (env w) + 1))]> (heap w))
          (scene w)).
Proof. reflexivity. Qed.

Lemma Scene_addWindmill_eq w sc p :
  scene w = Some sc ->
  Scene_addWindmill p w
  = Ok (tt, mkWorld (env w) (heap w)
              (Some (mkScene (objects sc ++ [p]) (windmills sc ++ [p]) (clouds sc)
                             (celestialBody sc)))).
Proof.
  intros H. unfold Scene_addWindmill, bind, the_scene, set_scene. cbn [scene].
  by rewrite H.
Qed.

Lemma Scene_addCloud_eq w sc p :
  scene w = Some sc ->
  Scene_addCloud p w
  = Ok (tt, mkWorld (env w) (heap w)
              (Some (mkScene (objects sc ++ [p]) (windmills sc) (clouds sc ++ [p])
                             (celestialBody sc)))).
Proof.
  intros H. unfold Scene_addCloud, bind, the_scene, set_scene. cbn [scene].
  by rewrite H.
Qed.

Lemma Scene_setCelestialBody_eq w sc p :
  scene w = Some sc ->
  Scene_setCelestialBody p w
  = Ok (tt, mkWorld (env w) (heap w)
              (Some (mkScene (objects sc ++ [p]) (windmills sc) (clouds sc) (Some p)))).
Proof.
  intros H. unfold Scene_setCelestialBody, bind, the_scene, set_scene. cbn [scene].
  by rewrite H.
Qed.

Lemma keeps_new_windmill posX posY tWidth tHeight bLength blades (k : Prog unit) :
  keeps_invariant k ->
  keeps_invariant
    (let* p := new_Windmill posX posY tWidth tHeight bLength blades in
     Scene_addWindmill p ;;; k).
Proof.
  intros Hk w [sc Hw]. unfold bind at 1. rewrite new_Windmill_eq.
  unfold bind at 1. rewrite (Scene_addWindmill_eq _ sc) by apply Hw.
  apply Hk. eexists. cbn [env heap scene].
  apply (consistent_add_windmill w sc _ _ _ Hw); [apply fresh_not_owned|done..].
Qed.

Lemma keeps_new_cloud posX posY spd sz (k : Prog unit) :
  keeps_invariant k ->
  keeps_invariant (let* p := new_Cloud posX posY spd sz in Scene_addCloud p ;;; k).
Proof.
  intros Hk w [sc Hw]. unfold bind at 1, new_Cloud at 1, new at 1.
  unfold bind at 1. rewrite (Scene_addCloud_eq _ sc) by apply Hw.
  apply Hk. eexists. cbn [env heap scene].
  apply (consistent_add_cloud w sc _ _ Hw), fresh_not_owned.
Qed.

Lemma keeps_new_celestial posX posY rad col :
  keeps_invariant
    (let* p := new_CelestialBody posX posY rad col in Scene_setCelestialBody p).
Proof.
  intros w [sc Hw]. unfold bind at 1, new_CelestialBody at 1, new at 1.
  rewrite (Scene_setCelestialBody_eq _ sc) by apply Hw.
  eexists. cbn [env heap scene].
  apply (consistent_add_celestial w sc _ _ Hw), fresh_not_owned.
Qed.

(** Reading [rand()] or a flag first does not matter. *)
Lemma keeps_after_quiet {A : Type} (m : Meth unit A) (k : A -> Prog unit) :
  quiet m -> (forall a, keeps_invariant (k a)) ->
  keeps_invariant (let* a := run_static m in k a).
Proof.
  intros Hm Hk w [sc Hw]. unfold bind, run_static.
  destruct (Hm (env w)) as (a & e' & -> & Hc & Hs).
  apply Hk. exists sc. by apply consistent_env.
Qed.

Lemma quiet_randomFloat min max : quiet (randomFloat min max).
Proof. intros e. by eexists _, _. Qed.

Lemma keeps_on_cloud : keeps_invariant on_cloud.
Proof.
  unfold on_cloud.
  do 3 (apply keeps_after_quiet; [apply quiet_randomFloat|intros ?]).
  apply keeps_new_cloud, keeps_run_static, quiet_print.
Qed.

Lemma keeps_on_windmill : keeps_invariant on_windmill.
Proof.
  unfold on_windmill.
  do 2 (apply keeps_after_quiet; [apply quiet_randomFloat|intros ?]).
  apply keeps_new_windmill, keeps_after_quiet; [by intros e; eexists _, _|intros n].
  apply keeps_run_static, quiet_print.
Qed.

Lemma keeps_on_reset : keeps_invariant on_reset.
Proof.
  intros w [sc Hw]. unfold on_reset.
  unfold bind at 1. cbn [run_static print set_global fst snd].
  unfold bind at 1.
  rewrite (Scene_clear_eq _ sc); cbn [env heap scene];
    [|apply Hw|apply Hw|intros p Hp; by apply (inv_owned w sc Hw)].
  cbn. exists Scene_new.
  assert (Hrel : forall p, released (objects sc) (heap w) !! p = None).
  { intros p. rewrite released_lookup. destruct (decide (p ∈ objects sc)); [done|].
    apply eq_None_not_Some. by rewrite <- (inv_owned w sc Hw). }
  split; cbn.
  - done.
  - apply NoDup_nil_2.
  - intros p. rewrite Hrel. split; [by intros ?%elem_of_nil|by intros [? ?]].
  - done.
  - unfold windmills_among. rewrite <- (inv_view w sc Hw), (inv_count w sc Hw). lia.
  - intros i p Hp. by rewrite lookup_nil in Hp.
  - lia.
Qed.

(** The quit key: the state the process ends in. *)
Lemma on_quit_eq w sc :
  consistent w sc ->
  on_quit w
  = Exited (mkWorld
              (set_windmillCount
                 (windmillCount (env w) - windmills_among (objects sc) (heap w))
                 (set_cout (cout (env w) ++ [OStr "Exiting..."; OEndl]) (env w)))
              (released (objects sc) (heap w)) (scene w)).
Proof.
  intros Hw. unfold on_quit.
  unfold bind at 1. cbn [run_static print set_global fst snd].
  unfold bind at 1, Scene_delete. cbn [scene].
  rewrite (inv_scene w sc Hw).
  rewrite delete_objects_eq; cbn [env heap scene];
    [done|apply Hw|intros p Hp; by apply (inv_owned w sc Hw)].
Qed.

Lemma never_faults_on_quit w : Inv w -> exists w', on_quit w = Exited w'.
Proof. intros [sc Hw]. eexists. by apply on_quit_eq. Qed.

Lemma keeps_on_quit : keeps_invariant on_quit.
Proof. intros w Hw. by destruct (never_faults_on_quit w Hw) as [w' ->]. Qed.

(** A method called on a windmill of the scene. *)
Lemma invoke_windmill_eq {A : Type} (m : Meth Windmill A) w p wm a wm' e' :
  heap w !! p = Some (EWindmill wm) ->
  m (wm, env w) = Ok (a, (wm', e')) ->
  invoke as_windmill EWindmill p m w
  = Ok (a, mkWorld e' (<[p := EWindmill wm']> (heap w)) (scene w)).
Proof. intros Hp Hm. unfold invoke, run_on. rewrite Hp. cbn. by rewrite Hm. Qed.

Lemma keeps_adjust_speed (m : Meth Windmill unit) (f : spec_float -> spec_float) msg :
  (forall wm e, m (wm, e) = Ok (tt, (set_rotationSpeed (f (rotationSpeed wm)) wm, e))) ->
  keeps_invariant (adjust_speed m msg).
Proof.
  intros Hm w [sc Hw]. unfold adjust_speed.
  unfold bind at 1, the_scene at 1. rewrite (inv_scene w sc Hw).
  unfold bind at 1. cbn [run_static global fst snd]. rewrite world_eta.
  destruct (selection_in_range sc (env w)) eqn:Hsel; [|by exists sc].
  destruct (selection_in_range_lookup _ _ Hsel) as (p & Hp & Hnn).
  destruct (inv_ids w sc Hw _ _ Hp) as (wm & Hwm & Hid).
  unfold bind at 1, windmill_at at 1, bind at 1, the_scene at 1.
  rewrite (inv_scene w sc Hw), Hnn, Hp. unfold ret at 1.
  unfold bind at 1. rewrite (invoke_windmill_eq m w p wm _ _ _ Hwm (Hm wm (env w))).
  unfold bind at 1, windmill_at at 1, bind at 1, the_scene at 1. cbn [scene env].
  rewrite (inv_scene w sc Hw), Hnn, Hp. unfold ret at 1.
  unfold bind at 1.
  erewrite (invoke_windmill_eq Windmill_getSpeed);
    [|cbn [heap]; apply lookup_insert_eq|reflexivity].
  cbn. rewrite insert_insert_eq. exists sc. rewrite <- (inv_scene w sc Hw).
  eapply (consistent_update w sc p _ _ _ Hw Hwm); cbn; done.
Qed.

Lemma keeps_on_faster : keeps_invariant on_faster.
Proof. eapply keeps_adjust_speed, Windmill_increaseSpeed_eq. Qed.

Lemma keeps_on_slower : keeps_invariant on_slower.
Proof. eapply keeps_adjust_speed, Windmill_decreaseSpeed_eq. Qed.

Lemma keeps_keyboard key : keeps_invariant (keyboard key).
Proof.
  unfold keyboard. apply keeps_bind; [|apply keeps_renders, renders_run_static, paints_emit].
  destruct key as [b0 b1 b2 b3 b4 b5 b6 b7].
  destruct b0, b1, b2, b3, b4, b5, b6, b7;
    first [ apply keeps_ret | apply keeps_on_select | apply keeps_on_faster
          | apply keeps_on_slower | apply keeps_on_day | apply keeps_on_night
          | apply keeps_on_cloud | apply keeps_on_windmill | apply keeps_on_sun
          | apply keeps_on_pause | apply keeps_on_reset | apply keeps_on_quit ].
Qed.

(** *** One tick of a cloud *)

(** The value [randomFloat(min, max)] computes from the result of [rand()]. *)
Definition random_value (min max : spec_float) (rnd : Z) : spec_float :=
  (min + F32.of_Z rnd / (F32.of_Z RAND_MAX / (max - min)))%f32.

Lemma Cloud_update_eq c e :
  Cloud_update (c, e)
  = Ok (tt,
        if isPaused e then (c, e) else
        let x1 := (x (cloud_base c) + speed c)%f32 in
        if (x1 >? F32.of_Z 450)%f32 then
          (mkCloud (mkDrawable (- F32.of_Z 450)%f32
                      (random_value (F32.of_Z 150) (F32.of_Z 280)
                                    (rand_seq (rand_calls e)))
                      (visible (cloud_base c)))
                   (speed c) (size c),
           set_rand_calls (S (rand_calls e)) e)
        else
          (mkCloud (mkDrawable x1 (y (cloud_base c)) (visible (cloud_base c)))
                   (speed c) (size c),
           e)).
Proof.
  unfold Cloud_update, bind, self, set_self, global, ret.
  cbn beta iota delta [fst snd].
  destruct (isPaused e); [done|]. cbv zeta.
  cbn [cloud_base set_cloud_base set_x x].
  by destruct (_ >? _)%f32.
Qed.

(** *** The timer tick keeps the invariant *)

Lemma virtual_update_kind w p o :
  heap w !! p = Some o ->
  exists o' e',
    virtual (@update) p w = Ok (tt, mkWorld e' (<[p := o']> (heap w)) (scene w)) /\
    same_kind o o' /\
    windmillCount e' = windmillCount (env w) /\
    selectedWindmill e' = selectedWindmill (env w).
Proof.
  intros Hp. unfold virtual, run_on. rewrite Hp. destruct o as [c|cb|wm]; cbn [update Cloud_ops CelestialBody_ops Windmill_ops].
  - rewrite Cloud_update_eq. destruct (isPaused (env w)); [by eexists _, _|].
    cbv zeta. destruct (_ >? _)%f32; by eexists _, _.
  - rewrite CelestialBody_update_eq. eexists _, _. split; [done|].
    split; [|done]. by destruct (_ || _).
  - rewrite Windmill_update_eq. eexists _, _. split; [done|].
    split; [|done]. by destruct (_ || _).
Qed.

Lemma keeps_update_objects sc (l : list nat) : forall w,
  consistent w sc ->
  (forall p, p ∈ l -> p ∈ objects sc) ->
  match for_each l (virtual (@update)) w with
  | Ok (_, w') => consistent w' sc
  | _ => False
  end.
Proof.
  induction l as [|p l IH]; intros w Hw Hl; [done|].
  cbn [for_each]. unfold bind.
  destruct (proj1 (inv_owned w sc Hw p)) as [o Ho]; [apply Hl; set_solver|].
  destruct (virtual_update_kind w p o Ho) as (o' & e' & -> & Hk & Hc & Hs).
  apply IH; [by eapply consistent_update|].
  intros q Hq. apply Hl. set_solver.
Qed.

Lemma keeps_timer : keeps_invariant timer.
Proof.
  unfold timer. apply keeps_bind;
    [|apply keeps_renders, renders_bind; [|intros _];
      apply renders_run_static, paints_emit].
  intros w [sc Hw]. unfold if_scene, Scene_updateAll, bind, the_scene.
  rewrite (inv_scene w sc Hw).
  pose proof (keeps_update_objects sc (objects sc) w Hw ltac:(done)) as H.
  destruct (for_each _ _ w) as [[[] w']|?|]; [by exists sc|done|done].
Qed.

Lemma keeps_handle ev : keeps_invariant (handle ev).
Proof.
  destruct ev; cbn [handle].
  - apply keeps_keyboard.
  - apply keeps_timer.
  - apply keeps_renders, renders_display.
Qed.

Lemma keeps_events evs : keeps_invariant (for_each evs handle).
Proof.
  induction evs as [|ev evs IH]; cbn [for_each].
  - apply keeps_ret.
  - apply keeps_bind; [apply keeps_handle|done].
Qed.

(** *** Start-up establishes the invariant, every event keeps it *)

Lemma bind_assoc {S A B C : Type} (m : St S A) (k : A -> St S B) (k' : B -> St S C) s :
  bind (bind m k) k' s = bind m (fun a => bind (k a) k') s.
Proof. unfold bind. by destruct (m s) as [[a s1]|?|]. Qed.

Lemma empty_scene_consistent :
  consistent (mkWorld initial_env ∅ (Some Scene_new)) Scene_new.
Proof.
  split; cbn; try done.
  - apply NoDup_nil_2.
  - intros p. rewrite lookup_empty. split; [by intros ?%elem_of_nil|by intros [? ?]].
  - lia.
Qed.

(** Whatever the events, the program never faults; and whenever it is
    still running, the state satisfies the invariant. *)
Lemma run_keeps_invariant evs :
  match run evs with
  | Ok (_, w) => Inv w
  | Exited _ => True
  | Fault => False
  end.
Proof.
  unfold run, initScene. rewrite bind_assoc. unfold bind at 1, set_scene at 1.
  refine (keeps_bind _ _ _ (keeps_events evs) _ _).
  - do 3 apply keeps_new_windmill. do 2 apply keeps_new_cloud.
    apply (keeps_new_cloud _ _ _ _ (let* p := _ in _)).
    apply keeps_new_celestial.
  - exists Scene_new. apply empty_scene_consistent.
Qed.

(** X1.  Memory safety: no sequence of key presses, timer ticks and
    redraws makes the program fault, that is, use the scene before it is
    built, follow a pointer to a released object or treat an object as one
    of another class. *)
Theorem X1_no_event_sequence_faults (evs : list event) : run evs <> Fault.
Proof.
  intros H. pose proof (run_keeps_invariant evs) as Hinv.
  rewrite H in Hinv. exact Hinv.
Qed.

(** The identities of the windmills of the scene, in the order of the
    windmill view. *)
Definition scene_identities (w : World) : list Z :=
  match scene w with
  | Some sc =>
      omap (fun p => match heap w !! p with
                     | Some (EWindmill wm) => Some (id wm)
                     | _ => None
                     end) (windmills sc)
  | None => []
  end.

Lemma consistent_identities w sc :
  consistent w sc ->
  scene_identities w = map (fun i => Z.of_nat i + 1) (seq 0 (length (windmills sc))).
Proof.
  intros Hw. unfold scene_identities. rewrite (inv_scene w sc Hw).
  pose proof (inv_ids w sc Hw) as Hids. clear Hw.
  induction (windmills sc) as [|p l IH] using rev_ind; [done|].
  rewrite omap_app, length_app, Nat.add_comm. cbn [length Nat.add].
  rewrite seq_S, map_app. cbn [map seq Nat.add].
  rewrite IH.
  - destruct (Hids (length l) p) as (wm & Hp & Hid).
    { by rewrite lookup_app_r, Nat.sub_diag. }
    f_equal. cbn. rewrite Hp. by rewrite Hid.
  - intros i q Hq. apply Hids. by apply lookup_app_l_Some.
Qed.

(** *** Identities and selection along a run *)

Lemma Windmill_new_eq {T : Type} posX posY tWidth tHeight bLength blades (t : T) e :
  Windmill_new posX posY tWidth tHeight bLength blades (t, e)
  = Ok (mkWindmill (mkDrawable posX posY true) (F32.of_Z 0) (F32.of_Z 2) true
          tWidth tHeight bLength blades (windmillCount e + 1),
        (t, set_windmillCount (windmillCount e + 1) e)).
Proof. reflexivity. Qed.

Lemma Windmill_delete_eq wm e :
  Windmill_delete (wm, e) = Ok (tt, (wm, set_windmillCount (windmillCount e - 1) e)).
Proof. reflexivity. Qed.

Lemma NoDup_successors n : NoDup (map (fun i => Z.of_nat i + 1) (seq 0 n)).
Proof.
  apply NoDup_fmap_2; [|apply NoDup_seq].
  intros i j Hij. lia.
Qed.

(** C1 (as the code has it). The constructor gives a windmill the value of
    the live-instance counter after incrementing it, and the destructor
    decrements that counter.  So identities grow by one from one
    construction to the next as long as no windmill is destroyed, and in
    every state the program reaches from start, by any events, the
    windmills of the scene carry the identities 1, 2, ..., n in order,
    where n is their number and the value of the counter: the identities
    of the windmills alive together are pairwise distinct. *)
Theorem C1_identities_count_live_windmills :
  (forall posX posY tWidth tHeight bLength blades e,
     exists wm,
       Windmill_new (T := unit) posX posY tWidth tHeight bLength blades (tt, e)
         = Ok (wm, (tt, set_windmillCount (windmillCount e + 1) e)) /\
       id wm = windmillCount e + 1) /\
  (forall wm e,
     Windmill_delete (wm, e)
       = Ok (tt, (wm, set_windmillCount (windmillCount e - 1) e))) /\
  (forall evs w,
     run evs = Ok (tt, w) ->
     exists sc,
       scene w = Some sc /\
       windmillCount (env w) = Z.of_nat (length (windmills sc)) /\
       scene_identities w
         = map (fun i => Z.of_nat i + 1) (seq 0 (length (windmills sc))) /\
       NoDup (scene_identities w)).
Proof.
  split; [|split].
  - intros. eexists. by rewrite Windmill_new_eq.
  - intros. apply Windmill_delete_eq.
  - intros evs w Hrun. pose proof (run_keeps_invariant evs) as H.
    rewrite Hrun in H. destruct H as [sc Hw]. exists sc.
    split; [apply Hw|]. split; [apply Hw|].
    rewrite (consistent_identities w sc Hw). split; [done|apply NoDup_successors].
Qed.

(** Along any run the selection is at least 1, and it is the index of a
    windmill of the scene unless it is the default 1. *)
Lemma selection_in_range_or_default evs w sc :
  run evs = Ok (tt, w) ->
  scene w = Some sc ->
  1 <= selectedWindmill (env w) /\
  (selectedWindmill (env w) <= Z.of_nat (length (windmills sc))
   \/ selectedWindmill (env w) = 1).
Proof.
  intros Hrun Hsc. pose proof (run_keeps_invariant evs) as H.
  rewrite Hrun in H. destruct H as [sc' Hw].
  pose proof (inv_scene w sc' Hw) as Hsc'. rewrite Hsc in Hsc'.
  injection Hsc' as ->. apply Hw.
Qed.

(** C2 (the defect).  After the reset key the scene owns no windmill, yet
    the selection is 1: neither 0 nor the index of a live windmill.  What
    does hold along every run is weaker: the selection is never 0, and it is
    the index of a windmill of the scene unless the scene has none, in which
    case it is the default 1. *)
Theorem C2_reset_selects_missing_windmill :
  (exists w sc,
     run [Key "r"] = Ok (tt, w) /\
     scene w = Some sc /\
     windmills sc = [] /\
     objects sc = [] /\
     selectedWindmill (env w) = 1) /\
  (forall evs w,
     run evs = Ok (tt, w) ->
     exists sc,
       scene w = Some sc /\
       (1 <= selectedWindmill (env w) <= Z.of_nat (length (windmills sc))
        \/ (windmills sc = [] /\ selectedWindmill (env w) = 1))).
Proof.
  split.
  - eexists _, _. split; [vm_compute; reflexivity|]. by cbn.
  - intros evs w Hrun. pose proof (run_keeps_invariant evs) as H.
    rewrite Hrun in H. clear Hrun. destruct H as [sc Hw]. exists sc.
    split; [exact (inv_scene w sc Hw)|].
    destruct (inv_sel w sc Hw) as [H1 [Hle|Hdef]]; [left; split; assumption|].
    destruct (windmills sc) as [|p l]; [right; split; [reflexivity|exact Hdef]|].
    left. rewrite Hdef. cbn [length]. lia.
Qed.

(** *** Angles stay within one turn *)

(** [0 <= a && a < 360]. *)
Definition in_turn (a : spec_float) : bool :=
  (F32.of_Z 0 <=? a)%f32 && (a <? F32.of_Z 360)%f32.

(** The magnitudes of the constants, in units of [2^-149]. *)
Lemma magf_360 : magf (F32.of_Z 360) = 11796480 * (1024 * 2 ^ 124).
Proof. vm_compute. reflexivity. Qed.

Lemma magf_15 : magf (F32.of_Z 15) = 15728640 * (32 * 2 ^ 124).
Proof. vm_compute. reflexivity. Qed.

Lemma magf_three_tenths : magf (F32.lit 3 1) = 10066330 * 2 ^ 124.
Proof. vm_compute. reflexivity. Qed.

Lemma mag_375 : mag 12288000 (-15) = 12288000 * (1024 * 2 ^ 124).
Proof. vm_compute. reflexivity. Qed.

Lemma mag_361 : mag 11829248 (-15) = 11829248 * (1024 * 2 ^ 124).
Proof. vm_compute. reflexivity. Qed.

Lemma mag_15 : mag 15728640 (-20) = 15728640 * (32 * 2 ^ 124).
Proof. vm_compute. reflexivity. Qed.

Lemma bounded_375 : bounded 24 128 12288000 (-15) = true.
Proof. vm_compute. reflexivity. Qed.

Lemma bounded_361 : bounded 24 128 11829248 (-15) = true.
Proof. vm_compute. reflexivity. Qed.

Lemma bounded_15 : bounded 24 128 15728640 (-20) = true.
Proof. vm_compute. reflexivity. Qed.

Lemma valid_360 : F32.valid (F32.of_Z 360) = true.
Proof. vm_compute. reflexivity. Qed.

Lemma nonneg_360 : nonneg (F32.of_Z 360) = true.
Proof. vm_compute. reflexivity. Qed.

Lemma valid_three_tenths : F32.valid (F32.lit 3 1) = true.
Proof. vm_compute. reflexivity. Qed.

Lemma nonneg_three_tenths : nonneg (F32.lit 3 1) = true.
Proof. vm_compute. reflexivity. Qed.

Lemma unit_pos : 0 < 2 ^ 124.
Proof. by apply pow2_pos. Qed.

Lemma in_turn_inv a :
  F32.valid a = true -> in_turn a = true ->
  nonneg a = true /\ magf a < magf (F32.of_Z 360).
Proof.
  intros Hv H. apply andb_true_iff in H as [H0 H1].
  assert (Hn : nonneg a = true).
  { destruct a as [sa|[|]| |[|] m e]; try done. }
  split; [done|]. unfold F32.ltb in H1.
  rewrite (ltb_nonneg a (F32.of_Z 360) Hv valid_360 Hn nonneg_360) in H1.
  by apply Z.ltb_lt.
Qed.

Lemma magf_nonneg a : F32.valid a = true -> 0 <= magf a.
Proof.
  destruct a as [sa|sa| |sa m e]; cbn; try lia. intros H.
  apply bounded_inv in H as (He & _). pose proof (mag_pos m e). lia.
Qed.

Lemma in_turn_intro a :
  F32.valid a = true -> nonneg a = true -> magf a < magf (F32.of_Z 360) ->
  in_turn a = true.
Proof.
  intros Hv Hn Hlt. unfold in_turn, F32.leb, F32.ltb.
  rewrite leb_nonneg, ltb_nonneg by done.
  apply andb_true_iff. split; [apply Z.leb_le|by apply Z.ltb_lt].
  change (magf (F32.of_Z 0)) with 0. by apply magf_nonneg.
Qed.

Lemma speed_in_range_inv s :
  F32.valid s = true ->
  (F32.lit 5 1 <=? s)%f32 = true -> (s <=? F32.of_Z 15)%f32 = true ->
  nonneg s = true /\ magf s <= magf (F32.of_Z 15).
Proof.
  intros Hv H0 H1.
  assert (Hn : nonneg s = true).
  { destruct s as [sa|[|]| |[|] m e]; try done. }
  split; [done|]. unfold F32.leb in H1.
  rewrite leb_nonneg in H1 by done. by apply Z.leb_le.
Qed.

Lemma blade_step_in_turn a s :
  F32.valid a = true -> F32.valid s = true ->
  in_turn a = true ->
  (F32.lit 5 1 <=? s)%f32 = true -> (s <=? F32.of_Z 15)%f32 = true ->
  F32.valid (blade_step a s) = true /\ in_turn (blade_step a s) = true.
Proof.
  intros Hva Hvs Ha Hs0 Hs1. pose proof unit_pos as Hu.
  destruct (in_turn_inv a Hva Ha) as [Hna Hma].
  destruct (speed_in_range_inv s Hvs Hs0 Hs1) as [Hns Hms].
  rewrite magf_360 in Hma. rewrite magf_15 in Hms.
  destruct (add_bounded a s 12288000 (-15) Hva Hvs Hna Hns bounded_375)
    as (Hv1 & Hn1 & Hm1); [rewrite mag_375; lia|].
  change (SFadd 24 128 a s) with (F32.add a s) in *.
  unfold blade_step. cbv zeta. unfold F32.geb, F32.leb.
  rewrite (leb_nonneg (F32.of_Z 360) (a + s)%f32 valid_360 Hv1 nonneg_360 Hn1).
  destruct (Z.leb_spec (magf (F32.of_Z 360)) (magf (a + s)%f32)) as [Hge|Hlt].
  - destruct (sub_bounded (a + s)%f32 (F32.of_Z 360) 15728640 (-20)
                Hv1 valid_360 Hn1 nonneg_360 bounded_15 Hge) as (Hv2 & Hn2 & Hm2).
    { rewrite mag_15, magf_360. rewrite mag_375 in Hm1. lia. }
    change (SFsub 24 128 (a + s)%f32 (F32.of_Z 360))
      with (F32.sub (a + s)%f32 (F32.of_Z 360)) in *.
    split; [exact Hv2|]. apply in_turn_intro; [exact Hv2|exact Hn2|].
    rewrite magf_360. rewrite mag_15 in Hm2. lia.
  - split; [exact Hv1|]. exact (in_turn_intro _ Hv1 Hn1 Hlt).
Qed.

Lemma phase_step_in_turn a :
  F32.valid a = true -> in_turn a = true ->
  F32.valid (phase_step a) = true /\ in_turn (phase_step a) = true.
Proof.
  intros Hva Ha. pose proof unit_pos as Hu.
  destruct (in_turn_inv a Hva Ha) as [Hna Hma]. rewrite magf_360 in Hma.
  destruct (add_bounded a (F32.lit 3 1) 11829248 (-15) Hva valid_three_tenths Hna
              nonneg_three_tenths bounded_361) as (Hv1 & Hn1 & Hm1);
    [rewrite mag_361, magf_three_tenths; lia|].
  change (SFadd 24 128 a (F32.lit 3 1)) with (F32.add a (F32.lit 3 1)) in *.
  unfold phase_step. cbv zeta. unfold F32.geb, F32.leb.
  rewrite (leb_nonneg (F32.of_Z 360) (a + F32.lit 3 1)%f32 valid_360 Hv1 nonneg_360 Hn1).
  destruct (Z.leb_spec (magf (F32.of_Z 360)) (magf (a + F32.lit 3 1)%f32)) as [Hge|Hlt].
  - split; vm_compute; reflexivity.
  - split; [exact Hv1|]. exact (in_turn_intro _ Hv1 Hn1 Hlt).
Qed.

(** C5. A tick keeps the blade angle of a windmill and the animation phase
    of the celestial body within [0, 360): if the angle is a binary32
    number in that range and the rotation speed one in [0.5, 15.0], then
    after [Windmill::update()], in any global state, the angle is again a
    binary32 number in that range; likewise the phase after
    [CelestialBody::update()], whose increment is the constant 0.3.  Only
    the wrap of the blade angle is modular: the new angle is the sum when
    that is below 360 and the sum minus 360 otherwise, so 359 advanced by
    2 gives 1.  The wrap of the phase is a reset: the new phase is the sum
    when that is below 360 and exactly 0 otherwise, the excess being
    dropped. *)
Theorem C5_angles_stay_within_a_turn (e : Env) :
  (forall wm,
     F32.valid (bladeAngle wm) = true -> F32.valid (rotationSpeed wm) = true ->
     in_turn (bladeAngle wm) = true ->
     (F32.lit 5 1 <=? rotationSpeed wm)%f32 = true ->
     (rotationSpeed wm <=? F32.of_Z 15)%f32 = true ->
     exists wm',
       Windmill_update (wm, e) = Ok (tt, (wm', e)) /\
       F32.valid (bladeAngle wm') = true /\
       in_turn (bladeAngle wm') = true /\
       (isPaused e = false -> isRotating wm = true ->
        bladeAngle wm'
        = let sum := (bladeAngle wm + rotationSpeed wm)%f32 in
          if (sum >=? F32.of_Z 360)%f32 then (sum - F32.of_Z 360)%f32 else sum)) /\
  (forall cb,
     F32.valid (angle cb) = true -> in_turn (angle cb) = true ->
     exists cb',
       CelestialBody_update (cb, e) = Ok (tt, (cb', e)) /\
       F32.valid (angle cb') = true /\
       in_turn (angle cb') = true /\
       (isPaused e = false -> animateCelestial e = true ->
        angle cb'
        = let sum := (angle cb + F32.lit 3 1)%f32 in
          if (sum >=? F32.of_Z 360)%f32 then F32.of_Z 0 else sum)) /\
  blade_step (F32.of_Z 359) (F32.of_Z 2) = F32.of_Z 1.
Proof.
  split; [|split].
  - intros wm Hva Hvs Ha Hs0 Hs1. rewrite Windmill_update_eq. eexists. split; [done|].
    destruct (blade_step_in_turn _ _ Hva Hvs Ha Hs0 Hs1) as [Hv Hin].
    destruct (isPaused e), (isRotating wm); cbn [orb negb bladeAngle set_bladeAngle];
      (split; [done|]; split; [done|]); intros; done.
  - intros cb Hva Ha. rewrite CelestialBody_update_eq. eexists. split; [done|].
    destruct (phase_step_in_turn _ Hva Ha) as [Hv Hin].
    destruct (isPaused e), (animateCelestial e); cbn [orb negb angle set_angle];
      (split; [done|]; split; [done|]); intros; done.
  - vm_compute. reflexivity.
Qed.


(** ** Clouds: the drift and the wrap to the left edge *)

(** The band of heights a wrapped cloud is placed in. *)
Definition in_band (v : spec_float) : bool :=
  (F32.of_Z 150 <=? v)%f32 && (v <=? F32.of_Z 280)%f32.

(** The constants of [randomFloat(150.0f, 280.0f)], as binary32 data. *)
Lemma of_Z_150 : F32.of_Z 150 = S754_finite false 9830400 (-16).
Proof. vm_compute. reflexivity. Qed.

Lemma of_Z_280 : F32.of_Z 280 = S754_finite false 9175040 (-15).
Proof. vm_compute. reflexivity. Qed.

Lemma band_height :
  F32.sub (F32.of_Z 280) (F32.of_Z 150) = S754_finite false 8519680 (-16).
Proof. vm_compute. reflexivity. Qed.

(** [RAND_MAX / (max - min)] for the two C libraries the program is built
    with: [RAND_MAX] is [32767] with MinGW and [2147483647] with glibc. *)
Lemma scale_mingw :
  F32.div (F32.of_Z 32767) (S754_finite false 8519680 (-16))
  = S754_finite false 16518601 (-16).
Proof. vm_compute. reflexivity. Qed.

Lemma scale_glibc :
  F32.div (F32.of_Z 2147483647) (S754_finite false 8519680 (-16))
  = S754_finite false 16519105 0.
Proof. vm_compute. reflexivity. Qed.

Lemma mag_max_mingw : mag 16776704 (-9) = 32767 * 2 ^ 149.
Proof. vm_compute. reflexivity. Qed.

Lemma mag_max_glibc : mag 8388608 8 = 2147483648 * 2 ^ 149.
Proof. vm_compute. reflexivity. Qed.

(** In both, the rounded scale times the height of the band is not below
    the largest random number: the offset never exceeds the height. *)
Lemma ratio_mingw :
  mag 16776704 (-9) * 2 ^ 149 <= mag 8519680 (-16) * mag 16518601 (-16).
Proof. apply Z.leb_le. vm_compute. reflexivity. Qed.

Lemma ratio_glibc :
  mag 8388608 8 * 2 ^ 149 <= mag 8519680 (-16) * mag 16519105 0.
Proof. apply Z.leb_le. vm_compute. reflexivity. Qed.

Lemma mag_band : mag 9830400 (-16) + mag 8519680 (-16) = mag 9175040 (-15).
Proof. vm_compute. reflexivity. Qed.

(** A positive random number up to the largest one [mR * 2^eR], divided by
    a scale [mD * 2^eD] for which the inequality above holds, is a binary32
    number of at most the height of the band. *)
Lemma offset_bounded (p mR mD : positive) (eR eD : Z) :
  bounded 24 128 mR eR = true ->
  bounded 24 128 mD eD = true ->
  8388608 <= Zpos mD -> eD <= 0 ->
  Zpos p * 2 ^ 149 <= mag mR eR ->
  mag mR eR * 2 ^ 149 <= mag 8519680 (-16) * mag mD eD ->
  exists q e,
    F32.div (F32.of_Z (Zpos p)) (S754_finite false mD eD)
    = S754_finite false q e /\
    bounded 24 128 q e = true /\
    mag q e <= mag 8519680 (-16).
Proof.
  intros HR HD HmD HeD Hp Hratio.
  destruct (of_Z_bounded p mR eR HR Hp) as (q & e & Hq & Hb & Hle & Hnorm & He).
  unfold F32.div, F32.of_Z, F32.prec, F32.emax. rewrite Hq.
  apply (div_bounded q e mD eD 8519680 (-16) Hb HD Hnorm HmD);
    [lia|reflexivity|].
  transitivity (mag mR eR * 2 ^ 149); [|exact Hratio].
  apply Z.mul_le_mono_nonneg_r; [|exact Hle].
  apply Z.lt_le_incl, pow2_pos. lia.
Qed.

(** A height between the two ends of the band, given the offset. *)
Lemma band_of_offset (t : spec_float) :
  F32.valid t = true -> nonneg t = true -> magf t <= mag 8519680 (-16) ->
  F32.valid (F32.add (F32.of_Z 150) t) = true /\
  in_band (F32.add (F32.of_Z 150) t) = true.
Proof.
  intros Hv Hn Hle. rewrite of_Z_150.
  assert (Hv150 : valid_binary 24 128 (S754_finite false 9830400 (-16)) = true)
    by reflexivity.
  assert (Hb280 : bounded 24 128 9175040 (-15) = true) by reflexivity.
  assert (Hb150 : bounded 24 128 9830400 (-16) = true) by reflexivity.
  pose proof (magf_nonneg t Hv) as H0.
  destruct (add_spec (S754_finite false 9830400 (-16)) t 9175040 (-15)
              Hv150 Hv eq_refl Hn Hb280) as (Hvy & Hny & Hup & Hlow).
  { cbn [magf]. rewrite <- mag_band. lia. }
  specialize (Hlow 9830400%positive (-16) Hb150).
  cbn [magf] in Hlow. specialize (Hlow ltac:(lia)).
  change (SFadd 24 128 (S754_finite false 9830400 (-16)) t)
    with (F32.add (S754_finite false 9830400 (-16)) t) in *.
  set (v := F32.add (S754_finite false 9830400 (-16)) t) in *.
  split; [exact Hvy|]. unfold in_band, F32.leb.
  rewrite of_Z_150, of_Z_280.
  rewrite (leb_nonneg (S754_finite false 9830400 (-16)) v Hv150 Hvy eq_refl Hny).
  rewrite (leb_nonneg v (S754_finite false 9175040 (-15)) Hvy Hb280 Hny eq_refl).
  cbn [magf]. apply andb_true_iff. split; apply Z.leb_le; assumption.
Qed.

(** [randomFloat(150.0f, 280.0f)] is within the band, whatever [rand()]
    returns between [0] and [RAND_MAX]. *)
Lemma random_height_in_band (rnd : Z) :
  RAND_MAX = 32767 \/ RAND_MAX = 2147483647 ->
  0 <= rnd <= RAND_MAX ->
  F32.valid (random_value (F32.of_Z 150) (F32.of_Z 280) rnd) = true /\
  in_band (random_value (F32.of_Z 150) (F32.of_Z 280) rnd) = true.
Proof.
  intros HR Hrnd. unfold random_value.
  change (F32.of_Z 280 - F32.of_Z 150)%f32
    with (F32.sub (F32.of_Z 280) (F32.of_Z 150)).
  rewrite band_height.
  destruct rnd as [|p|p]; [| |lia].
  - (* rand() = 0: the offset is zero *)
    assert (Hz : (F32.of_Z 0 / (F32.of_Z RAND_MAX / S754_finite false 8519680 (-16)))%f32
                 = S754_zero false).
    { destruct HR as [-> | ->]; [rewrite scale_mingw|rewrite scale_glibc];
        reflexivity. }
    rewrite Hz. apply band_of_offset; [reflexivity|reflexivity|].
    cbn [magf]. apply Z.lt_le_incl, mag_pos. lia.
  - assert (Ht : exists q e,
               (F32.of_Z (Zpos p) / (F32.of_Z RAND_MAX / S754_finite false 8519680 (-16)))%f32
               = S754_finite false q e /\
               bounded 24 128 q e = true /\ mag q e <= mag 8519680 (-16)).
    { pose proof (pow2_pos 149 ltac:(lia)) as Hu.
      destruct HR as [HR | HR]; rewrite HR in *.
      - rewrite scale_mingw.
        apply (offset_bounded p 16776704 16518601 (-9) (-16));
          [reflexivity|reflexivity|lia|lia| |exact ratio_mingw].
        rewrite mag_max_mingw. apply Z.mul_le_mono_nonneg_r; lia.
      - rewrite scale_glibc.
        apply (offset_bounded p 8388608 16519105 8 0);
          [reflexivity|reflexivity|lia|lia| |exact ratio_glibc].
        rewrite mag_max_glibc. apply Z.mul_le_mono_nonneg_r; lia. }
    destruct Ht as (q & e & -> & Hb & Hle).
    apply band_of_offset; [exact Hb|reflexivity|exact Hle].
Qed.


(** C6.  One unpaused [Cloud::update]: [x] advances by the cloud's speed
    and nothing else changes, unless the advanced [x] exceeds [450]; then,
    on that same call, [x] is exactly [-450] and [y] is the value that
    [randomFloat(150.0f, 280.0f)] makes of the next [rand()], a binary32
    number between [150] and [280] for the [RAND_MAX] of MinGW and of
    glibc.  The speed and the size are never touched.  A cloud at [490]
    with speed [5] advances to [495], beyond [450], and ends at [-450]. *)
Theorem C6_cloud_wraps_to_left_edge (c : Cloud) (e : Env) :
  isPaused e = false ->
  RAND_MAX = 32767 \/ RAND_MAX = 2147483647 ->
  0 <= rand_seq (rand_calls e) <= RAND_MAX ->
  let x1 := F32.add (x (cloud_base c)) (speed c) in
  exists c' e',
    Cloud_update (c, e) = Ok (tt, (c', e')) /\
    speed c' = speed c /\ size c' = size c /\
    visible (cloud_base c') = visible (cloud_base c) /\
    (F32.gtb x1 (F32.of_Z 450) = false ->
       x (cloud_base c') = x1 /\ y (cloud_base c') = y (cloud_base c) /\
       e' = e) /\
    (F32.gtb x1 (F32.of_Z 450) = true ->
       x (cloud_base c') = F32.opp (F32.of_Z 450) /\
       y (cloud_base c')
       = random_value (F32.of_Z 150) (F32.of_Z 280) (rand_seq (rand_calls e)) /\
       F32.valid (y (cloud_base c')) = true /\
       in_band (y (cloud_base c')) = true /\
       e' = set_rand_calls (S (rand_calls e)) e) /\
    (x (cloud_base c) = F32.of_Z 490 -> speed c = F32.of_Z 5 ->
       x1 = F32.of_Z 495 /\
       F32.gtb x1 (F32.of_Z 450) = true /\
       x (cloud_base c') = F32.opp (F32.of_Z 450)).
Proof.
  intros Hrun HR Hrnd x1.
  destruct (random_height_in_band _ HR Hrnd) as [Hv Hband].
  rewrite Cloud_update_eq, Hrun. cbv zeta. fold x1.
  destruct (F32.gtb x1 (F32.of_Z 450)) eqn:Hgt.
  - eexists _, _. split; [reflexivity|].
    cbn [speed size cloud_base visible x y].
    do 3 (split; [reflexivity|]). split; [discriminate|]. split.
    + intros _. repeat split; assumption.
    + intros Hx Hs. repeat split.
      unfold x1. rewrite Hx, Hs. vm_compute. reflexivity.
  - eexists _, _. split; [reflexivity|].
    cbn [speed size cloud_base visible x y].
    do 3 (split; [reflexivity|]). split; [|split; [discriminate|]].
    + intros _. repeat split.
    + intros Hx Hs. exfalso. unfold x1 in Hgt. rewrite Hx, Hs in Hgt.
      vm_compute in Hgt. discriminate.
Qed.


(** ** The key handlers, one by one *)

(** Every state the program reaches satisfies the invariant. *)
Lemma reachable_Inv evs w : run evs = Ok (tt, w) -> Inv w.
Proof.
  intros Hrun. pose proof (run_keeps_invariant evs) as H. by rewrite Hrun in H.
Qed.

(** What [main] has printed and drawn so far plus [items] and [cmds]. *)
Definition said (items : list OutItem) (e : Env) : Env :=
  set_cout (cout e ++ items) e.

Definition redisplay (e : Env) : Env := set_gl (gl e ++ [GlutPostRedisplay]) e.

(** The two requests that end [timer()]. *)
Definition tick_requests : list GLcmd := [GlutPostRedisplay; GlutTimerFunc 16 0].

Lemma keyboard_select key :
  1 <= digit_index key <= 5 ->
  keyboard key = (on_select key ;;; run_static (emit GlutPostRedisplay)).
Proof.
  intros Hd. destruct key as [b0 b1 b2 b3 b4 b5 b6 b7].
  destruct b0, b1, b2, b3, b4, b5, b6, b7;
    try (exfalso; clear -Hd; set (d := digit_index _) in Hd;
         vm_compute in d; subst d; lia);
    reflexivity.
Qed.

(** X2.  A digit key [1]..[5] that names a windmill of the scene makes it
    the selection and reports it on the console; the scene, the objects,
    the flags and the counter are untouched. *)
Theorem X2_digit_key_selects_windmill (w : World) (sc : Scene) (key : ascii) :
  scene w = Some sc ->
  1 <= digit_index key <= 5 ->
  digit_index key <= Z.of_nat (length (windmills sc)) ->
  keyboard key w
  = Ok (tt, mkWorld
              (redisplay
                 (said [OStr "Selected Windmill #"; OInt (digit_index key); OEndl]
                    (set_selectedWindmill (digit_index key) (env w))))
              (heap w) (scene w)).
Proof.
  intros Hsc Hd Hn. rewrite (keyboard_select key Hd).
  unfold bind at 1, on_select. cbv zeta. fold (digit_index key).
  unfold bind at 1, the_scene at 1. rewrite Hsc.
  rewrite (proj2 (Z.ltb_lt 0 (digit_index key))) by lia.
  rewrite (proj2 (Z.leb_le _ _) Hn). cbv beta iota. rewrite <- Hsc. reflexivity.
Qed.


(** *** The speed keys *)

(** The keys of the two speed cases of the [switch], the mutator each
    calls and the message each prints. *)
Definition speed_key (c : speed_change) (key : ascii) : Prop :=
  match c with
  | Increase => key = "+"%char \/ key = "="%char
  | Decrease => key = "-"%char \/ key = "_"%char
  end.

Definition changed_speed (c : speed_change) (s : spec_float) : spec_float :=
  match c with
  | Increase => faster s
  | Decrease => slower s
  end.

Definition speed_message (c : speed_change) : string :=
  match c with
  | Increase => "Speed increased to: "
  | Decrease => "Speed decreased to: "
  end.

Lemma change_speed_eq c wm e :
  change_speed c (wm, e)
  = Ok (tt, (set_rotationSpeed (changed_speed c (rotationSpeed wm)) wm, e)).
Proof.
  destruct c; [apply Windmill_increaseSpeed_eq|apply Windmill_decreaseSpeed_eq].
Qed.

Lemma keyboard_speed c key :
  speed_key c key ->
  keyboard key
  = (adjust_speed (change_speed c) (speed_message c) ;;;
     run_static (emit GlutPostRedisplay)).
Proof. destruct c; intros [-> | ->]; reflexivity. Qed.

(** The selected windmill, when the guard of the speed keys holds: the
    object at position [selectedWindmill - 1] of the windmill view, whose
    identity is the selection. *)
Lemma selected_windmill w sc :
  consistent w sc ->
  selection_in_range sc (env w) = true ->
  exists p wm,
    windmills sc !! Z.to_nat (selectedWindmill (env w) - 1) = Some p /\
    (0 <=? selectedWindmill (env w) - 1) = true /\
    heap w !! p = Some (EWindmill wm) /\
    id wm = selectedWindmill (env w).
Proof.
  intros Hw Hsel.
  destruct (selection_in_range_lookup _ _ Hsel) as (p & Hp & Hnn).
  destruct (inv_ids w sc Hw _ _ Hp) as (wm & Hwm & Hid).
  exists p, wm. repeat split; try assumption.
  apply Z.leb_le in Hnn. lia.
Qed.

Lemma adjust_speed_selected c w sc p wm :
  scene w = Some sc ->
  selection_in_range sc (env w) = true ->
  windmills sc !! Z.to_nat (selectedWindmill (env w) - 1) = Some p ->
  (0 <=? selectedWindmill (env w) - 1) = true ->
  heap w !! p = Some (EWindmill wm) ->
  adjust_speed (change_speed c) (speed_message c) w
  = Ok (tt, mkWorld
              (said [OStr (speed_message c);
                     OFloat (changed_speed c (rotationSpeed wm)); OEndl] (env w))
              (<[p := EWindmill (set_rotationSpeed
                                   (changed_speed c (rotationSpeed wm)) wm)]> (heap w))
              (scene w)).
Proof.
  intros Hsc Hsel Hp Hnn Hwm. unfold adjust_speed.
  unfold bind at 1, the_scene at 1. rewrite Hsc.
  unfold bind at 1. cbn [run_static global fst snd]. rewrite world_eta.
  rewrite Hsel.
  unfold bind at 1, windmill_at at 1, bind at 1, the_scene at 1.
  rewrite Hsc, Hnn, Hp. unfold ret at 1.
  unfold bind at 1.
  rewrite (invoke_windmill_eq (change_speed c) w p wm _ _ _ Hwm
             (change_speed_eq c wm (env w))).
  unfold bind at 1, windmill_at at 1, bind at 1, the_scene at 1. cbn [scene env].
  rewrite Hsc, Hnn, Hp. unfold ret at 1.
  unfold bind at 1.
  erewrite (invoke_windmill_eq Windmill_getSpeed);
    [|cbn [heap]; apply lookup_insert_eq|reflexivity].
  cbn. rewrite insert_insert_eq. rewrite <- Hsc. reflexivity.
Qed.

(** X3.  In a state the program can reach, a speed key acts on the
    windmill whose identity is the selection, the one drawn with the
    selection ring: its speed takes the clamped step and is printed; every
    other object, the scene, the flags and the counters stay as they were.
    When the guard fails (the scene owns no windmill, as after the reset
    key) the key does nothing. *)
Theorem X3_speed_key_acts_on_selected_windmill
    (evs : list event) (w : World) (sc : Scene) (c : speed_change) (key : ascii) :
  run evs = Ok (tt, w) ->
  scene w = Some sc ->
  speed_key c key ->
  (selection_in_range sc (env w) = true ->
   exists p wm,
     windmills sc !! Z.to_nat (selectedWindmill (env w) - 1) = Some p /\
     heap w !! p = Some (EWindmill wm) /\
     id wm = selectedWindmill (env w) /\
     keyboard key w
     = Ok (tt, mkWorld
                 (redisplay
                    (said [OStr (speed_message c);
                           OFloat (changed_speed c (rotationSpeed wm)); OEndl]
                       (env w)))
                 (<[p := EWindmill (set_rotationSpeed
                                      (changed_speed c (rotationSpeed wm)) wm)]>
                    (heap w))
                 (scene w))) /\
  (selection_in_range sc (env w) = false ->
   windmills sc = [] /\
   keyboard key w = Ok (tt, painted [GlutPostRedisplay] w)).
Proof.
  intros Hrun Hsc Hkey. destruct (reachable_Inv evs w Hrun) as [sc' Hw].
  assert (sc' = sc) as -> by (pose proof (inv_scene w sc' Hw); congruence).
  rewrite (keyboard_speed c key Hkey). split.
  - intros Hsel. destruct (selected_windmill w sc Hw Hsel) as (p & wm & Hp & Hnn & Hwm & Hid).
    exists p, wm. split; [exact Hp|]. split; [exact Hwm|]. split; [exact Hid|].
    unfold bind. rewrite (adjust_speed_selected c w sc p wm Hsc Hsel Hp Hnn Hwm).
    reflexivity.
  - intros Hsel. split.
    + destruct (inv_sel w sc Hw) as [H1 [Hle|Hdef]];
        unfold selection_in_range in Hsel;
        destruct (windmills sc) as [|q l]; try reflexivity; exfalso;
        cbn [length Nat.eqb negb andb] in Hsel;
        apply andb_false_iff in Hsel as [Hsel|Hsel];
        [apply Z.ltb_ge in Hsel|apply Z.leb_gt in Hsel
        |apply Z.ltb_ge in Hsel|apply Z.leb_gt in Hsel]; cbn [length] in *; lia.
    + unfold bind, adjust_speed. unfold bind at 1, the_scene at 1. rewrite Hsc.
      unfold bind at 1. cbn [run_static global fst snd]. rewrite world_eta.
      rewrite Hsel. reflexivity.
Qed.


(** *** Runs, event by event *)


(** *** The quit key *)




(** *** The keys that add an entity *)

Definition windmill_key (key : ascii) : Prop := key = "w"%char \/ key = "W"%char.
Definition cloud_key (key : ascii) : Prop := key = "c"%char \/ key = "C"%char.

(** The windmill the [w] key constructs in process state [e] when the
    counter stands at [n]: placed by the next two results of [rand()],
    with the dimensions, the speed and the angle of the constructor's
    defaults and the identity [n + 1]. *)
Definition added_windmill (e : Env) (n : Z) : Windmill :=
  mkWindmill
    (mkDrawable
       (random_value (F32.opp (F32.of_Z 400)) (F32.of_Z 400) (rand_seq (rand_calls e)))
       (random_value (F32.opp (F32.of_Z 300)) (F32.opp (F32.of_Z 180))
          (rand_seq (S (rand_calls e))))
       true)
    (F32.of_Z 0) (F32.of_Z 2) true (F32.of_Z 30) (F32.of_Z 120) (F32.of_Z 80) 4
    (n + 1).

(** The cloud the [c] key constructs: placed and paced by the next three
    results of [rand()], with the default size. *)
Definition added_cloud (e : Env) : Cloud :=
  Cloud_new
    (random_value (F32.opp (F32.of_Z 450)) (F32.of_Z 450) (rand_seq (rand_calls e)))
    (random_value (F32.of_Z 150) (F32.of_Z 280) (rand_seq (S (rand_calls e))))
    (random_value (F32.lit 2 1) (F32.lit 5 1) (rand_seq (S (S (rand_calls e)))))
    (F32.of_Z 25).

Lemma on_windmill_eq w sc :
  scene w = Some sc ->
  on_windmill w
  = Ok (tt, mkWorld
              (said [OStr "Added Windmill #"; OInt (windmillCount (env w) + 1); OEndl]
                 (set_windmillCount (windmillCount (env w) + 1)
                    (set_rand_calls (S (S (rand_calls (env w)))) (env w))))
              (<[fresh (dom (heap w)) :=
                   EWindmill (added_windmill (env w) (windmillCount (env w)))]> (heap w))
              (Some (mkScene (objects sc ++ [fresh (dom (heap w))])
                             (windmills sc ++ [fresh (dom (heap w))])
                             (clouds sc) (celestialBody sc)))).
Proof.
  intros Hsc. unfold on_windmill.
  unfold bind at 1. cbn [run_static randomFloat rand bind global set_global ret fst snd
                         env heap scene rand_calls set_rand_calls].
  unfold bind at 1. cbn [run_static randomFloat rand bind global set_global ret fst snd
                         env heap scene rand_calls set_rand_calls].
  unfold bind at 1. rewrite new_Windmill_eq. cbn [env heap scene].
  unfold bind at 1. erewrite Scene_addWindmill_eq by exact Hsc.
  reflexivity.
Qed.

Lemma on_cloud_eq w sc :
  scene w = Some sc ->
  on_cloud w
  = Ok (tt, mkWorld
              (said [OStr "Added new cloud"; OEndl]
                 (set_rand_calls (S (S (S (rand_calls (env w))))) (env w)))
              (<[fresh (dom (heap w)) := ECloud (added_cloud (env w))]> (heap w))
              (Some (mkScene (objects sc ++ [fresh (dom (heap w))])
                             (windmills sc)
                             (clouds sc ++ [fresh (dom (heap w))])
                             (celestialBody sc)))).
Proof.
  intros Hsc. unfold on_cloud.
  do 3 (unfold bind at 1;
        cbn [run_static randomFloat rand bind global set_global ret fst snd
             env heap scene rand_calls set_rand_calls]).
  unfold new_Cloud, new. cbn [env heap scene].
  erewrite Scene_addCloud_eq by exact Hsc.
  reflexivity.
Qed.

(** X5.  In a state the program can reach, the [w] key constructs one
    windmill at an address not in use and appends it to the windmill view
    and to the master sequence.  Its identity is the number of windmills
    the scene then owns, which is also the new value of the counter and the
    number printed; speed, angle and dimensions are the constructor's
    defaults and the position comes from two calls of [rand()].  The
    selection does not move, no other object is touched, and there is no
    upper limit on the number of windmills. *)
Theorem X5_w_key_adds_a_windmill
    (evs : list event) (w : World) (sc : Scene) (key : ascii) :
  run evs = Ok (tt, w) ->
  scene w = Some sc ->
  windmill_key key ->
  let p := fresh (dom (heap w)) in
  let n := Z.of_nat (length (windmills sc)) in
  heap w !! p = None /\
  windmillCount (env w) = n /\
  keyboard key w
  = Ok (tt, mkWorld
              (redisplay
                 (said [OStr "Added Windmill #"; OInt (n + 1); OEndl]
                    (set_windmillCount (n + 1)
                       (set_rand_calls (S (S (rand_calls (env w)))) (env w)))))
              (<[p := EWindmill (added_windmill (env w) n)]> (heap w))
              (Some (mkScene (objects sc ++ [p]) (windmills sc ++ [p])
                             (clouds sc) (celestialBody sc)))).
Proof.
  intros Hrun Hsc Hkey p n. destruct (reachable_Inv evs w Hrun) as [sc' Hw].
  assert (sc' = sc) as -> by (pose proof (inv_scene w sc' Hw); congruence).
  split; [apply fresh_not_owned|]. split; [apply (inv_count w sc Hw)|].
  assert (Hk : keyboard key = (on_windmill ;;; run_static (emit GlutPostRedisplay)))
    by (destruct Hkey as [-> | ->]; reflexivity).
  rewrite Hk. unfold bind. rewrite (on_windmill_eq w sc Hsc).
  rewrite (inv_count w sc Hw). reflexivity.
Qed.

(** X6.  The [c] key, in any state with a scene, constructs one cloud at
    an address not in use and appends it to the cloud view and to the
    master sequence; its position and speed come from three calls of
    [rand()], in the order x, y, speed, and its size is the default 25.
    Windmills, counter and selection are untouched. *)
Theorem X6_c_key_adds_a_cloud (w : World) (sc : Scene) (key : ascii) :
  scene w = Some sc ->
  cloud_key key ->
  let p := fresh (dom (heap w)) in
  heap w !! p = None /\
  keyboard key w
  = Ok (tt, mkWorld
              (redisplay
                 (said [OStr "Added new cloud"; OEndl]
                    (set_rand_calls (S (S (S (rand_calls (env w))))) (env w))))
              (<[p := ECloud (added_cloud (env w))]> (heap w))
              (Some (mkScene (objects sc ++ [p]) (windmills sc)
                             (clouds sc ++ [p]) (celestialBody sc)))).
Proof.
  intros Hsc Hkey p. split; [apply fresh_not_owned|].
  assert (Hk : keyboard key = (on_cloud ;;; run_static (emit GlutPostRedisplay)))
    by (destruct Hkey as [-> | ->]; reflexivity).
  rewrite Hk. unfold bind. rewrite (on_cloud_eq w sc Hsc). reflexivity.
Qed.


(** *** Callbacks on a null scene *)

Lemma run_static_paints {A : Type} (m : Meth unit A) :
  paints m -> forall w, exists a cmds, run_static m w = Ok (a, painted cmds w).
Proof.
  intros Hm w. destruct (Hm tt (env w)) as (a & c & E).
  exists a, c. unfold run_static. by rewrite E.
Qed.

(** The keys whose case of the [switch] goes through the pointer [scene]
    without testing it (the quit key is left out: it only deletes it). *)
Definition scene_key (key : ascii) : Prop :=
  1 <= digit_index key <= 5 \/
  (exists c, speed_key c key) \/
  cloud_key key \/ windmill_key key \/
  key = "r"%char \/ key = "R"%char.

(** X7.  While the pointer [scene] is null, [timer] is safe (it tests the
    pointer, and then only requests the redisplay and the next tick) but
    [display] is not: it tests the pointer before [drawAll()], then
    [drawHUD()] goes through it unconditionally.  The keys that select,
    change a speed, add an entity or reset go through it as well. *)
Theorem X7_null_scene_is_tested_by_timer_only (w : World) :
  scene w = None ->
  timer w = Ok (tt, painted tick_requests w) /\
  display w = Fault /\
  (forall key, scene_key key -> keyboard key w = Fault).
Proof.
  intros Hsc. split; [|split].
  - unfold timer, bind, if_scene. rewrite Hsc. unfold ret.
    cbn [run_static emit set_global fst snd env heap scene].
    unfold painted, tick_requests, set_gl. cbn. by rewrite <- app_assoc.
  - unfold display. unfold bind at 1.
    destruct (run_static_paints drawBackground paints_drawBackground w)
      as ([] & c1 & ->).
    unfold bind at 1, if_scene at 1. cbn [scene painted]. rewrite Hsc.
    unfold bind at 1, drawHUD. unfold bind at 1.
    match goal with
    | |- context [run_static ?m (painted c1 w)] =>
        destruct (run_static_paints m ltac:(paint) (painted c1 w)) as ([] & c2 & ->)
    end.
    unfold bind at 1, the_scene at 1. cbn [scene painted]. by rewrite Hsc.
  - intros key [Hd | [[c Hc] | [Hc | [Hw | Hr]]]].
    + rewrite (keyboard_select key Hd). unfold bind at 1, on_select. cbv zeta.
      unfold bind at 1, the_scene at 1. by rewrite Hsc.
    + rewrite (keyboard_speed c key Hc). unfold bind at 1, adjust_speed.
      unfold bind at 1, the_scene at 1. by rewrite Hsc.
    + assert (Hk : keyboard key = (on_cloud ;;; run_static (emit GlutPostRedisplay)))
        by (destruct Hc as [-> | ->]; reflexivity).
      rewrite Hk. unfold bind at 1, on_cloud.
      do 3 (unfold bind at 1;
            cbn [run_static randomFloat rand bind global set_global ret fst snd
                 env heap scene rand_calls set_rand_calls]).
      unfold new_Cloud, new, Scene_addCloud, the_scene. cbn [env heap scene bind].
      by rewrite Hsc.
    + assert (Hk : keyboard key = (on_windmill ;;; run_static (emit GlutPostRedisplay)))
        by (destruct Hw as [-> | ->]; reflexivity).
      rewrite Hk. unfold bind at 1, on_windmill.
      do 2 (unfold bind at 1;
            cbn [run_static randomFloat rand bind global set_global ret fst snd
                 env heap scene rand_calls set_rand_calls]).
      unfold bind at 1. rewrite new_Windmill_eq.
      unfold bind at 1, Scene_addWindmill at 1, bind at 1, the_scene at 1.
      cbn [env heap scene]. by rewrite Hsc.
    + assert (Hk : keyboard key = (on_reset ;;; run_static (emit GlutPostRedisplay)))
        by (destruct Hr as [-> | ->]; reflexivity).
      rewrite Hk. unfold bind at 1, on_reset.
      unfold bind at 1. cbn [run_static print set_global fst snd].
      unfold bind at 1, Scene_clear at 1, bind at 1, the_scene at 1.
      cbn [env heap scene]. by rewrite Hsc.
Qed.


(** *** One timer tick over the whole scene *)

(** What one unpaused [update()] makes of an object: a rotating windmill
    takes one blade step, the celestial body one phase step when its
    animation is on, and a cloud drifts by its speed or, past the right
    edge, restarts at the left edge at a height drawn from [rand()]. *)
Definition ticked (animate : bool) (o o' : Entity) : Prop :=
  match o, o' with
  | EWindmill wm, EWindmill wm' =>
      wm' = if isRotating wm
            then set_bladeAngle (blade_step (bladeAngle wm) (rotationSpeed wm)) wm
            else wm
  | ECelestialBody cb, ECelestialBody cb' =>
      cb' = if animate then set_angle (phase_step (angle cb)) cb else cb
  | ECloud c, ECloud c' =>
      speed c' = speed c /\ size c' = size c /\
      visible (cloud_base c') = visible (cloud_base c) /\
      if F32.gtb (F32.add (x (cloud_base c)) (speed c)) (F32.of_Z 450)
      then x (cloud_base c') = F32.opp (F32.of_Z 450) /\
           exists n, y (cloud_base c')
                     = random_value (F32.of_Z 150) (F32.of_Z 280) (rand_seq n)
      else x (cloud_base c') = F32.add (x (cloud_base c)) (speed c) /\
           y (cloud_base c') = y (cloud_base c)
  | _, _ => False
  end.

Lemma set_rand_calls_same e : set_rand_calls (rand_calls e) e = e.
Proof. by destruct e. Qed.

Lemma virtual_update_effect w p o :
  heap w !! p = Some o ->
  isPaused (env w) = false ->
  exists o' n,
    virtual (@update) p w
    = Ok (tt, mkWorld (set_rand_calls n (env w)) (<[p := o']> (heap w)) (scene w)) /\
    (rand_calls (env w) <= n)%nat /\
    ticked (animateCelestial (env w)) o o'.
Proof.
  intros Hp Hrun. unfold virtual, run_on. rewrite Hp.
  destruct o as [c|cb|wm]; cbn [update Cloud_ops CelestialBody_ops Windmill_ops].
  - rewrite Cloud_update_eq, Hrun. cbv zeta.
    destruct (_ >? _)%f32 eqn:Hgt.
    + eexists _, _. split; [reflexivity|]. split; [lia|].
      cbn. change (SFltb ?a ?b) with (F32.gtb b a). rewrite Hgt.
      repeat split. by exists (rand_calls (env w)).
    + exists (ECloud (mkCloud (mkDrawable (F32.add (x (cloud_base c)) (speed c))
                                 (y (cloud_base c)) (visible (cloud_base c)))
                        (speed c) (size c))), (rand_calls (env w)).
      rewrite set_rand_calls_same. split; [reflexivity|]. split; [lia|].
      cbn. change (SFltb ?a ?b) with (F32.gtb b a). rewrite Hgt. by repeat split.
  - rewrite CelestialBody_update_eq, Hrun. cbn [orb].
    eexists _, (rand_calls (env w)). rewrite set_rand_calls_same.
    split; [reflexivity|]. split; [lia|]. cbn. by destruct (animateCelestial (env w)).
  - rewrite Windmill_update_eq, Hrun. cbn [orb].
    eexists _, (rand_calls (env w)). rewrite set_rand_calls_same.
    split; [reflexivity|]. split; [lia|]. cbn. by destruct (isRotating wm).
Qed.

Lemma update_objects_effect (l : list nat) : forall w,
  NoDup l ->
  (forall p, p ∈ l -> is_Some (heap w !! p)) ->
  isPaused (env w) = false ->
  exists h n,
    for_each l (virtual (@update)) w
    = Ok (tt, mkWorld (set_rand_calls n (env w)) h (scene w)) /\
    (rand_calls (env w) <= n)%nat /\
    (forall p, p ∉ l -> h !! p = heap w !! p) /\
    (forall p, p ∈ l ->
       exists o o', heap w !! p = Some o /\ h !! p = Some o' /\
                    ticked (animateCelestial (env w)) o o').
Proof.
  induction l as [|p l IH]; intros w Hnd Hl Hrun.
  - exists (heap w), (rand_calls (env w)). rewrite set_rand_calls_same, world_eta.
    split; [reflexivity|]. split; [lia|]. split; [done|].
    intros p Hp. by apply elem_of_nil in Hp.
  - apply NoDup_cons in Hnd as [Hp Hnd].
    destruct (Hl p) as [o Ho]; [by left|].
    destruct (virtual_update_effect w p o Ho Hrun) as (o' & n1 & E1 & Hn1 & Ht).
    cbn [for_each]. unfold bind. rewrite E1.
    destruct (IH (mkWorld (set_rand_calls n1 (env w)) (<[p := o']> (heap w)) (scene w))
                Hnd) as (h & n & E & Hn & Hout & Hin).
    { intros q Hq. cbn [heap]. destruct (decide (p = q)) as [<-|Hne].
      - rewrite lookup_insert_eq. eauto.
      - rewrite lookup_insert_ne by done. apply Hl. by right. }
    { exact Hrun. }
    exists h, n. rewrite E. cbn [env heap scene rand_calls set_rand_calls] in *.
    split; [reflexivity|]. split; [lia|]. split.
    + intros q Hq. rewrite Hout by (intros H; apply Hq; by right).
      apply lookup_insert_ne. intros <-. apply Hq. by left.
    + intros q Hq. apply elem_of_cons in Hq as [->|Hq].
      * exists o, o'. split; [exact Ho|]. split; [|exact Ht].
        rewrite Hout by exact Hp. apply lookup_insert_eq.
      * destruct (Hin q Hq) as (o1 & o1' & H1 & H2 & H3).
        exists o1, o1'. split; [|by split].
        rewrite <- H1. symmetry. apply lookup_insert_ne. intros <-. done.
Qed.

(** X8.  In a state the program can reach and that is not paused, one
    timer tick returns normally and updates every object of the scene
    exactly once: each has become what one [update()] makes of it.  No
    object appears or disappears, the scene is unchanged, and of the
    process state only the position in the sequence of [rand()] moves
    forward (once per cloud that wrapped) and the redisplay and the next
    tick are requested. *)
Theorem X8_tick_updates_every_object_once
    (evs : list event) (w : World) :
  run evs = Ok (tt, w) ->
  isPaused (env w) = false ->
  exists h n,
    timer w
    = Ok (tt, mkWorld (set_gl (gl (env w) ++ tick_requests) (set_rand_calls n (env w)))
                      h (scene w)) /\
    (rand_calls (env w) <= n)%nat /\
    forall p,
      match heap w !! p with
      | Some o => exists o', h !! p = Some o' /\
                             ticked (animateCelestial (env w)) o o'
      | None => h !! p = None
      end.
Proof.
  intros Hrun Hp. destruct (reachable_Inv evs w Hrun) as [sc Hw].
  destruct (update_objects_effect (objects sc) w (inv_nodup w sc Hw)) as
    (h & n & E & Hn & Hout & Hin); [intros p; apply (inv_owned w sc Hw)|exact Hp|].
  exists h, n. split; [|split; [exact Hn|]].
  - unfold timer, bind, if_scene, Scene_updateAll, bind, the_scene.
    rewrite (inv_scene w sc Hw). rewrite <- (inv_scene w sc Hw) at 1. rewrite E.
    cbn. rewrite (inv_scene w sc Hw). unfold set_gl, tick_requests. cbn.
    by rewrite <- app_assoc.
  - intros p. destruct (heap w !! p) as [o|] eqn:Ho.
    + destruct (Hin p) as (o1 & o1' & H1 & H2 & H3);
        [apply (inv_owned w sc Hw); eauto|].
      exists o1'. split; [exact H2|]. congruence.
    + rewrite Hout; [exact Ho|]. intros Hin'.
      apply (inv_owned w sc Hw) in Hin' as [o' Ho']. congruence.
Qed.


(** ** The blade angle is exact

    Speeds are whole numbers of halves and the angle starts at 0, so every
    sum and difference [Windmill::update] forms is a multiple of 0.5 below
    375, which binary32 holds exactly: the angle is computed without any
    rounding, modulo 360. *)

(** Equality of binary32 data, decided. *)
Definition float_eqb (a b : spec_float) : bool :=
  match a, b with
  | S754_zero s1, S754_zero s2 => Bool.eqb s1 s2
  | S754_infinity s1, S754_infinity s2 => Bool.eqb s1 s2
  | S754_nan, S754_nan => true
  | S754_finite s1 m1 e1, S754_finite s2 m2 e2 =>
      Bool.eqb s1 s2 && Pos.eqb m1 m2 && Z.eqb e1 e2
  | _, _ => false
  end.

Lemma float_eqb_eq a b : float_eqb a b = true -> a = b.
Proof.
  destruct a as [s1|s1| |s1 m1 e1], b as [s2|s2| |s2 m2 e2]; cbn; try discriminate.
  - intros H. apply Bool.eqb_prop in H. by subst.
  - intros H. apply Bool.eqb_prop in H. by subst.
  - reflexivity.
  - intros H. apply andb_true_iff in H as [H He]. apply andb_true_iff in H as [Hs Hm].
    apply Bool.eqb_prop in Hs. apply Pos.eqb_eq in Hm. apply Z.eqb_eq in He.
    by subst.
Qed.

(** One blade step from each angle of [k] halves at each speed of [n]
    halves, checked by evaluation. *)
Lemma steps_exact_true :
  forallb (fun k =>
     forallb (fun n => float_eqb (blade_step (halves k) (halves n))
                                 (halves ((k + n) mod 720)))
             (map Z.of_nat (seq 1 30)))
    (map Z.of_nat (seq 0 720)) = true.
Proof. vm_compute. reflexivity. Qed.

Lemma blade_step_exact k n :
  0 <= k < 720 -> 1 <= n <= 30 ->
  blade_step (halves k) (halves n) = halves ((k + n) mod 720).
Proof.
  intros Hk Hn.
  assert (Hk' : In k (map Z.of_nat (seq 0 720))).
  { apply in_map_iff. exists (Z.to_nat k). split; [lia|]. apply in_seq. lia. }
  assert (Hn' : In n (map Z.of_nat (seq 1 30))).
  { apply in_map_iff. exists (Z.to_nat n). split; [lia|]. apply in_seq. lia. }
  pose proof (proj1 (forallb_forall _ _) steps_exact_true k Hk') as H1.
  cbv beta in H1.
  pose proof (proj1 (forallb_forall _ _) H1 n Hn') as H2.
  cbv beta in H2.
  exact (float_eqb_eq _ _ H2).
Qed.

Lemma zero_is_no_halves : F32.of_Z 0 = halves 0.
Proof. vm_compute. reflexivity. Qed.

(** ** What holds of every object along every run *)

(** A windmill as the program keeps it: visible and rotating (nothing
    calls [setVisible] or [toggleRotation]), with four blades, a speed of
    [n] halves for some [n] from 1 to 30, a blade angle within a turn, the
    constructor's speed if its identity is beyond the reach of the digit
    keys, and a blade angle that is a whole number of halves. *)
Definition windmill_ok (wm : Windmill) : Prop :=
  visible (windmill_base wm) = true /\
  isRotating wm = true /\
  numBlades wm = 4 /\
  (exists n, 1 <= n <= 30 /\ rotationSpeed wm = halves n) /\
  F32.valid (bladeAngle wm) = true /\
  in_turn (bladeAngle wm) = true /\
  (5 < id wm -> rotationSpeed wm = F32.of_Z 2) /\
  (exists k, 0 <= k < 720 /\ bladeAngle wm = halves k).

Definition celestial_ok (cb : CelestialBody) : Prop :=
  visible (celestial_base cb) = true /\
  F32.valid (angle cb) = true /\
  in_turn (angle cb) = true.

Definition cloud_ok (c : Cloud) : Prop := visible (cloud_base c) = true.

Definition entity_ok (o : Entity) : Prop :=
  match o with
  | ECloud c => cloud_ok c
  | ECelestialBody cb => celestial_ok cb
  | EWindmill wm => windmill_ok wm
  end.

Definition Good (w : World) : Prop :=
  selectedWindmill (env w) <= 5 /\
  forall p o, heap w !! p = Some o -> entity_ok o.

Lemma halves_valid n : 1 <= n <= 30 -> F32.valid (halves n) = true.
Proof.
  revert n. apply halves_cases. intros k Hk.
  do 30 (destruct k as [|k]; [vm_compute; reflexivity|]). lia.
Qed.

Lemma two_is_four_halves : F32.of_Z 2 = halves 4.
Proof. vm_compute. reflexivity. Qed.

Lemma changed_speed_halves c n :
  1 <= n <= 30 -> changed_speed c (halves n) = halves (clamped_step c n).
Proof. destruct c; [apply faster_halves|apply slower_halves]. Qed.

Lemma new_windmill_ok posX posY tWidth tHeight bLength n :
  windmill_ok (mkWindmill (mkDrawable posX posY true) (F32.of_Z 0) (F32.of_Z 2) true
                          tWidth tHeight bLength 4 n).
Proof.
  unfold windmill_ok. cbn. repeat split; try reflexivity.
  - exists 4. split; [lia|apply two_is_four_halves].
  - exists 0. split; [lia|apply zero_is_no_halves].
Qed.

Lemma windmill_ok_update wm e :
  windmill_ok wm ->
  windmill_ok (if isPaused e || negb (isRotating wm) then wm
               else set_bladeAngle (blade_step (bladeAngle wm) (rotationSpeed wm)) wm).
Proof.
  intros Hok. destruct (isPaused e || negb (isRotating wm)); [exact Hok|].
  destruct Hok as (Hv & Hr & Hb & (n & Hn & Hs) & Hva & Hin & Hid & (k & Hk & Ha)).
  destruct (halves_in_range n Hn) as [Hlo Hhi].
  destruct (blade_step_in_turn (bladeAngle wm) (rotationSpeed wm) Hva) as [Hv' Hin'];
    [rewrite Hs; by apply halves_valid|exact Hin|by rewrite Hs|by rewrite Hs|].
  unfold windmill_ok. cbn. repeat split; try assumption; [by exists n|].
  exists ((k + n) mod 720). split; [apply Z.mod_pos_bound; lia|].
  rewrite Ha, Hs. by apply blade_step_exact.
Qed.

Lemma celestial_ok_update cb e :
  celestial_ok cb ->
  celestial_ok (if isPaused e || negb (animateCelestial e) then cb
                else set_angle (phase_step (angle cb)) cb).
Proof.
  intros Hok. destruct (isPaused e || negb (animateCelestial e)); [exact Hok|].
  destruct Hok as (Hv & Hva & Hin).
  destruct (phase_step_in_turn (angle cb) Hva Hin) as [Hv' Hin'].
  unfold celestial_ok. cbn. by repeat split.
Qed.

Lemma good_insert w e' p o s :
  Good w -> entity_ok o -> selectedWindmill e' = selectedWindmill (env w) ->
  Good (mkWorld e' (<[p := o]> (heap w)) s).
Proof.
  intros [Hsel Hh] Ho He. split; cbn; [lia|].
  intros q o' Hq. destruct (decide (p = q)) as [<-|Hne].
  - rewrite lookup_insert_eq in Hq. by injection Hq as <-.
  - rewrite lookup_insert_ne in Hq by done. by eapply Hh.
Qed.

Lemma good_env w e' s :
  Good w -> selectedWindmill e' <= 5 -> Good (mkWorld e' (heap w) s).
Proof. intros [Hsel Hh] He. by split. Qed.

Lemma good_painted w c : Good w -> Good (painted c w).
Proof. intros H. apply good_env; [exact H|apply H]. Qed.

(** Handlers that keep it, from a state that satisfies the ownership
    invariant. *)
Definition keeps_good (m : Prog unit) : Prop :=
  forall w, Inv w -> Good w ->
    match m w with
    | Ok (_, w') => Good w'
    | _ => True
    end.

Lemma keeps_good_ret : keeps_good (ret tt).
Proof. by intros w _ Hg. Qed.

Lemma keeps_good_bind (m1 m2 : Prog unit) :
  keeps_invariant m1 -> keeps_good m1 -> keeps_good m2 -> keeps_good (m1 ;;; m2).
Proof.
  intros Hi H1 H2 w Hw Hg. unfold bind. specialize (Hi w Hw). specialize (H1 w Hw Hg).
  destruct (m1 w) as [[[] w1]|?|]; [by apply H2|done|done].
Qed.

Lemma keeps_good_renders (m : Prog unit) : renders m -> keeps_good m.
Proof.
  intros Hm w [sc Hw] Hg.
  destruct (Hm w (consistent_scene_ok w sc Hw)) as ([] & c & ->).
  by apply good_painted.
Qed.

Lemma keeps_good_select key : 1 <= digit_index key <= 5 -> keeps_good (on_select key).
Proof.
  intros Hd w [sc Hw] Hg. unfold on_select. cbv zeta. fold (digit_index key).
  unfold bind at 1, the_scene. rewrite (inv_scene w sc Hw).
  destruct ((0 <? digit_index key)
            && (digit_index key <=? Z.of_nat (length (windmills sc)))); [|exact Hg].
  cbn. apply good_env; [exact Hg|]. cbn. lia.
Qed.

Lemma keeps_good_adjust_speed c :
  keeps_good (adjust_speed (change_speed c) (speed_message c)).
Proof.
  intros w [sc Hw] Hg.
  destruct (selection_in_range sc (env w)) eqn:Hsel.
  - destruct (selected_windmill w sc Hw Hsel) as (p & wm & Hp & Hnn & Hwm & Hid).
    rewrite (adjust_speed_selected c w sc p wm (inv_scene w sc Hw) Hsel Hp Hnn Hwm).
    apply good_insert; [exact Hg| |reflexivity].
    destruct Hg as [Hle Hh].
    destruct (Hh p _ Hwm) as (Hv & Hr & Hb & (n & Hn & Hs) & Hva & Hin & _ & Hex).
    unfold entity_ok, windmill_ok. cbn. repeat split; try assumption.
    + exists (clamped_step c n). split; [by apply clamped_step_range|].
      rewrite Hs. by apply changed_speed_halves.
    + intros H5. lia.
  - unfold adjust_speed. unfold bind at 1, the_scene at 1.
    rewrite (inv_scene w sc Hw).
    unfold bind at 1. cbn [run_static global fst snd]. rewrite world_eta.
    rewrite Hsel. exact Hg.
Qed.

Lemma keeps_good_flags (m : Prog unit) :
  (forall w, exists e', m w = Ok (tt, mkWorld e' (heap w) (scene w)) /\
                        selectedWindmill e' = selectedWindmill (env w)) ->
  keeps_good m.
Proof.
  intros Hm w _ Hg. destruct (Hm w) as (e' & -> & He).
  apply good_env; [exact Hg|]. rewrite He. apply Hg.
Qed.

Lemma keeps_good_on_cloud : keeps_good on_cloud.
Proof.
  intros w [sc Hw] Hg. rewrite (on_cloud_eq w sc (inv_scene w sc Hw)).
  by apply good_insert.
Qed.

Lemma keeps_good_on_windmill : keeps_good on_windmill.
Proof.
  intros w [sc Hw] Hg. rewrite (on_windmill_eq w sc (inv_scene w sc Hw)).
  apply good_insert; [exact Hg|apply new_windmill_ok|reflexivity].
Qed.

Lemma keeps_good_on_reset : keeps_good on_reset.
Proof.
  intros w [sc Hw] Hg. unfold on_reset.
  unfold bind at 1. cbn [run_static print set_global fst snd].
  unfold bind at 1.
  rewrite (Scene_clear_eq _ sc); cbn [env heap scene];
    [|apply Hw|apply Hw|intros p Hp; by apply (inv_owned w sc Hw)].
  cbn. split; cbn; [lia|].
  intros p o Hp. rewrite released_lookup in Hp.
  destruct (decide (p ∈ objects sc)); [done|]. by eapply Hg.
Qed.

Lemma keeps_good_on_quit : keeps_good on_quit.
Proof. intros w Hw _. by destruct (never_faults_on_quit w Hw) as [w' ->]. Qed.

Lemma keeps_good_keyboard key : keeps_good (keyboard key).
Proof.
  unfold keyboard.
  assert (Hend : forall m, keeps_invariant m -> keeps_good m ->
                 keeps_good (m ;;; run_static (emit GlutPostRedisplay))).
  { intros m Hi Hm. apply keeps_good_bind; [exact Hi|exact Hm|].
    apply keeps_good_renders, renders_run_static, paints_emit. }
  destruct key as [b0 b1 b2 b3 b4 b5 b6 b7].
  destruct b0, b1, b2, b3, b4, b5, b6, b7; cbv beta iota;
    first
      [ apply (Hend _ keeps_ret keeps_good_ret)
      | apply (Hend _ (keeps_on_select _)), keeps_good_select;
        vm_compute; split; discriminate
      | apply (Hend _ keeps_on_faster (keeps_good_adjust_speed Increase))
      | apply (Hend _ keeps_on_slower (keeps_good_adjust_speed Decrease))
      | apply (Hend _ keeps_on_day), keeps_good_flags; intros w; by eexists
      | apply (Hend _ keeps_on_night), keeps_good_flags; intros w; by eexists
      | apply (Hend _ keeps_on_cloud keeps_good_on_cloud)
      | apply (Hend _ keeps_on_windmill keeps_good_on_windmill)
      | apply (Hend _ keeps_on_sun), keeps_good_flags; intros w; by eexists
      | apply (Hend _ keeps_on_pause), keeps_good_flags; intros w; by eexists
      | apply (Hend _ keeps_on_reset keeps_good_on_reset)
      | apply (Hend _ keeps_on_quit keeps_good_on_quit) ].
Qed.

Lemma good_virtual_update w p :
  Good w ->
  match virtual (@update) p w with
  | Ok (_, w') => Good w'
  | _ => True
  end.
Proof.
  intros Hg. unfold virtual, run_on.
  destruct (heap w !! p) as [[c|cb|wm]|] eqn:Hp; [| | |done];
    cbn [update Cloud_ops CelestialBody_ops Windmill_ops].
  - rewrite Cloud_update_eq. pose proof (proj2 Hg p _ Hp) as Hc.
    destruct (isPaused (env w)); [by apply good_insert|]. cbv zeta.
    destruct (_ >? _)%f32; by apply good_insert.
  - rewrite CelestialBody_update_eq.
    apply good_insert; [exact Hg| |reflexivity].
    apply celestial_ok_update, (proj2 Hg p _ Hp).
  - rewrite Windmill_update_eq.
    apply good_insert; [exact Hg| |reflexivity].
    apply windmill_ok_update, (proj2 Hg p _ Hp).
Qed.

Lemma good_update_objects (l : list nat) : forall w,
  Good w ->
  match for_each l (virtual (@update)) w with
  | Ok (_, w') => Good w'
  | _ => True
  end.
Proof.
  induction l as [|p l IH]; intros w Hg; [exact Hg|].
  cbn [for_each]. unfold bind. pose proof (good_virtual_update w p Hg) as H.
  destruct (virtual (@update) p w) as [[[] w1]|?|]; [by apply IH|done|done].
Qed.

Lemma keeps_good_timer : keeps_good timer.
Proof.
  unfold timer. apply keeps_good_bind.
  - intros w Hw. pose proof (keeps_timer w Hw) as H. unfold timer, bind in H.
    destruct (if_scene Scene_updateAll w) as [[[] w1]|?|]; [|done|done].
    destruct Hw as [sc Hw]. destruct H as [sc1 H1].
    exists sc1. destruct H1 as [? ? ? ? ? ? ?]. by split.
  - intros w [sc Hw] Hg. unfold if_scene, Scene_updateAll, bind, the_scene.
    rewrite (inv_scene w sc Hw). apply good_update_objects, Hg.
  - apply keeps_good_renders, renders_bind; [|intros _];
      apply renders_run_static, paints_emit.
Qed.

Lemma keeps_good_handle ev : keeps_good (handle ev).
Proof.
  destruct ev; cbn [handle].
  - apply keeps_good_keyboard.
  - apply keeps_good_timer.
  - apply keeps_good_renders, renders_display.
Qed.

Lemma keeps_good_events evs : keeps_good (for_each evs handle).
Proof.
  induction evs as [|ev evs IH]; cbn [for_each].
  - apply keeps_good_ret.
  - apply keeps_good_bind; [apply keeps_handle|apply keeps_good_handle|done].
Qed.


(** Start-up establishes it. *)
Definition good_with_scene (m : Prog unit) : Prop :=
  forall w, is_Some (scene w) -> Good w ->
    match m w with
    | Ok (_, w') => Good w'
    | _ => True
    end.

Lemma good_new_windmill posX posY tWidth tHeight bLength (k : Prog unit) :
  good_with_scene k ->
  good_with_scene
    (let* p := new_Windmill posX posY tWidth tHeight bLength 4 in
     Scene_addWindmill p ;;; k).
Proof.
  intros Hk w [sc Hsc] Hg. unfold bind at 1. rewrite new_Windmill_eq.
  unfold bind at 1. rewrite (Scene_addWindmill_eq _ sc) by exact Hsc.
  apply Hk; [by eexists|]. cbn [env heap scene].
  apply good_insert; [exact Hg|apply new_windmill_ok|reflexivity].
Qed.

Lemma good_new_cloud posX posY spd sz (k : Prog unit) :
  good_with_scene k ->
  good_with_scene (let* p := new_Cloud posX posY spd sz in Scene_addCloud p ;;; k).
Proof.
  intros Hk w [sc Hsc] Hg. unfold bind at 1, new_Cloud at 1, new at 1.
  unfold bind at 1. rewrite (Scene_addCloud_eq _ sc) by exact Hsc.
  apply Hk; [by eexists|]. cbn [env heap scene]. by apply good_insert.
Qed.

Lemma good_new_celestial posX posY rad col :
  good_with_scene
    (let* p := new_CelestialBody posX posY rad col in Scene_setCelestialBody p).
Proof.
  intros w [sc Hsc] Hg. unfold bind at 1, new_CelestialBody at 1, new at 1.
  rewrite (Scene_setCelestialBody_eq _ sc) by exact Hsc.
  apply good_insert; [exact Hg| |reflexivity].
  unfold entity_ok, celestial_ok, CelestialBody_new. cbn.
  repeat split; vm_compute; reflexivity.
Qed.

Lemma good_with_scene_apply (m : Prog unit) w :
  good_with_scene m -> is_Some (scene w) -> Good w ->
  match m w with
  | Ok (_, w') => Good w'
  | _ => True
  end.
Proof. intros H. apply H. Qed.

Lemma initScene_good :
  match initScene boot with
  | Ok (_, w) => Good w
  | _ => True
  end.
Proof.
  unfold initScene. unfold bind at 1, set_scene at 1.
  apply good_with_scene_apply.
  - do 3 apply good_new_windmill. do 2 apply good_new_cloud.
    apply (good_new_cloud _ _ _ _ (let* p := _ in _)).
    apply good_new_celestial.
  - cbn [scene]. eexists. reflexivity.
  - split.
    + cbn [env boot initial_env selectedWindmill]. lia.
    + intros p o Hp. cbn [heap boot] in Hp. rewrite lookup_empty in Hp. discriminate.
Qed.

Lemma run_eq evs :
  run evs
  = match initScene boot with
    | Ok (_, w0) => for_each evs handle w0
    | Exited w => Exited w
    | Fault => Fault
    end.
Proof. reflexivity. Qed.

(** Along any run every object is as described above and the selection is
    at most 5. *)
Lemma run_keeps_good evs w : run evs = Ok (tt, w) -> Good w.
Proof.
  intros Hrun. pose proof (run_keeps_invariant []) as Hinv.
  pose proof initScene_good as Hgood.
  rewrite run_eq in Hrun, Hinv.
  destruct (initScene boot) as [[[] w0]|?|]; [|discriminate|discriminate].
  pose proof (keeps_good_events evs w0 Hinv Hgood) as H.
  rewrite Hrun in H. exact H.
Qed.

(** X9.  In every state the program can reach, every windmill has a
    rotation speed between 0.5 and 15.0, a whole number of halves, and a
    blade angle in [0, 360); the animation phase of the celestial body is
    in [0, 360) as well.  All of them are binary32 numbers, never an
    infinity or a NaN. *)
Theorem X9_speeds_and_angles_stay_in_range
    (evs : list event) (w : World) (p : nat) :
  run evs = Ok (tt, w) ->
  match heap w !! p with
  | Some (EWindmill wm) =>
      (exists n, 1 <= n <= 30 /\ rotationSpeed wm = halves n) /\
      F32.valid (rotationSpeed wm) = true /\
      F32.leb (F32.lit 5 1) (rotationSpeed wm) = true /\
      F32.leb (rotationSpeed wm) (F32.of_Z 15) = true /\
      F32.valid (bladeAngle wm) = true /\
      in_turn (bladeAngle wm) = true
  | Some (ECelestialBody cb) =>
      F32.valid (angle cb) = true /\ in_turn (angle cb) = true
  | _ => True
  end.
Proof.
  intros Hrun. destruct (run_keeps_good evs w Hrun) as [_ Hh]. clear Hrun.
  destruct (heap w !! p) as [[c|cb|wm]|] eqn:Hp; [exact I| | |exact I].
  - destruct (Hh p _ Hp) as (_ & Hva & Hin). split; assumption.
  - destruct (Hh p _ Hp) as (_ & _ & _ & (n & Hn & Hs) & Hva & Hin & _).
    destruct (halves_in_range n Hn) as [Hlo Hhi].
    split; [exists n; split; assumption|]. rewrite Hs.
    split; [apply halves_valid; assumption|]. repeat split; assumption.
Qed.

(** X10.  Nothing in the program calls [toggleRotation], [setVisible] or
    changes the number of blades: in every state the program can reach
    every object is visible and every windmill is rotating and has four
    blades.  So [draw()] never takes its early return, an unpaused
    [Windmill::update()] always advances the blades, and the status the
    HUD would print is always the rotating one. *)
Theorem X10_objects_stay_visible_and_rotating
    (evs : list event) (w : World) (p : nat) :
  run evs = Ok (tt, w) ->
  match heap w !! p with
  | Some (EWindmill wm) =>
      visible (windmill_base wm) = true /\ isRotating wm = true /\ numBlades wm = 4
  | Some (ECelestialBody cb) => visible (celestial_base cb) = true
  | Some (ECloud c) => visible (cloud_base c) = true
  | None => True
  end.
Proof.
  intros Hrun. destruct (run_keeps_good evs w Hrun) as [_ Hh]. clear Hrun.
  destruct (heap w !! p) as [[c|cb|wm]|] eqn:Hp; [| | |exact I].
  - exact (Hh p _ Hp).
  - exact (proj1 (Hh p _ Hp)).
  - destruct (Hh p _ Hp) as (Hv & Hr & Hb & _). repeat split; assumption.
Qed.

(** X11.  The selection is always between 1 and 5, although the [w] key
    adds windmills without limit: a windmill whose identity is above 5 can
    never be selected, is never drawn with the selection ring, and keeps
    the speed 2.0 it was constructed with. *)
Theorem X11_only_five_windmills_can_be_controlled
    (evs : list event) (w : World) :
  run evs = Ok (tt, w) ->
  1 <= selectedWindmill (env w) <= 5 /\
  forall p wm,
    heap w !! p = Some (EWindmill wm) ->
    5 < id wm ->
    rotationSpeed wm = F32.of_Z 2 /\ id wm <> selectedWindmill (env w).
Proof.
  intros Hrun. destruct (run_keeps_good evs w Hrun) as [Hsel Hh].
  destruct (reachable_Inv evs w Hrun) as [sc Hw].
  pose proof (inv_sel w sc Hw) as [H1 _]. clear Hrun Hw.
  split; [lia|]. intros p wm Hp Hid.
  destruct (Hh p _ Hp) as (_ & _ & _ & _ & _ & _ & H2 & _).
  split; [apply H2; assumption|lia].
Qed.


(** ** The calls on the draw surface are legal OpenGL *)

(** The part of the OpenGL state that decides whether a call is legal:
    whether a [glBegin] is open, and how many matrices the program has
    pushed.  Between [glBegin] and [glEnd] only vertex and colour calls are
    allowed; [glBegin] does not nest; [glEnd] and [glPopMatrix] need
    something to close; the matrix stack holds at least 32 matrices, one of
    them in use. *)
Definition gl_state : Type := bool * nat.

Definition gl_idle : gl_state := (false, 0%nat).

Definition gl_step (s : gl_state) (c : GLcmd) : option gl_state :=
  let '(inside, depth) := s in
  match c with
  | GlBegin _ => if inside then None else Some (true, depth)
  | GlEnd => if inside then Some (false, depth) else None
  | GlVertex2f _ _ => if inside then Some s else None
  | GlColor3f _ _ _ => Some s
  | GlPushMatrix =>
      if inside then None
      else if (depth <? 31)%nat then Some (false, S depth) else None
  | GlPopMatrix =>
      if inside then None
      else match depth with
           | O => None
           | S d => Some (false, d)
           end
  | GlLineWidth _ | GlTranslatef _ _ _ | GlRotatef _ _ _ _
  | GlClearColor _ _ _ _ | GlClearColorBuffer | GlRasterPos2f _ _
  | GlutBitmapCharacter _ _ | GlutSwapBuffers | GlutPostRedisplay
  | GlutTimerFunc _ _ =>
      if inside then None else Some s
  end.

Fixpoint gl_run (s : gl_state) (cmds : list GLcmd) : option gl_state :=
  match cmds with
  | [] => Some s
  | c :: cmds' =>
      match gl_step s c with
      | Some s' => gl_run s' cmds'
      | None => None
      end
  end.

Lemma gl_run_app s c1 c2 s1 s2 :
  gl_run s c1 = Some s1 -> gl_run s1 c2 = Some s2 -> gl_run s (c1 ++ c2) = Some s2.
Proof.
  revert s. induction c1 as [|c c1 IH]; intros s H1 H2; cbn in *.
  - by injection H1 as ->.
  - destruct (gl_step s c); [by apply IH|done].
Qed.

(** A method that only draws, and takes the draw surface from state [s] to
    state [s'] by legal calls. *)
Definition draws {T A : Type} (m : Meth T A) (s s' : gl_state) : Prop :=
  forall (t : T) (e : Env), exists a cmds,
    m (t, e) = Ok (a, (t, set_gl (gl e ++ cmds) e)) /\ gl_run s cmds = Some s'.

Lemma draws_ret {T A : Type} (a : A) s : draws (@ret (T * Env) A a) s s.
Proof. intros t e. exists a, []. unfold ret. by rewrite set_gl_same. Qed.

Lemma draws_self {T : Type} s : draws (@self T) s s.
Proof. intros t e. exists t, []. unfold self. simpl. by rewrite set_gl_same. Qed.

Lemma draws_global {T A : Type} (f : Env -> A) s : draws (@global T A f) s s.
Proof. intros t e. exists (f e), []. unfold global. simpl. by rewrite set_gl_same. Qed.

Lemma draws_emit {T : Type} (c : GLcmd) s s' :
  gl_step s c = Some s' -> draws (@emit T c) s s'.
Proof. intros H t e. exists tt, [c]. split; [done|]. cbn. by rewrite H. Qed.

Lemma draws_bind {T A B : Type} (m : Meth T A) (k : A -> Meth T B) s s1 s2 :
  draws m s s1 -> (forall a, draws (k a) s1 s2) -> draws (bind m k) s s2.
Proof.
  intros Hm Hk t e. destruct (Hm t e) as (a & c1 & E1 & R1).
  destruct (Hk a t (set_gl (gl e ++ c1) e)) as (v & c2 & E2 & R2).
  exists v, (c1 ++ c2). unfold bind. rewrite E1, E2, set_gl_twice.
  split; [done|]. by eapply gl_run_app.
Qed.

Lemma draws_if {T A : Type} (c : bool) (m1 m2 : Meth T A) s s' :
  draws m1 s s' -> draws m2 s s' -> draws (if c then m1 else m2) s s'.
Proof. by destruct c. Qed.

Lemma draws_for_each {T A : Type} (l : list A) (body : A -> Meth T unit) s :
  (forall a, draws (body a) s s) -> draws (for_each l body) s s.
Proof.
  intros Hb. induction l as [|a l IH]; simpl.
  - apply draws_ret.
  - eapply draws_bind; [apply Hb | intros _; apply IH].
Qed.

Lemma draws_for_upto {T : Type} (n : Z) (body : Z -> Meth T unit) s :
  (forall i, draws (body i) s s) -> draws (for_upto n body) s s.
Proof. intros Hb. by apply draws_for_each. Qed.

Ltac legal_step :=
  repeat match goal with
    | |- forall _, _ => intros
    | |- draws (let _ := _ in _) _ _ => cbv zeta
    | |- draws (bind _ _) _ _ => eapply draws_bind
    | |- draws (if _ then _ else _) _ _ => apply draws_if
    | |- draws (for_upto _ _) _ _ => apply draws_for_upto
    | |- draws (for_each _ _) _ _ => apply draws_for_each
    | |- draws (emit _) _ _ => apply draws_emit; reflexivity
    | |- draws (ret _) _ _ => apply draws_ret
    | |- draws self _ _ => apply draws_self
    | |- draws (global _) _ _ => apply draws_global
    end.

Lemma draws_drawCircle {T : Type} cx cy rad segments d :
  draws (@drawCircle T cx cy rad segments) (false, d) (false, d).
Proof. unfold drawCircle. legal_step. Qed.

Lemma draws_bitmap_text {T : Type} font text d :
  draws (@bitmap_text T font text) (false, d) (false, d).
Proof. unfold bitmap_text. legal_step. Qed.

Lemma draws_blade_outline {T : Type} len d :
  draws (@blade_outline T len) (true, d) (true, d).
Proof. unfold blade_outline. legal_step. Qed.

Ltac legal :=
  repeat match goal with
    | |- forall _, _ => intros
    | |- draws (let _ := _ in _) _ _ => cbv zeta
    | |- draws (bind _ _) _ _ => eapply draws_bind
    | |- draws (if _ then _ else _) _ _ => apply draws_if
    | |- draws (for_upto _ _) _ _ => apply draws_for_upto
    | |- draws (for_each _ _) _ _ => apply draws_for_each
    | |- draws (emit _) _ _ => apply draws_emit; reflexivity
    | |- draws (ret _) _ _ => apply draws_ret
    | |- draws self _ _ => apply draws_self
    | |- draws (global _) _ _ => apply draws_global
    | |- draws (drawCircle _ _ _ _) _ _ => apply draws_drawCircle
    | |- draws (bitmap_text _ _) _ _ => apply draws_bitmap_text
    | |- draws (blade_outline _) _ _ => apply draws_blade_outline
    end.


Lemma draws_drawBackground {T : Type} : draws (@drawBackground T) gl_idle gl_idle.
Proof. unfold drawBackground, gl_idle. legal. Qed.

Lemma draws_Cloud_draw : draws Cloud_draw gl_idle gl_idle.
Proof.
  unfold Cloud_draw, gl_idle. legal.
Qed.

Lemma draws_CelestialBody_draw : draws CelestialBody_draw gl_idle gl_idle.
Proof.
  unfold CelestialBody_draw, gl_idle. legal.
Qed.

Lemma draws_Windmill_drawTower : draws Windmill_drawTower gl_idle gl_idle.
Proof. unfold Windmill_drawTower, gl_idle. legal. Qed.

Lemma draws_Windmill_drawBlades : draws Windmill_drawBlades gl_idle gl_idle.
Proof.
  unfold Windmill_drawBlades, gl_idle. legal.
Qed.

Lemma draws_Windmill_drawHub : draws Windmill_drawHub gl_idle gl_idle.
Proof. unfold Windmill_drawHub, gl_idle. legal. Qed.

Lemma draws_Windmill_drawSelectionIndicator :
  draws Windmill_drawSelectionIndicator gl_idle gl_idle.
Proof. unfold Windmill_drawSelectionIndicator, gl_idle. legal. Qed.

Lemma draws_Windmill_draw : draws Windmill_draw gl_idle gl_idle.
Proof.
  unfold Windmill_draw.
  eapply draws_bind; [apply draws_self|intros this].
  apply draws_if; [apply draws_ret|].
  eapply draws_bind; [apply draws_Windmill_drawTower|intros _].
  eapply draws_bind; [apply draws_Windmill_drawBlades|intros _].
  eapply draws_bind; [apply draws_Windmill_drawHub|intros _].
  apply draws_Windmill_drawSelectionIndicator.
Qed.


(** The same for the callbacks: from an idle draw surface back to an idle
    one, with nothing but the calls changed. *)
Definition renders_legally {A : Type} (m : Prog A) : Prop :=
  forall w, scene_ok w = true ->
    exists a cmds, m w = Ok (a, painted cmds w) /\ gl_run gl_idle cmds = Some gl_idle.

Lemma legally_bind {A B : Type} (m : Prog A) (k : A -> Prog B) :
  renders_legally m -> (forall a, renders_legally (k a)) -> renders_legally (bind m k).
Proof.
  intros Hm Hk w Hw. destruct (Hm w Hw) as (a & c1 & E1 & R1).
  destruct (Hk a (painted c1 w)) as (v & c2 & E2 & R2); [done|].
  exists v, (c1 ++ c2). unfold bind. rewrite E1, E2, painted_app.
  split; [done|]. by eapply gl_run_app.
Qed.

Lemma legally_run_static {A : Type} (m : Meth unit A) :
  draws m gl_idle gl_idle -> renders_legally (run_static m).
Proof.
  intros Hm w _. destruct (Hm tt (env w)) as (a & c & E & R).
  exists a, c. unfold run_static. by rewrite E.
Qed.

Lemma legally_run_on {T A : Type} (inj : T -> Entity) p this (m : Meth T A) :
  draws m gl_idle gl_idle ->
  forall w, heap w !! p = Some (inj this) ->
            exists a cmds, run_on inj p this m w = Ok (a, painted cmds w) /\
                           gl_run gl_idle cmds = Some gl_idle.
Proof.
  intros Hm w Hp. destruct (Hm this (env w)) as (a & c & E & R).
  exists a, c. unfold run_on. rewrite E. unfold painted.
  by rewrite insert_id.
Qed.

Lemma legally_virtual_draw w p :
  is_live (heap w) p = true ->
  exists cmds, virtual (@draw) p w = Ok (tt, painted cmds w) /\
               gl_run gl_idle cmds = Some gl_idle.
Proof.
  unfold is_live, virtual. intros Hp.
  destruct (heap w !! p) as [[c|cb|wm]|] eqn:E; [| | |done].
  - destruct (legally_run_on ECloud p c (@draw Cloud Cloud_ops)
                draws_Cloud_draw w E) as ([] & k & -> & R); eauto.
  - destruct (legally_run_on ECelestialBody p cb (@draw CelestialBody CelestialBody_ops)
                draws_CelestialBody_draw w E) as ([] & k & -> & R); eauto.
  - destruct (legally_run_on EWindmill p wm (@draw Windmill Windmill_ops)
                draws_Windmill_draw w E) as ([] & k & -> & R); eauto.
Qed.

Lemma legally_draw_objects (l : list nat) w :
  forallb (is_live (heap w)) l = true ->
  exists cmds, for_each l (virtual (@draw)) w = Ok (tt, painted cmds w) /\
               gl_run gl_idle cmds = Some gl_idle.
Proof.
  revert w. induction l as [|p l IH]; intros w Hl; simpl in *.
  - exists []. by rewrite painted_nil.
  - apply andb_true_iff in Hl as [Hp Hl].
    destruct (legally_virtual_draw w p Hp) as (c1 & E1 & R1).
    destruct (IH (painted c1 w) Hl) as (c2 & E2 & R2).
    exists (c1 ++ c2). unfold bind. rewrite E1, E2, painted_app.
    split; [done|]. by eapply gl_run_app.
Qed.

Lemma legally_drawAll : renders_legally Scene_drawAll.
Proof.
  intros w Hw. unfold scene_ok in Hw. unfold Scene_drawAll, bind, the_scene.
  destruct (scene w) as [sc|]; [|done].
  apply andb_true_iff in Hw as [Hl _].
  destruct (legally_draw_objects _ w Hl) as (c & E & R). by exists tt, c.
Qed.

Lemma legally_if_scene (m : Prog unit) : renders_legally m -> renders_legally (if_scene m).
Proof.
  intros Hm w Hw. unfold if_scene. destruct (scene w) eqn:E; [by apply Hm|].
  unfold scene_ok in Hw. by rewrite E in Hw.
Qed.

Lemma legally_invoke_windmill {A : Type} (m : Meth Windmill A) p :
  draws m gl_idle gl_idle ->
  forall w, is_windmill_at (heap w) p = true ->
            exists a cmds, invoke as_windmill EWindmill p m w = Ok (a, painted cmds w) /\
                           gl_run gl_idle cmds = Some gl_idle.
Proof.
  intros Hm w Hp. unfold is_windmill_at in Hp. unfold invoke.
  destruct (heap w !! p) as [[c|cb|wm]|] eqn:E; try done. simpl.
  by apply legally_run_on.
Qed.

Lemma draws_getSpeed : draws Windmill_getSpeed gl_idle gl_idle.
Proof. unfold Windmill_getSpeed, gl_idle. legal. Qed.

Lemma draws_getIsRotating : draws Windmill_getIsRotating gl_idle gl_idle.
Proof. unfold Windmill_getIsRotating, gl_idle. legal. Qed.

Lemma draws_hud_head :
  draws (T := unit)
    (emit (GlColor3f (F32.of_Z 1) (F32.of_Z 1) (F32.of_Z 1)) ;;;
     emit (GlRasterPos2f (F32.of_Z (-480)) (F32.of_Z 320)) ;;;
     bitmap_text GLUT_BITMAP_HELVETICA_18 "Enhanced Windmill Simulation - OOP Project" ;;;
     emit (GlRasterPos2f (F32.of_Z (-480)) (F32.of_Z 295)) ;;;
     let* day := global isDay in
     let* paused := global isPaused in
     let mode := ("Mode: " ++ (if day then "DAY" else "NIGHT")
                           ++ (if paused then " (PAUSED)" else ""))%string in
     bitmap_text GLUT_BITMAP_HELVETICA_12 mode)
    gl_idle gl_idle.
Proof. unfold gl_idle. legal. Qed.

Lemma draws_hud_foot :
  draws (T := unit)
    (emit (GlRasterPos2f (F32.of_Z (-480)) (F32.of_Z (-320))) ;;;
     bitmap_text GLUT_BITMAP_8_BY_13
       "Controls: 1/2/3-Select | +/-Speed | D-Day | N-Night | C-Cloud | W-Windmill | S-Sun | P-Pause | R-Reset | Q-Quit")
    gl_idle gl_idle.
Proof. unfold gl_idle. legal. Qed.

Lemma draws_hud_raster :
  draws (T := unit) (emit (GlRasterPos2f (F32.of_Z (-480)) (F32.of_Z 275)))
    gl_idle gl_idle.
Proof. unfold gl_idle. legal. Qed.

Lemma legally_drawHUD : renders_legally drawHUD.
Proof.
  unfold drawHUD. apply legally_bind.
  { apply legally_run_static, draws_hud_head. }
  intros _ w Hw. unfold bind at 1. unfold the_scene at 1.
  pose proof Hw as Hok. unfold scene_ok in Hok.
  destruct (scene w) as [sc|] eqn:Esc; [|done].
  apply andb_true_iff in Hok as [_ Hwm].
  unfold bind at 1. unfold run_static at 1, global at 1.
  cbn beta iota delta [fst snd]. rewrite world_eta.
  pose proof (legally_run_static _ draws_hud_foot) as Hrest.
  destruct (selection_in_range sc (env w)) eqn:Esel.
  - destruct (selection_in_range_lookup _ _ Esel) as (p & Hp & Hnn).
    assert (Hpw : is_windmill_at (heap w) p = true).
    { rewrite forallb_forall in Hwm. apply Hwm.
      apply list_elem_of_In. by eapply list_elem_of_lookup_2. }
    unfold bind at 1. unfold bind at 1.
    unfold windmill_at at 1, bind at 1, the_scene at 1. rewrite Esc, Hnn, Hp.
    unfold ret at 1. unfold bind at 1.
    destruct (legally_run_static _ draws_hud_raster w Hw) as ([] & c1 & -> & R1).
    unfold bind at 1.
    destruct (legally_invoke_windmill Windmill_getSpeed p draws_getSpeed
                (painted c1 w) Hpw) as (spd & c2 & -> & R2).
    rewrite painted_app. unfold bind at 1.
    destruct (legally_invoke_windmill Windmill_getIsRotating p draws_getIsRotating
                (painted (c1 ++ c2) w) Hpw) as (rot & c3 & -> & R3).
    rewrite painted_app.
    destruct (legally_run_static
                (bitmap_text GLUT_BITMAP_HELVETICA_12
                   (sprintf_info (selectedWindmill (env w)) spd
                      (if rot then "ROTATING" else "STOPPED")%string))
                (draws_bitmap_text _ _ _) (painted ((c1 ++ c2) ++ c3) w) Hw)
      as ([] & c4 & -> & R4).
    rewrite painted_app.
    destruct (Hrest (painted (((c1 ++ c2) ++ c3) ++ c4) w) Hw) as ([] & c5 & -> & R5).
    rewrite painted_app. exists tt, ((((c1 ++ c2) ++ c3) ++ c4) ++ c5).
    split; [reflexivity|].
    apply (gl_run_app _ _ _ gl_idle); [|exact R5].
    apply (gl_run_app _ _ _ gl_idle); [|exact R4].
    apply (gl_run_app _ _ _ gl_idle); [|exact R3].
    apply (gl_run_app _ _ _ gl_idle); [exact R1|exact R2].
  - unfold bind at 1, ret at 1.
    destruct (Hrest w Hw) as ([] & c5 & E5 & R5).
    exists tt, c5. split; [exact E5|exact R5].
Qed.

Lemma legally_display : renders_legally display.
Proof.
  unfold display.
  apply legally_bind; [apply legally_run_static, draws_drawBackground|intros _].
  apply legally_bind; [apply legally_if_scene, legally_drawAll|intros _].
  apply legally_bind; [apply legally_drawHUD|intros _].
  apply legally_run_static. unfold gl_idle. legal.
Qed.

(** X12.  In every state the program can reach, [display()] returns
    normally and the calls it has issued form a legal OpenGL frame: every
    [glBegin] is closed by a [glEnd] before the next one, vertices are
    given only between the two, every other call is made outside them,
    every [glPushMatrix] is undone by a [glPopMatrix] and the matrix stack
    never overflows, and the frame ends with nothing left open.  This holds whatever
    the number of blades, of objects and of characters drawn. *)
Theorem X12_every_frame_is_legal_opengl (evs : list event) (w : World) :
  run evs = Ok (tt, w) ->
  exists cmds,
    display w = Ok (tt, painted cmds w) /\
    gl_run gl_idle cmds = Some gl_idle.
Proof.
  intros Hrun. destruct (reachable_Inv evs w Hrun) as [sc Hw]. clear Hrun.
  destruct (legally_display w (consistent_scene_ok w sc Hw)) as ([] & cmds & E & R).
  exists cmds. split; assumption.
Qed.


(** ** The circle, the random numbers and the pause *)

(** Vertex [i] of the polygon [drawCircle] approximates a circle with. *)
Definition circle_vertex (cx cy rad : spec_float) (segments i : Z) : GLcmd :=
  let theta := (F32.of_Z 2 * pi_lit * F32.of_Z i / F32.of_Z segments)%f32 in
  GlVertex2f (rad * cosf theta + cx)%f32 (rad * sinf theta + cy)%f32.

Lemma for_each_emit {T A : Type} (f : A -> GLcmd) (l : list A) (t : T) (e : Env) :
  for_each l (fun a => emit (f a)) (t, e)
  = Ok (tt, (t, set_gl (gl e ++ map f l) e)).
Proof.
  revert e. induction l as [|a l IH]; intros e; cbn [for_each map].
  - unfold ret. by rewrite set_gl_same.
  - unfold bind. cbn [emit set_global fst snd]. rewrite IH.
    cbn [gl set_gl]. unfold set_gl. cbn. by rewrite <- app_assoc.
Qed.

(** X13.  [drawCircle] issues one polygon: [glBegin(GL_POLYGON)], then
    exactly [segments] vertices, number [i] at the angle
    [2 * 3.14159 * i / segments], then [glEnd()].  With [segments] zero or
    negative the polygon is empty: the loop body, and with it the division
    by [segments], is never evaluated. *)
Theorem X13_drawCircle_issues_one_polygon
    {T : Type} (cx cy rad : spec_float) (segments : Z) (t : T) (e : Env) :
  let vertices :=
    map (circle_vertex cx cy rad segments) (map Z.of_nat (seq 0 (Z.to_nat segments))) in
  drawCircle cx cy rad segments (t, e)
  = Ok (tt, (t, set_gl (gl e ++ GlBegin GL_POLYGON :: vertices ++ [GlEnd]) e)) /\
  length vertices = Z.to_nat segments /\
  (segments <= 0 -> vertices = []).
Proof.
  cbv zeta. split; [|split].
  - unfold drawCircle, for_upto. unfold bind at 1. cbn [emit set_global fst snd].
    unfold bind at 1.
    rewrite (for_each_emit (circle_vertex cx cy rad segments)).
    unfold emit, set_global, set_gl. cbn [fst snd gl isDay isPaused animateCelestial
      windmillCount selectedWindmill rand_calls cout].
    rewrite <- !app_assoc. reflexivity.
  - by rewrite !length_map, length_seq.
  - intros Hn. replace (Z.to_nat segments) with 0%nat by lia. reflexivity.
Qed.


(** X14.  [randomFloat(min, max)] at the ends of the range of [rand()].
    For [rand() = 0] the result is exactly [min], whenever [min] and the
    scale [RAND_MAX / (max - min)] are finite and not zero.  For
    [rand() = RAND_MAX] it need not be [max]: with the [RAND_MAX] of MinGW,
    32767, the scale is rounded, and the result is above 450 for the range
    of a new cloud's abscissa (so the [c] key can place a cloud beyond the
    boundary at which clouds wrap) and below 400 for that of a new
    windmill's; for the other three ranges the program uses it is exactly
    [max]. *)
Theorem X14_randomFloat_at_the_ends_of_the_range :
  (forall (mn mx : spec_float) (sm sd : bool) (mm md : positive) (em ed : Z),
     mn = S754_finite sm mm em ->
     F32.div (F32.of_Z RAND_MAX) (F32.sub mx mn) = S754_finite sd md ed ->
     random_value mn mx 0 = mn) /\
  (RAND_MAX = 32767 ->
   F32.gtb (random_value (F32.opp (F32.of_Z 450)) (F32.of_Z 450) RAND_MAX)
           (F32.of_Z 450) = true /\
   F32.ltb (random_value (F32.opp (F32.of_Z 400)) (F32.of_Z 400) RAND_MAX)
           (F32.of_Z 400) = true /\
   random_value (F32.of_Z 150) (F32.of_Z 280) RAND_MAX = F32.of_Z 280 /\
   random_value (F32.opp (F32.of_Z 300)) (F32.opp (F32.of_Z 180)) RAND_MAX
   = F32.opp (F32.of_Z 180) /\
   random_value (F32.lit 2 1) (F32.lit 5 1) RAND_MAX = F32.lit 5 1).
Proof.
  split.
  - intros mn mx sm sd mm md em ed -> HD. unfold random_value.
    change (F32.of_Z RAND_MAX / (mx - S754_finite sm mm em))%f32
      with (F32.div (F32.of_Z RAND_MAX) (F32.sub mx (S754_finite sm mm em))).
    rewrite HD. reflexivity.
  - intros HR. unfold random_value. rewrite HR.
    repeat split; vm_compute; reflexivity.
Qed.

(** *** Pausing *)

Lemma tick_paused w sc :
  consistent w sc -> isPaused (env w) = true ->
  timer w = Ok (tt, painted tick_requests w).
Proof.
  intros Hw Hp. unfold timer, bind, if_scene, Scene_updateAll, bind, the_scene.
  rewrite (inv_scene w sc Hw).
  rewrite (updateAll_paused_objects (objects sc) w Hp);
    [|intros p; apply (inv_owned w sc Hw)].
  cbn [run_static emit set_global fst snd env heap scene].
  unfold painted, tick_requests, set_gl. cbn. by rewrite <- app_assoc.
Qed.

Lemma ticks_paused n : forall w sc,
  consistent w sc -> isPaused (env w) = true ->
  for_each (repeat Tick n) handle w
  = Ok (tt, painted (concat (repeat tick_requests n)) w).
Proof.
  induction n as [|n IH]; intros w sc Hw Hp; cbn [repeat for_each handle concat].
  - unfold ret. by rewrite painted_nil.
  - unfold bind. rewrite (tick_paused w sc Hw Hp).
    rewrite (IH _ sc); [|by apply consistent_painted|exact Hp].
    by rewrite painted_app.
Qed.

(** X15.  Pausing, letting any number of timer ticks pass and resuming
    brings the simulation back to exactly the state it was paused in:
    every object, the scene, every flag and counter and the position in
    the sequence of [rand()] are as before; only the two messages, the
    redisplay requests (one per key and per tick) and the re-arming of
    the timer (once per tick) have been issued. *)
Theorem X15_paused_ticks_change_nothing
    (evs : list event) (w : World) (n : nat) :
  run evs = Ok (tt, w) ->
  isPaused (env w) = false ->
  for_each (Key "p" :: repeat Tick n ++ [Key "p"]) handle w
  = Ok (tt, mkWorld
              (set_gl (gl (env w) ++ GlutPostRedisplay
                                      :: concat (repeat tick_requests n)
                                      ++ [GlutPostRedisplay])
                 (said [OStr "Simulation: "; OStr "PAUSED"; OEndl;
                        OStr "Simulation: "; OStr "RESUMED"; OEndl] (env w)))
              (heap w) (scene w)).
Proof.
  intros Hrun Hp. destruct (reachable_Inv evs w Hrun) as [sc Hw]. clear Hrun.
  cbn [for_each handle]. unfold bind at 1.
  assert (E1 : keyboard "p" w
               = Ok (tt, mkWorld
                           (redisplay (said [OStr "Simulation: "; OStr "PAUSED"; OEndl]
                                         (set_isPaused true (env w))))
                           (heap w) (scene w))).
  { unfold keyboard. cbv beta iota. unfold bind at 1, on_pause.
    cbn [bind run_static global set_global print fst snd env heap scene
         isPaused set_isPaused]. rewrite Hp. reflexivity. }
  rewrite E1. rewrite for_each_app. unfold bind at 1.
  erewrite (ticks_paused n _ sc); [|by apply consistent_env|reflexivity].
  cbn [for_each handle]. unfold bind at 1.
  unfold keyboard. cbv beta iota. unfold bind at 1, on_pause.
  cbn [bind run_static global set_global print fst snd env heap scene
       isPaused set_isPaused painted ret emit].
  unfold said, redisplay, set_gl, set_cout, set_isPaused. cbn.
  rewrite Hp. unfold ret. rewrite <- !app_assoc. cbn [app]. reflexivity.
Qed.


(** ** Ownership of the free store *)

(** X16.  In every state the program can reach, the scene owns the free
    store: the master sequence lists every object allocated with [new],
    each once, and nothing else; the windmill view lists the windmills
    among them, in the same order, and the counter is their number.  So
    the destructor of the scene (as when quitting) releases everything:
    afterwards no object is left and the counter is back to zero.  There
    is no leak, no dangling pointer and no double release. *)
Theorem X16_scene_owns_every_object (evs : list event) (w : World) :
  run evs = Ok (tt, w) ->
  exists sc,
    scene w = Some sc /\
    NoDup (objects sc) /\
    (forall p, p ∈ objects sc <-> is_Some (heap w !! p)) /\
    windmills sc = List.filter (is_windmill_at (heap w)) (objects sc) /\
    windmillCount (env w) = Z.of_nat (length (windmills sc)) /\
    exists w',
      Scene_delete w = Ok (tt, w') /\
      heap w' = ∅ /\
      windmillCount (env w') = 0.
Proof.
  intros Hrun. destruct (reachable_Inv evs w Hrun) as [sc Hw]. clear Hrun.
  exists sc. split; [apply Hw|]. split; [apply Hw|]. split; [apply Hw|].
  split; [apply Hw|]. split; [apply Hw|].
  eexists. split.
  - unfold Scene_delete. rewrite (inv_scene w sc Hw).
    apply delete_objects_eq; [apply Hw|intros p Hp; by apply (inv_owned w sc Hw)].
  - cbn [env heap]. split.
    + apply map_eq. intros p. rewrite lookup_empty, released_lookup.
      destruct (decide (p ∈ objects sc)) as [|Hn]; [reflexivity|].
      apply eq_None_not_Some. intros Hs. apply Hn. by apply (inv_owned w sc Hw).
    + cbn. unfold windmills_among.
      rewrite <- (inv_view w sc Hw), (inv_count w sc Hw). lia.
Qed.


(** X17.  The blade angle is computed without rounding.  One blade step
    from [k] halves at a speed of [n] halves gives exactly
    [(k + n) mod 720] halves, so [t] steps give [(k + n * t) mod 720]
    halves: the rotation is exactly periodic and never drifts.  In every
    state the program can reach, the angle of every windmill is such a
    whole number of halves, and its speed is one from 1 to 30. *)
Theorem X17_blade_angle_is_exact :
  (forall k n (t : nat),
     0 <= k < 720 -> 1 <= n <= 30 ->
     blade_step (halves k) (halves n) = halves ((k + n) mod 720) /\
     Nat.iter t (fun a => blade_step a (halves n)) (halves k)
     = halves ((k + n * Z.of_nat t) mod 720)) /\
  (forall evs w p wm,
     run evs = Ok (tt, w) ->
     heap w !! p = Some (EWindmill wm) ->
     exists k n,
       0 <= k < 720 /\ 1 <= n <= 30 /\
       bladeAngle wm = halves k /\ rotationSpeed wm = halves n).
Proof.
  split.
  - intros k n t Hk Hn. split; [by apply blade_step_exact|].
    induction t as [|t IH].
    + change (Nat.iter 0 (fun a => blade_step a (halves n)) (halves k))
        with (halves k).
      rewrite Z.mul_0_r, Z.add_0_r, Z.mod_small by lia. reflexivity.
    + rewrite Nat.iter_succ, IH.
      rewrite blade_step_exact; [|apply Z.mod_pos_bound; lia|exact Hn].
      f_equal. rewrite Zplus_mod_idemp_l. f_equal. lia.
  - intros evs w p wm Hrun Hp. destruct (run_keeps_good evs w Hrun) as [_ Hh].
    clear Hrun.
    destruct (Hh p _ Hp) as (_ & _ & _ & (n & Hn & Hs) & _ & _ & _ & (k & Hk & Ha)).
    exists k, n. repeat split; try assumption; lia.
Qed.


(** ** The animation phase of the celestial body is never drawn *)

(** A method whose result and whose effect on the process state do not
    depend on the receiver, and which leaves the receiver alone. *)
Definition ignores_receiver {T A : Type} (m : Meth T A) : Prop :=
  forall (t t' : T) (e : Env), exists a e',
    m (t, e) = Ok (a, (t, e')) /\ m (t', e) = Ok (a, (t', e')).

Lemma ignores_ret {T A : Type} (a : A) : ignores_receiver (@ret (T * Env) A a).
Proof. intros t t' e. by exists a, e. Qed.

Lemma ignores_global {T A : Type} (f : Env -> A) : ignores_receiver (@global T A f).
Proof. intros t t' e. by exists (f e), e. Qed.

Lemma ignores_emit {T : Type} (c : GLcmd) : ignores_receiver (@emit T c).
Proof. intros t t' e. by eexists tt, _. Qed.

Lemma ignores_bind {T A B : Type} (m : Meth T A) (k : A -> Meth T B) :
  ignores_receiver m -> (forall a, ignores_receiver (k a)) ->
  ignores_receiver (bind m k).
Proof.
  intros Hm Hk t t' e. destruct (Hm t t' e) as (a & e1 & E1 & E1').
  destruct (Hk a t t' e1) as (b & e2 & E2 & E2').
  exists b, e2. unfold bind. by rewrite E1, E1', E2, E2'.
Qed.

Lemma ignores_if {T A : Type} (c : bool) (m1 m2 : Meth T A) :
  ignores_receiver m1 -> ignores_receiver m2 ->
  ignores_receiver (if c then m1 else m2).
Proof. by destruct c. Qed.

Lemma ignores_for_each {T A : Type} (l : list A) (body : A -> Meth T unit) :
  (forall a, ignores_receiver (body a)) -> ignores_receiver (for_each l body).
Proof.
  intros Hb. induction l as [|a l IH]; simpl.
  - apply ignores_ret.
  - apply ignores_bind; [apply Hb | intros _; apply IH].
Qed.

Lemma ignores_for_upto {T : Type} (n : Z) (body : Z -> Meth T unit) :
  (forall i, ignores_receiver (body i)) -> ignores_receiver (for_upto n body).
Proof. intros Hb. by apply ignores_for_each. Qed.

Ltac receiver_free :=
  repeat match goal with
    | |- forall _, _ => intros
    | |- ignores_receiver (let _ := _ in _) => cbv zeta
    | |- ignores_receiver (bind _ _) => apply ignores_bind
    | |- ignores_receiver (if _ then _ else _) => apply ignores_if
    | |- ignores_receiver (for_upto _ _) => apply ignores_for_upto
    | |- ignores_receiver (for_each _ _) => apply ignores_for_each
    | |- ignores_receiver (emit _) => apply ignores_emit
    | |- ignores_receiver (ret _) => apply ignores_ret
    | |- ignores_receiver (global _) => apply ignores_global
    end.

Lemma ignores_drawCircle {T : Type} cx cy rad segments :
  ignores_receiver (@drawCircle T cx cy rad segments).
Proof. unfold drawCircle. receiver_free. Qed.

Lemma bind_self {T B : Type} (k : T -> Meth T B) (s : T * Env) :
  bind self k s = k (fst s) s.
Proof. reflexivity. Qed.

(** X18.  [CelestialBody::draw()] never reads [angle]: two celestial bodies
    that differ only in their animation phase are drawn by exactly the
    same calls.  The phase that [update()] advances, and that the [s] key
    switches on and off, has no effect on what is displayed. *)
Theorem X18_animation_phase_is_never_drawn
    (cb : CelestialBody) (a : spec_float) (e : Env) :
  exists cmds,
    CelestialBody_draw (cb, e) = Ok (tt, (cb, set_gl (gl e ++ cmds) e)) /\
    CelestialBody_draw (set_angle a cb, e)
    = Ok (tt, (set_angle a cb, set_gl (gl e ++ cmds) e)).
Proof.
  destruct (paints_CelestialBody_draw cb e) as ([] & cmds & E).
  exists cmds. split; [exact E|].
  revert E. unfold CelestialBody_draw.
  rewrite !(bind_self (T := CelestialBody)).
  cbv beta zeta. cbn [fst set_angle celestial_base radius color].
  match goal with
  | |- ?m (cb, e) = _ -> ?m (_, e) = _ =>
      assert (H : ignores_receiver m)
  end.
  { apply ignores_if; [apply ignores_ret|].
    receiver_free; apply ignores_drawCircle. }
  destruct (H cb (set_angle a cb) e) as (u & e' & E1 & E2).
  rewrite E1, E2. intros E. injection E as -> ->. reflexivity.
Qed.


(** ** The selection and the keys, once more *)

(** X19.  In every state the program can reach in which the scene owns a
    windmill, the guard of the speed keys and of the HUD line holds and
    the selection designates exactly one windmill of the scene: the one at
    position [selectedWindmill - 1] of the windmill view carries the
    selection as its identity, and no other windmill of the view does. *)
Theorem X19_selection_designates_one_windmill
    (evs : list event) (w : World) (sc : Scene) :
  run evs = Ok (tt, w) ->
  scene w = Some sc ->
  windmills sc <> [] ->
  selection_in_range sc (env w) = true /\
  exists p wm,
    windmills sc !! Z.to_nat (selectedWindmill (env w) - 1) = Some p /\
    heap w !! p = Some (EWindmill wm) /\
    id wm = selectedWindmill (env w) /\
    forall j q wm',
      windmills sc !! j = Some q ->
      heap w !! q = Some (EWindmill wm') ->
      id wm' = selectedWindmill (env w) ->
      j = Z.to_nat (selectedWindmill (env w) - 1).
Proof.
  intros Hrun Hsc Hne. destruct (reachable_Inv evs w Hrun) as [sc' Hw]. clear Hrun.
  assert (sc' = sc) as -> by (pose proof (inv_scene w sc' Hw); congruence).
  assert (Hlen : (0 < length (windmills sc))%nat)
    by (destruct (windmills sc); [done|cbn; lia]).
  destruct (inv_sel w sc Hw) as [H1 H2].
  assert (Hsel : selection_in_range sc (env w) = true).
  { unfold selection_in_range. apply andb_true_iff. split; [apply andb_true_iff; split|].
    - apply negb_true_iff, Nat.eqb_neq. lia.
    - apply Z.ltb_lt. lia.
    - apply Z.leb_le. lia. }
  split; [exact Hsel|].
  destruct (selected_windmill w sc Hw Hsel) as (p & wm & Hp & _ & Hwm & Hid).
  exists p, wm. split; [exact Hp|]. split; [exact Hwm|]. split; [exact Hid|].
  intros j q wm' Hq Hwm' Hid'.
  destruct (inv_ids w sc Hw j q Hq) as (wm2 & Hwm2 & Hid2).
  rewrite Hwm' in Hwm2. injection Hwm2 as <-. lia.
Qed.

(** The keys the [switch] of [keyboard] has a case for. *)
Definition handled_keys : list ascii :=
  ["1"; "2"; "3"; "4"; "5"; "+"; "="; "-"; "_"; "d"; "D"; "n"; "N"; "c"; "C";
   "w"; "W"; "s"; "S"; "p"; "P"; "r"; "R"; "q"; "Q"; "027"]%char.

Definition is_handled (key : ascii) : bool :=
  existsb (Ascii.eqb key) handled_keys.

(** X20.  The [switch] has no default case: a key it has no case for (a
    letter, the digits 0 and 6 to 9, any control character other than ESC)
    changes nothing at all and prints nothing, in any state, even while
    the scene pointer is null; only the redisplay request that ends every
    key event is issued. *)
Theorem X20_unhandled_key_only_requests_redisplay (key : ascii) (w : World) :
  is_handled key = false ->
  keyboard key w = Ok (tt, painted [GlutPostRedisplay] w).
Proof.
  intros H. destruct key as [b0 b1 b2 b3 b4 b5 b6 b7].
  destruct b0, b1, b2, b3, b4, b5, b6, b7;
    try (exfalso; vm_compute in H; discriminate H);
    reflexivity.
Qed.

End Simulation.


(** * One machine

    The properties above hold for any [cosf], [sinf], [rand] and [sprintf].
    Below the program runs on one choice of them: the [rand] of the
    Microsoft C runtime that MinGW links against, whose [RAND_MAX] is
    [32767], and plain stand-ins for the functions that only shape what is
    drawn. *)

(** The state of the generator after [n] calls from the seed. *)
Fixpoint holdrand (seed : Z) (n : nat) : Z :=
  match n with
  | O => seed
  | S k => (holdrand seed k * 214013 + 2531011) mod 2 ^ 32
  end.

(** The result of call number [n] (from 0) of [rand()]. *)
Definition msvcrt_rand (seed : Z) (n : nat) : Z :=
  Z.land (Z.shiftr (holdrand seed (S n)) 16) 32767.

Definition msvcrt_RAND_MAX : Z := 32767.

Definition cosf_id (a : spec_float) : spec_float := a.
Definition sinf_id (a : spec_float) : spec_float := a.
Definition sprintf_status (id : Z) (speed : spec_float) (status : string) : string :=
  status.

(** The program on this machine, seeded with 1. *)
Definition run1 : list event -> outcome World (unit * World) :=
  run cosf_id sinf_id (msvcrt_rand 1) msvcrt_RAND_MAX sprintf_status.

Definition keyboard1 : ascii -> Prog unit :=
  keyboard cosf_id sinf_id (msvcrt_rand 1) msvcrt_RAND_MAX.

Definition world_of (o : outcome World (unit * World)) : World :=
  match o with
  | Ok (_, w) => w
  | _ => boot
  end.

Definition scene_of (w : World) : Scene :=
  match scene w with
  | Some sc => sc
  | None => Scene_new
  end.

(** The world once [main] has built the scene: three windmills, three
    clouds and the sun. *)
Definition started : World := world_of (run1 []).

Definition paused_env : Env := set_isPaused true initial_env.

(** A cloud past the right edge, a windmill about to complete a turn and a
    sun about to complete its course. *)
Definition late_cloud : Cloud :=
  Cloud_new (F32.of_Z 490) (F32.of_Z 200) (F32.of_Z 5) (F32.of_Z 30).

Definition late_windmill : Windmill :=
  mkWindmill (mkDrawable (F32.of_Z 0) (F32.of_Z (-200)) true)
             (F32.of_Z 359) (F32.of_Z 2) true
             (F32.of_Z 20) (F32.of_Z 150) (F32.of_Z 80) 4 1.

Definition late_sun : CelestialBody :=
  set_angle (F32.lit 3599 1)
    (CelestialBody_new (F32.of_Z 350) (F32.of_Z 280) (F32.of_Z 40)
       (mkColor (F32.of_Z 1) (F32.of_Z 1) (F32.of_Z 0))).

(** The claim that identities are never reused does not hold: the
    constructor issues the number of live windmills, so after the reset key
    has destroyed the windmills 1, 2 and 3 the next windmill is 1 again;
    and at the level of the class, constructing, destroying and
    constructing again issues the same identity twice. *)
Lemma C1_identity_reused_after_reset :
  scene_identities (world_of (run1 [])) = [1; 2; 3] /\
  (exists w, run1 [Key "r"; Key "w"] = Ok (tt, w) /\ scene_identities w = [1]) /\
  (exists wm1 wm2 e1 e2 e3,
     Windmill_new (T := unit) (F32.of_Z 0) (F32.of_Z 0) (F32.of_Z 20)
                  (F32.of_Z 150) (F32.of_Z 80) 4 (tt, initial_env)
     = Ok (wm1, (tt, e1)) /\
     Windmill_delete (wm1, e1) = Ok (tt, (wm1, e2)) /\
     Windmill_new (T := unit) (F32.of_Z 100) (F32.of_Z 0) (F32.of_Z 20)
                  (F32.of_Z 150) (F32.of_Z 80) 4 (tt, e2)
     = Ok (wm2, (tt, e3)) /\
     id wm1 = 1 /\ id wm2 = 1).
Proof.
  split; [vm_compute; reflexivity|]. split.
  - eexists. split; vm_compute; reflexivity.
  - eexists _, _, _, _, _. repeat split; vm_compute; reflexivity.
Qed.

(** The identities after one more windmill has been added to the three of
    the initial scene. *)
Lemma C1_identities_count_live_windmills_witness :
  run1 [Key "w"] = Ok (tt, world_of (run1 [Key "w"])) /\
  scene_identities (world_of (run1 [Key "w"])) = [1; 2; 3; 4] /\
  NoDup (scene_identities (world_of (run1 [Key "w"]))) /\
  windmillCount (env (world_of (run1 [Key "w"]))) = 4.
Proof.
  split; [vm_compute; reflexivity|]. split; [vm_compute; reflexivity|].
  split; [|vm_compute; reflexivity].
  assert (Hrun : run cosf_id sinf_id (msvcrt_rand 1) msvcrt_RAND_MAX
                     sprintf_status [Key "w"]
                 = Ok (tt, world_of (run1 [Key "w"])))
    by (vm_compute; reflexivity).
  destruct (C1_identities_count_live_windmills cosf_id sinf_id (msvcrt_rand 1)
              msvcrt_RAND_MAX sprintf_status) as (_ & _ & H).
  destruct (H [Key "w"] (world_of (run1 [Key "w"])) Hrun)
    as (sc & _ & _ & _ & Hnd).
  exact Hnd.
Defined.

Lemma C4_update_paused_is_noop_witness :
  isPaused paused_env = true /\
  Cloud_update (msvcrt_rand 1) msvcrt_RAND_MAX (late_cloud, paused_env)
  = Ok (tt, (late_cloud, paused_env)) /\
  CelestialBody_update (late_sun, paused_env) = Ok (tt, (late_sun, paused_env)) /\
  Windmill_update (late_windmill, paused_env)
  = Ok (tt, (late_windmill, paused_env)).
Proof.
  split; [reflexivity|].
  destruct (C4_update_paused_is_noop cosf_id sinf_id (msvcrt_rand 1)
              msvcrt_RAND_MAX sprintf_status paused_env eq_refl)
    as (Hc & Hcb & Hwm & _).
  split; [apply Hc|]. split; [apply Hcb|apply Hwm].
Defined.

(** The claim that the wrap is modular does not hold of the celestial
    body: from 359.9 the tick gives 0, whereas the modular wrap, the one
    [Windmill::update()] makes, would give about 0.2, which is a phase
    within the turn and is not 0. *)
Lemma C5_celestial_wrap_is_not_modular :
  in_turn (angle late_sun) = true /\
  CelestialBody_update (late_sun, initial_env)
  = Ok (tt, (set_angle (F32.of_Z 0) late_sun, initial_env)) /\
  in_turn (blade_step (angle late_sun) (F32.lit 3 1)) = true /\
  blade_step (angle late_sun) (F32.lit 3 1) <> F32.of_Z 0.
Proof.
  split; [vm_compute; reflexivity|]. split; [vm_compute; reflexivity|].
  split; [vm_compute; reflexivity|]. vm_compute. discriminate.
Qed.

Lemma C5_angles_stay_within_a_turn_witness :
  in_turn (bladeAngle late_windmill) = true /\
  (F32.lit 5 1 <=? rotationSpeed late_windmill)%f32 = true /\
  (rotationSpeed late_windmill <=? F32.of_Z 15)%f32 = true /\
  in_turn (angle late_sun) = true /\
  (exists wm',
     Windmill_update (late_windmill, initial_env) = Ok (tt, (wm', initial_env)) /\
     in_turn (bladeAngle wm') = true /\
     bladeAngle wm' = F32.of_Z 1) /\
  (exists cb',
     CelestialBody_update (late_sun, initial_env) = Ok (tt, (cb', initial_env)) /\
     in_turn (angle cb') = true /\
     angle cb' = F32.of_Z 0).
Proof.
  assert (Ha : in_turn (bladeAngle late_windmill) = true) by (vm_compute; reflexivity).
  assert (Hlo : (F32.lit 5 1 <=? rotationSpeed late_windmill)%f32 = true)
    by (vm_compute; reflexivity).
  assert (Hhi : (rotationSpeed late_windmill <=? F32.of_Z 15)%f32 = true)
    by (vm_compute; reflexivity).
  assert (Hs : in_turn (angle late_sun) = true) by (vm_compute; reflexivity).
  split; [exact Ha|]. split; [exact Hlo|]. split; [exact Hhi|]. split; [exact Hs|].
  destruct (C5_angles_stay_within_a_turn initial_env) as (Hwm & Hcb & _).
  split.
  - destruct (Hwm late_windmill eq_refl eq_refl Ha Hlo Hhi)
      as (wm' & Hup & _ & Hin & Hval).
    exists wm'. split; [exact Hup|]. split; [exact Hin|].
    rewrite (Hval eq_refl eq_refl). vm_compute. reflexivity.
  - destruct (Hcb late_sun eq_refl Hs) as (cb' & Hup & _ & Hin & Hval).
    exists cb'. split; [exact Hup|]. split; [exact Hin|].
    rewrite (Hval eq_refl eq_refl). vm_compute. reflexivity.
Defined.

Lemma C6_cloud_wraps_to_left_edge_witness :
  isPaused initial_env = false /\
  0 <= msvcrt_rand 1 (rand_calls initial_env) <= msvcrt_RAND_MAX /\
  exists c' e',
    Cloud_update (msvcrt_rand 1) msvcrt_RAND_MAX (late_cloud, initial_env)
    = Ok (tt, (c', e')) /\
    x (cloud_base c') = F32.opp (F32.of_Z 450) /\
    in_band (y (cloud_base c')) = true /\
    speed c' = F32.of_Z 5.
Proof.
  assert (Hrnd : 0 <= msvcrt_rand 1 (rand_calls initial_env) <= msvcrt_RAND_MAX)
    by (vm_compute; split; discriminate).
  split; [reflexivity|]. split; [exact Hrnd|].
  destruct (C6_cloud_wraps_to_left_edge (msvcrt_rand 1) msvcrt_RAND_MAX
              late_cloud initial_env eq_refl (or_introl eq_refl) Hrnd)
    as (c' & e' & Hup & Hspeed & _ & _ & _ & Hwrap & Hex).
  destruct (Hex eq_refl eq_refl) as (_ & Hgt & Hx).
  destruct (Hwrap Hgt) as (_ & _ & _ & Hband & _).
  exists c', e'. split; [exact Hup|]. split; [exact Hx|].
  split; [exact Hband|exact Hspeed].
Defined.

Lemma C7_select_beyond_count_is_noop_witness :
  scene started = Some (scene_of started) /\
  length (windmills (scene_of started)) = 3%nat /\
  digit_index "4" = 4 /\
  keyboard1 "4" started = Ok (tt, painted [GlutPostRedisplay] started) /\
  selectedWindmill (env (painted [GlutPostRedisplay] started)) = 1.
Proof.
  assert (Hsc : scene started = Some (scene_of started)) by (vm_compute; reflexivity).
  assert (Hlen : length (windmills (scene_of started)) = 3%nat)
    by (vm_compute; reflexivity).
  assert (Hd : digit_index "4" = 4) by (vm_compute; reflexivity).
  split; [exact Hsc|]. split; [exact Hlen|]. split; [exact Hd|].
  split; [|vm_compute; reflexivity].
  apply (C7_select_beyond_count_is_noop cosf_id sinf_id (msvcrt_rand 1)
           msvcrt_RAND_MAX started (scene_of started) "4" Hsc).
  - rewrite Hd. lia.
  - rewrite Hlen, Hd. lia.
Defined.

Lemma C8_clear_leaves_fresh_empty_scene_witness :
  scene started = Some (scene_of started) /\
  length (objects (scene_of started)) = 7%nat /\
  exists w',
    Scene_clear cosf_id sinf_id (msvcrt_rand 1) msvcrt_RAND_MAX started
    = Ok (tt, w') /\
    scene w' = Some Scene_new /\
    windmillCount (env w') = 0 /\
    (forall p, p ∈ objects (scene_of started) -> heap w' !! p = None) /\
    Scene_drawAll cosf_id sinf_id (msvcrt_rand 1) msvcrt_RAND_MAX w' = Ok (tt, w') /\
    Scene_updateAll cosf_id sinf_id (msvcrt_rand 1) msvcrt_RAND_MAX w' = Ok (tt, w').
Proof.
  assert (Hsc : scene started = Some (scene_of started)) by (vm_compute; reflexivity).
  split; [exact Hsc|]. split; [vm_compute; reflexivity|].
  assert (Hnd : NoDup (objects (scene_of started))).
  { apply (bool_decide_unpack _). vm_compute. exact I. }
  assert (Hown : forall p, p ∈ objects (scene_of started) ->
                           is_Some (heap started !! p)).
  { apply Forall_forall. apply (bool_decide_unpack _). vm_compute. exact I. }
  destruct (C8_clear_leaves_fresh_empty_scene cosf_id sinf_id (msvcrt_rand 1)
              msvcrt_RAND_MAX sprintf_status started (scene_of started)
              Hsc Hnd Hown)
    as (w' & Hclear & Hscene & Hheap & Henv & Hdraw & Hupd).
  exists w'. split; [exact Hclear|]. split; [exact Hscene|].
  split; [rewrite Henv; vm_compute; reflexivity|].
  split; [|split; [exact Hdraw|exact Hupd]].
  intros p Hp. rewrite Hheap. destruct (decide (p ∈ objects (scene_of started)));
    [reflexivity|contradiction].
Defined.

Lemma C9_draw_is_state_pure_witness :
  scene_ok started = true /\
  exists cmds,
    repeat_call 2 (display cosf_id sinf_id (msvcrt_rand 1) msvcrt_RAND_MAX
                     sprintf_status) started
    = Ok (tt, painted cmds started).
Proof.
  assert (Hok : scene_ok started = true) by (vm_compute; reflexivity).
  split; [exact Hok|].
  destruct (C9_draw_is_state_pure cosf_id sinf_id (msvcrt_rand 1)
              msvcrt_RAND_MAX sprintf_status) as (_ & _ & _ & H).
  exact (proj2 (H started 2%nat Hok)).
Defined.

Lemma C10_celestial_wrap_resets_to_zero_witness :
  isPaused initial_env = false /\
  animateCelestial initial_env = true /\
  CelestialBody_update (late_sun, initial_env)
  = Ok (tt, (set_angle (F32.of_Z 0) late_sun, initial_env)) /\
  Windmill_update (late_windmill, initial_env)
  = Ok (tt, (set_bladeAngle (F32.of_Z 1) late_windmill, initial_env)).
Proof.
  split; [reflexivity|]. split; [reflexivity|].
  destruct (C10_celestial_wrap_resets_to_zero initial_env eq_refl) as [Hcb Hwm].
  split.
  - apply Hcb; [reflexivity|vm_compute; reflexivity].
  - rewrite (Hwm late_windmill eq_refl); [|vm_compute; reflexivity].
    vm_compute. reflexivity.
Defined.

(** ** The further properties on this machine *)

(** The first windmill of the initial scene, a scene with six windmills
    and its sixth windmill. *)
Definition first_windmill : Windmill :=
  mkWindmill (mkDrawable (F32.opp (F32.of_Z 250)) (F32.opp (F32.of_Z 200)) true)
             (F32.of_Z 0) (F32.of_Z 2) true
             (F32.of_Z 30) (F32.of_Z 120) (F32.of_Z 80) 4 1.

Definition crowded : World := world_of (run1 [Key "w"; Key "w"; Key "w"]).

Definition sixth_windmill : Windmill :=
  match heap crowded !! 9%nat with
  | Some (EWindmill wm) => wm
  | _ => first_windmill
  end.

Lemma started_reached :
  run cosf_id sinf_id (msvcrt_rand 1) msvcrt_RAND_MAX sprintf_status []
  = Ok (tt, started).
Proof. vm_compute. reflexivity. Qed.

Lemma started_scene : scene started = Some (scene_of started).
Proof. vm_compute. reflexivity. Qed.

Lemma started_first_windmill : heap started !! 0%nat = Some (EWindmill first_windmill).
Proof. vm_compute. reflexivity. Qed.

Lemma crowded_reached :
  run cosf_id sinf_id (msvcrt_rand 1) msvcrt_RAND_MAX sprintf_status
      [Key "w"; Key "w"; Key "w"]
  = Ok (tt, crowded).
Proof. vm_compute. reflexivity. Qed.

Lemma crowded_sixth_windmill : heap crowded !! 9%nat = Some (EWindmill sixth_windmill).
Proof. vm_compute. reflexivity. Qed.

Lemma X2_digit_key_selects_windmill_witness :
  scene started = Some (scene_of started) /\
  1 <= digit_index "2" <= 5 /\
  digit_index "2" <= Z.of_nat (length (windmills (scene_of started))) /\
  exists w',
    keyboard cosf_id sinf_id (msvcrt_rand 1) msvcrt_RAND_MAX "2" started = Ok (tt, w') /\
    selectedWindmill (env w') = digit_index "2".
Proof.
  assert (Hd : 1 <= digit_index "2" <= 5) by (vm_compute; split; discriminate).
  assert (Hn : digit_index "2" <= Z.of_nat (length (windmills (scene_of started))))
    by (vm_compute; discriminate).
  split; [exact started_scene|]. split; [exact Hd|]. split; [exact Hn|].
  pose proof (X2_digit_key_selects_windmill cosf_id sinf_id (msvcrt_rand 1)
                msvcrt_RAND_MAX started (scene_of started) "2" started_scene Hd Hn)
    as H.
  eexists. split; [exact H|]. reflexivity.
Defined.

Lemma X3_speed_key_acts_on_selected_windmill_witness :
  selection_in_range (scene_of started) (env started) = true /\
  exists p wm w',
    heap started !! p = Some (EWindmill wm) /\
    id wm = selectedWindmill (env started) /\
    keyboard cosf_id sinf_id (msvcrt_rand 1) msvcrt_RAND_MAX "+" started = Ok (tt, w') /\
    heap w' !! p = Some (EWindmill (set_rotationSpeed (faster (rotationSpeed wm)) wm)).
Proof.
  assert (Hsel : selection_in_range (scene_of started) (env started) = true)
    by (vm_compute; reflexivity).
  split; [exact Hsel|].
  destruct (X3_speed_key_acts_on_selected_windmill cosf_id sinf_id (msvcrt_rand 1)
              msvcrt_RAND_MAX sprintf_status [] started (scene_of started)
              Increase "+" started_reached started_scene (or_introl eq_refl))
    as [Hin _].
  destruct (Hin Hsel) as (p & wm & _ & Hwm & Hid & Hkey).
  exists p, wm. eexists. split; [exact Hwm|]. split; [exact Hid|].
  split; [exact Hkey|]. cbn [heap]. apply lookup_insert_eq.
Defined.


Lemma X5_w_key_adds_a_windmill_witness :
  windmill_key "w" /\
  exists w',
    keyboard cosf_id sinf_id (msvcrt_rand 1) msvcrt_RAND_MAX "w" started = Ok (tt, w') /\
    windmillCount (env w') = 4 /\
    selectedWindmill (env w') = 1 /\
    length (windmills (scene_of w')) = 4%nat.
Proof.
  split; [left; reflexivity|].
  pose proof (X5_w_key_adds_a_windmill cosf_id sinf_id (msvcrt_rand 1) msvcrt_RAND_MAX
                sprintf_status [] started (scene_of started) "w"
                started_reached started_scene (or_introl eq_refl)) as H.
  cbv zeta in H. destruct H as (_ & _ & Hkey).
  eexists. split; [exact Hkey|].
  split; [vm_compute; reflexivity|]. split; vm_compute; reflexivity.
Defined.

Lemma X6_c_key_adds_a_cloud_witness :
  cloud_key "c" /\
  exists w',
    keyboard cosf_id sinf_id (msvcrt_rand 1) msvcrt_RAND_MAX "c" started = Ok (tt, w') /\
    rand_calls (env w') = 3%nat /\
    length (clouds (scene_of w')) = 4%nat /\
    length (windmills (scene_of w')) = 3%nat.
Proof.
  split; [left; reflexivity|].
  pose proof (X6_c_key_adds_a_cloud cosf_id sinf_id (msvcrt_rand 1) msvcrt_RAND_MAX
                started (scene_of started) "c" started_scene (or_introl eq_refl)) as H.
  cbv zeta in H. destruct H as (_ & Hkey).
  eexists. split; [exact Hkey|].
  split; [vm_compute; reflexivity|]. split; vm_compute; reflexivity.
Defined.

Lemma X7_null_scene_is_tested_by_timer_only_witness :
  scene boot = None /\
  timer cosf_id sinf_id (msvcrt_rand 1) msvcrt_RAND_MAX boot
  = Ok (tt, painted tick_requests boot) /\
  display cosf_id sinf_id (msvcrt_rand 1) msvcrt_RAND_MAX sprintf_status boot = Fault /\
  keyboard cosf_id sinf_id (msvcrt_rand 1) msvcrt_RAND_MAX "r" boot = Fault.
Proof.
  split; [reflexivity|].
  destruct (X7_null_scene_is_tested_by_timer_only cosf_id sinf_id (msvcrt_rand 1)
              msvcrt_RAND_MAX sprintf_status boot eq_refl) as (Ht & Hd & Hk).
  split; [exact Ht|]. split; [exact Hd|].
  apply Hk. right. right. right. right. left. reflexivity.
Defined.

Lemma X8_tick_updates_every_object_once_witness :
  isPaused (env started) = false /\
  exists h n o',
    timer cosf_id sinf_id (msvcrt_rand 1) msvcrt_RAND_MAX started
    = Ok (tt, mkWorld (set_gl (gl (env started) ++ tick_requests)
                         (set_rand_calls n (env started))) h (scene started)) /\
    h !! 0%nat = Some o' /\
    ticked (msvcrt_rand 1) msvcrt_RAND_MAX (animateCelestial (env started))
           (EWindmill first_windmill) o'.
Proof.
  split; [reflexivity|].
  destruct (X8_tick_updates_every_object_once cosf_id sinf_id (msvcrt_rand 1)
              msvcrt_RAND_MAX sprintf_status [] started started_reached eq_refl)
    as (h & n & Ht & _ & Hobj).
  specialize (Hobj 0%nat). rewrite started_first_windmill in Hobj.
  destruct Hobj as (o' & Ho' & Hticked).
  exists h, n, o'. split; [exact Ht|]. split; [exact Ho'|exact Hticked].
Defined.

Lemma X9_speeds_and_angles_stay_in_range_witness :
  heap started !! 0%nat = Some (EWindmill first_windmill) /\
  F32.leb (F32.lit 5 1) (rotationSpeed first_windmill) = true /\
  F32.leb (rotationSpeed first_windmill) (F32.of_Z 15) = true /\
  in_turn (bladeAngle first_windmill) = true.
Proof.
  split; [exact started_first_windmill|].
  pose proof (X9_speeds_and_angles_stay_in_range cosf_id sinf_id (msvcrt_rand 1)
                msvcrt_RAND_MAX sprintf_status [] started 0%nat started_reached) as H.
  rewrite started_first_windmill in H.
  destruct H as (_ & _ & Hlo & Hhi & _ & Hin).
  split; [exact Hlo|]. split; [exact Hhi|exact Hin].
Defined.

Lemma X10_objects_stay_visible_and_rotating_witness :
  heap started !! 0%nat = Some (EWindmill first_windmill) /\
  visible (windmill_base first_windmill) = true /\
  isRotating first_windmill = true /\
  numBlades first_windmill = 4.
Proof.
  split; [exact started_first_windmill|].
  pose proof (X10_objects_stay_visible_and_rotating cosf_id sinf_id (msvcrt_rand 1)
                msvcrt_RAND_MAX sprintf_status [] started 0%nat started_reached) as H.
  rewrite started_first_windmill in H. exact H.
Defined.

Lemma X11_only_five_windmills_can_be_controlled_witness :
  heap crowded !! 9%nat = Some (EWindmill sixth_windmill) /\
  id sixth_windmill = 6 /\
  1 <= selectedWindmill (env crowded) <= 5 /\
  rotationSpeed sixth_windmill = F32.of_Z 2 /\
  id sixth_windmill <> selectedWindmill (env crowded).
Proof.
  split; [exact crowded_sixth_windmill|].
  assert (Hid : id sixth_windmill = 6) by (vm_compute; reflexivity).
  split; [exact Hid|].
  destruct (X11_only_five_windmills_can_be_controlled cosf_id sinf_id (msvcrt_rand 1)
              msvcrt_RAND_MAX sprintf_status _ crowded crowded_reached) as [Hsel Hbeyond].
  split; [exact Hsel|].
  apply (Hbeyond 9%nat sixth_windmill crowded_sixth_windmill).
  rewrite Hid. reflexivity.
Defined.

Lemma X12_every_frame_is_legal_opengl_witness :
  exists cmds,
    display cosf_id sinf_id (msvcrt_rand 1) msvcrt_RAND_MAX sprintf_status started
    = Ok (tt, painted cmds started) /\
    gl_run gl_idle cmds = Some gl_idle.
Proof.
  exact (X12_every_frame_is_legal_opengl cosf_id sinf_id (msvcrt_rand 1)
           msvcrt_RAND_MAX sprintf_status [] started started_reached).
Defined.

Lemma X14_randomFloat_at_the_ends_of_the_range_witness :
  random_value 32767 (F32.opp (F32.of_Z 450)) (F32.of_Z 450) 0
  = F32.opp (F32.of_Z 450) /\
  F32.gtb (random_value 32767 (F32.opp (F32.of_Z 450)) (F32.of_Z 450) 32767)
          (F32.of_Z 450) = true.
Proof.
  destruct (X14_randomFloat_at_the_ends_of_the_range 32767) as [Hlow Hhigh].
  split.
  - apply (Hlow _ _ true false 14745600%positive 9544080%positive (-15) (-18));
      vm_compute; reflexivity.
  - exact (proj1 (Hhigh eq_refl)).
Defined.

Lemma X15_paused_ticks_change_nothing_witness :
  isPaused (env started) = false /\
  exists e',
    for_each (Key "p" :: repeat Tick 3 ++ [Key "p"])
      (handle cosf_id sinf_id (msvcrt_rand 1) msvcrt_RAND_MAX sprintf_status) started
    = Ok (tt, mkWorld e' (heap started) (scene started)) /\
    isPaused e' = false /\
    rand_calls e' = rand_calls (env started).
Proof.
  split; [reflexivity|]. eexists. split.
  - exact (X15_paused_ticks_change_nothing cosf_id sinf_id (msvcrt_rand 1)
             msvcrt_RAND_MAX sprintf_status [] started 3 started_reached eq_refl).
  - split; reflexivity.
Defined.

Lemma X16_scene_owns_every_object_witness :
  exists sc w',
    scene started = Some sc /\
    NoDup (objects sc) /\
    Scene_delete cosf_id sinf_id (msvcrt_rand 1) msvcrt_RAND_MAX started = Ok (tt, w') /\
    heap w' = ∅ /\
    windmillCount (env w') = 0.
Proof.
  destruct (X16_scene_owns_every_object cosf_id sinf_id (msvcrt_rand 1)
              msvcrt_RAND_MAX sprintf_status [] started started_reached)
    as (sc & Hsc & Hnd & _ & _ & _ & w' & Hdel & Hheap & Hcount).
  exists sc, w'. repeat split; assumption.
Defined.

Lemma X17_blade_angle_is_exact_witness :
  blade_step (halves 718) (halves 4) = halves 2 /\
  Nat.iter 180 (fun a => blade_step a (halves 4)) (halves 0) = halves 0 /\
  exists k n,
    0 <= k < 720 /\ 1 <= n <= 30 /\
    bladeAngle first_windmill = halves k /\ rotationSpeed first_windmill = halves n.
Proof.
  destruct (X17_blade_angle_is_exact cosf_id sinf_id (msvcrt_rand 1) msvcrt_RAND_MAX
              sprintf_status) as [Hstep Hrun].
  split; [|split].
  - exact (proj1 (Hstep 718 4 0%nat ltac:(lia) ltac:(lia))).
  - exact (proj2 (Hstep 0 4 180%nat ltac:(lia) ltac:(lia))).
  - exact (Hrun [] started 0%nat first_windmill started_reached started_first_windmill).
Defined.

Lemma X19_selection_designates_one_windmill_witness :
  windmills (scene_of started) <> [] /\
  selection_in_range (scene_of started) (env started) = true /\
  exists p wm,
    heap started !! p = Some (EWindmill wm) /\
    id wm = selectedWindmill (env started).
Proof.
  assert (Hne : windmills (scene_of started) <> [])
    by (intros H; vm_compute in H; discriminate H).
  split; [exact Hne|].
  destruct (X19_selection_designates_one_windmill cosf_id sinf_id (msvcrt_rand 1)
              msvcrt_RAND_MAX sprintf_status [] started (scene_of started)
              started_reached started_scene Hne)
    as (Hsel & p & wm & _ & Hwm & Hid & _).
  split; [exact Hsel|]. exists p, wm. split; [exact Hwm|exact Hid].
Defined.

Lemma X20_unhandled_key_only_requests_redisplay_witness :
  is_handled "x" = false /\
  keyboard cosf_id sinf_id (msvcrt_rand 1) msvcrt_RAND_MAX "x" started
  = Ok (tt, painted [GlutPostRedisplay] started).
Proof.
  split; [reflexivity|].
  exact (X20_unhandled_key_only_requests_redisplay cosf_id sinf_id (msvcrt_rand 1)
           msvcrt_RAND_MAX "x" started eq_refl).
Defined.
